(** * RAG-system web client: streaming chat receiver and upload validation

    A shallow embedding of
    - [LLM/apps/web/components/chat/ChatInterface.tsx] ([handleSendMessage]),
    - [LLM/apps/web/components/chat/MessageInput.tsx] ([handleSend]),
    - [LLM/apps/web/components/documents/DocumentUpload.tsx]
      ([validateAndSetFile], [handleUpload], [clearFile]),
    together with the parts of the JavaScript platform these functions call
    (string methods, [TextDecoder] in stream mode).

    JavaScript strings are sequences of UTF-16 code units; they are modelled
    as [list N].  React state is passed explicitly; an exception is an
    [outcome] that short-circuits the rest of a [try] block. *)

From Stdlib Require Import List NArith ZArith Bool Lia.
From Stdlib Require Import Strings.String Strings.Ascii Strings.Byte.
From Stdlib Require Import DecimalString.
From Stdlib Require DecimalN DecimalPos.
Import ListNotations.

Local Open Scope N_scope.

(** ** JavaScript strings *)

Module JS.

(** A string is the list of its UTF-16 code units. *)
Definition str := list N.

(** String literals of the source, written as Rocq strings. *)
Definition lit (s : string) : str := map N_of_ascii (list_ascii_of_string s).

Definition LF : N := 10.
(** ["\n"] and ["\n\n"]. *)
Definition nl : str := [LF].
Definition nlnl : str := [LF; LF].

Fixpoint eqb (a b : str) : bool :=
  match a, b with
  | [], [] => true
  | x :: a', y :: b' => (x =? y) && eqb a' b'
  | _, _ => false
  end.

(** Truthiness of a string: only [""] is falsy. *)
Definition truthy (s : str) : bool :=
  match s with [] => false | _ :: _ => true end.

(** [s.startsWith(p)]. *)
Fixpoint startsWith (s p : str) {struct p} : bool :=
  match p with
  | [] => true
  | x :: p' =>
      match s with
      | [] => false
      | y :: s' => (x =? y) && startsWith s' p'
      end
  end.

(** [s.slice(n)] for a literal [n >= 0]. *)
Definition slice (n : nat) (s : str) : str := skipn n s.

(** [s.substring(start)]: a negative start counts as 0. *)
Definition substring (start : Z) (s : str) : str :=
  skipn (Z.to_nat (Z.max 0 start)) s.

(** ECMAScript WhiteSpace and LineTerminator code points (all in the BMP). *)
Definition isWhiteSpace (c : N) : bool :=
  ((9 <=? c) && (c <=? 13)) || (c =? 32) || (c =? 160) || (c =? 5760)
  || ((8192 <=? c) && (c <=? 8202)) || (c =? 8232) || (c =? 8233)
  || (c =? 8239) || (c =? 8287) || (c =? 12288) || (c =? 65279).

Fixpoint trimStart (s : str) : str :=
  match s with
  | [] => []
  | c :: s' => if isWhiteSpace c then trimStart s' else s
  end.

Definition trimEnd (s : str) : str := rev (trimStart (rev s)).

(** [s.trim()]. *)
Definition trim (s : str) : str := trimEnd (trimStart s).

Definition cons_head (c : N) (l : list str) : list str :=
  match l with
  | [] => [[c]]
  | x :: xs => (c :: x) :: xs
  end.

(** [s.split(sep)] for a non-empty separator: the pieces between the
    left-most, non-overlapping occurrences of [sep].  [skip] counts the
    code units of an occurrence that are still to be passed over. *)
Fixpoint split_from (sep : str) (skip : nat) (s : str) : list str :=
  match s with
  | [] => [[]]
  | c :: rest =>
      match skip with
      | S k => split_from sep k rest
      | O =>
          if startsWith s sep
          then [] :: split_from sep (pred (List.length sep)) rest
          else cons_head c (split_from sep O rest)
      end
  end.

Definition split (s sep : str) : list str := split_from sep 0 s.

(** [a.pop()]: the array without its last element, and that element
    ([undefined], here [None], on an empty array). *)
Definition pop {A} (a : list A) : list A * option A :=
  match a with
  | [] => ([], None)
  | x :: a' => (removelast a, Some (last a' x))
  end.

(** [x || ""] for [x : string | undefined]. *)
Definition orEmpty (x : option str) : str :=
  match x with
  | Some s => s
  | None => []
  end.

(** [s.lastIndexOf(p)]: the largest index at which [p] occurs, or -1. *)
Fixpoint lastIndexOf_from (s p : str) (i acc : Z) : Z :=
  match s with
  | [] => if startsWith [] p then i else acc
  | _ :: s' =>
      lastIndexOf_from s' p (i + 1)%Z (if startsWith s p then i else acc)
  end.

Definition lastIndexOf (s p : str) : Z := lastIndexOf_from s p 0%Z (-1)%Z.

(** [a.includes(x)] on an array of strings. *)
Definition includes (a : list str) (x : str) : bool := existsb (eqb x) a.

(** [a.join(sep)]. *)
Fixpoint join (a : list str) (sep : str) : str :=
  match a with
  | [] => []
  | [x] => x
  | x :: a' => x ++ sep ++ join a' sep
  end.

(** A non-negative integer Number inside a template literal. *)
Definition numToString (n : N) : str :=
  lit (NilZero.string_of_uint (N.to_uint n)).

End JS.

Import JS.

(** ** [TextDecoder] in stream mode

  [new TextDecoder()] is a UTF-8 decoder with the replacement error mode
  and BOM removal (WHATWG Encoding).  Every call of the source passes
  [{ stream: true }], so the decoder keeps its state from one call to the
  next and is never flushed. *)

Module TextDecoder.

Record utf8 := {
  code_point : N;
  bytes_seen : N;
  bytes_needed : N;
  lower_boundary : N;
  upper_boundary : N
}.

Definition utf8_init : utf8 :=
  {| code_point := 0; bytes_seen := 0; bytes_needed := 0;
     lower_boundary := 0x80; upper_boundary := 0xBF |}.

Record t := { state : utf8; BOM_seen : bool }.

(** [new TextDecoder()]. *)
Definition create : t := {| state := utf8_init; BOM_seen := false |}.

Definition between (lo hi b : N) : bool := (lo <=? b) && (b <=? hi).

(** The handler on a byte when no continuation byte is expected: the new
    state and the scalar values emitted. *)
Definition lead (b : N) : utf8 * list N :=
  if b <=? 0x7F then (utf8_init, [b])
  else if between 0xC2 0xDF b then
    ({| code_point := N.land b 0x1F; bytes_seen := 0; bytes_needed := 1;
        lower_boundary := 0x80; upper_boundary := 0xBF |}, [])
  else if between 0xE0 0xEF b then
    ({| code_point := N.land b 0xF; bytes_seen := 0; bytes_needed := 2;
        lower_boundary := if b =? 0xE0 then 0xA0 else 0x80;
        upper_boundary := if b =? 0xED then 0x9F else 0xBF |}, [])
  else if between 0xF0 0xF4 b then
    ({| code_point := N.land b 0x7; bytes_seen := 0; bytes_needed := 3;
        lower_boundary := if b =? 0xF0 then 0x90 else 0x80;
        upper_boundary := if b =? 0xF4 then 0x8F else 0xBF |}, [])
  else (utf8_init, [0xFFFD]).

(** The UTF-8 decoder's handler; an ill-formed sequence yields U+FFFD and
    the offending byte is handled again from the initial state. *)
Definition handler (d : utf8) (b : N) : utf8 * list N :=
  if bytes_needed d =? 0 then lead b
  else if negb (between (lower_boundary d) (upper_boundary d) b) then
    let '(d', out) := lead b in (d', 0xFFFD :: out)
  else
    let cp := N.lor (N.shiftl (code_point d) 6) (N.land b 0x3F) in
    if bytes_seen d + 1 =? bytes_needed d then (utf8_init, [cp])
    else
      ({| code_point := cp; bytes_seen := bytes_seen d + 1;
          bytes_needed := bytes_needed d;
          lower_boundary := 0x80; upper_boundary := 0xBF |}, []).

Fixpoint run (d : utf8) (input : list byte) : utf8 * list N :=
  match input with
  | [] => (d, [])
  | b :: rest =>
      let '(d1, out1) := handler d (Byte.to_N b) in
      let '(d2, out2) := run d1 rest in
      (d2, out1 ++ out2)
  end.

(** A scalar value as UTF-16 code units. *)
Definition utf16 (cp : N) : str :=
  if cp <? 0x10000 then [cp]
  else
    let v := cp - 0x10000 in
    [0xD800 + N.shiftr v 10; 0xDC00 + N.land v 0x3FF].

(** Serialising the decoded scalar values: the first one is dropped when
    it is a byte order mark. *)
Definition serialize (seen : bool) (items : list N) : bool * str :=
  match items with
  | [] => (seen, [])
  | item :: rest =>
      (true,
       (if negb seen && (item =? 0xFEFF) then [] else utf16 item)
         ++ flat_map utf16 rest)
  end.

(** [decoder.decode(value, { stream: true })]. *)
Definition decode (d : t) (value : list byte) : t * str :=
  let '(st, items) := run (state d) value in
  let '(seen, out) := serialize (BOM_seen d) items in
  ({| state := st; BOM_seen := seen |}, out).

End TextDecoder.

(** ** [ChatInterface.tsx] and [MessageInput.tsx] *)

Module Chat.

Inductive Role := user | assistant.

(** [interface Message] of [MessageList.tsx]; [isStreaming] is optional. *)
Record Message := {
  id : str;
  role : Role;
  content : str;
  timestamp : str;
  isStreaming : option bool
}.

(** The [useState] values of [ChatInterface] that [handleSendMessage]
    reads or writes, and the URLs handed to [router.push]. *)
Record State := {
  messages : list Message;
  isLoading : bool;
  conversationId : option str;
  error : option str;
  pushed : list str
}.

Definition initial : State :=
  {| messages := []; isLoading := false; conversationId := None;
     error := None; pushed := [] |}.

Definition setMessages (f : list Message -> list Message) (s : State) : State :=
  {| messages := f (messages s); isLoading := isLoading s;
     conversationId := conversationId s; error := error s;
     pushed := pushed s |}.

Definition setIsLoading (b : bool) (s : State) : State :=
  {| messages := messages s; isLoading := b;
     conversationId := conversationId s; error := error s;
     pushed := pushed s |}.

Definition setConversationId (c : option str) (s : State) : State :=
  {| messages := messages s; isLoading := isLoading s;
     conversationId := c; error := error s; pushed := pushed s |}.

Definition setError (e : option str) (s : State) : State :=
  {| messages := messages s; isLoading := isLoading s;
     conversationId := conversationId s; error := e; pushed := pushed s |}.

Definition routerPush (url : str) (s : State) : State :=
  {| messages := messages s; isLoading := isLoading s;
     conversationId := conversationId s; error := error s;
     pushed := pushed s ++ [url] |}.

(** Truthiness of a [string | null]. *)
Definition truthyOpt (x : option str) : bool :=
  match x with
  | Some s => truthy s
  | None => false
  end.

(** *** Exceptions *)

(** A thrown value: an [Error] with its message, or anything else. *)
Inductive thrown := ErrorObj (message : str) | OtherValue.

(** The result of running statements inside [try]: either the values
    reached, or the value thrown and the React state at the [throw] (state
    written before the [throw] stays written; the block-scoped variables
    of the [try] block are out of reach of [catch]). *)
Inductive outcome (A : Type) :=
| Ok (a : A)
| Throw (e : thrown) (s : State).
Arguments Ok {A} a.
Arguments Throw {A} e s.

Definition andThen {A B} (r : outcome A) (k : A -> outcome B) : outcome B :=
  match r with
  | Ok a => k a
  | Throw e s => Throw e s
  end.

(** [for (const x of xs) body]. *)
Fixpoint forOf {A S} (body : S -> A -> outcome S) (xs : list A) (s : S)
  : outcome S :=
  match xs with
  | [] => Ok s
  | x :: rest => andThen (body s x) (forOf body rest)
  end.

(** *** The receiver loop of [handleSendMessage] *)

(** The [let]/[const] variables of the streaming part. *)
Record Locals := {
  decoder : TextDecoder.t;
  assistantContent : str;
  buffer : str
}.

Definition locals0 : Locals :=
  {| decoder := TextDecoder.create; assistantContent := []; buffer := [] |}.

(** [prev.map(msg => msg.id === assistantMessageId
                      ? { ...msg, content: assistantContent, isStreaming: true }
                      : msg)] *)
Definition streamingUpdate (assistantMessageId assistantContent : str)
    (prev : list Message) : list Message :=
  map (fun msg =>
         if eqb (id msg) assistantMessageId
         then {| id := id msg; role := role msg; content := assistantContent;
                 timestamp := timestamp msg; isStreaming := Some true |}
         else msg) prev.

(** [prev.map(msg => msg.id === assistantMessageId
                      ? { ...msg, isStreaming: false } : msg)] *)
Definition markComplete (assistantMessageId : str) (prev : list Message)
  : list Message :=
  map (fun msg =>
         if eqb (id msg) assistantMessageId
         then {| id := id msg; role := role msg; content := content msg;
                 timestamp := timestamp msg; isStreaming := Some false |}
         else msg) prev.

(** [prev.filter(msg => msg.id !== assistantMessageId)] *)
Definition removeAssistant (assistantMessageId : str) (prev : list Message)
  : list Message :=
  filter (fun msg => negb (eqb (id msg) assistantMessageId)) prev.

Definition appendContent (aid content : str) (x : State * Locals)
  : State * Locals :=
  let '(s, l) := x in
  let assistantContent' := assistantContent l ++ content in
  (setMessages (streamingUpdate aid assistantContent') s,
   {| decoder := decoder l; assistantContent := assistantContent';
      buffer := buffer l |}).

(** The body of [for (const line of lines)] inside the [while] loop
    (lines 137-152). *)
Definition onLine (aid : str) (x : State * Locals) (line : str)
  : outcome (State * Locals) :=
  if startsWith line (lit "data: ") then
    let content := slice 6 line in
    if truthy content && negb (startsWith content (lit "[ERROR]")) then
      Ok (appendContent aid content x)
    else if startsWith content (lit "[ERROR]") then
      Throw (ErrorObj (trim (slice 7 content))) (fst x)
    else Ok x
  else Ok x.

(** The body of [for (const event of events)] (lines 135-153). *)
Definition onEvent (aid : str) (x : State * Locals) (event : str)
  : outcome (State * Locals) :=
  forOf (onLine aid) (split event nl) x.

(** Lines 128-154 once the read is decoded: append to the buffer, split
    on the blank line, keep the last piece, handle the others. *)
Definition onText (aid : str) (x : State * Locals) (text : str)
  : outcome (State * Locals) :=
  let '(s, l) := x in
  let buffer1 := buffer l ++ text in
  let events := split buffer1 nlnl in
  let '(events', last) := pop events in
  let l' := {| decoder := decoder l; assistantContent := assistantContent l;
               buffer := orEmpty last |} in
  forOf (onEvent aid) events' (s, l').

(** One iteration of [while (true)] on a read that is not [done]. *)
Definition onRead (aid : str) (x : State * Locals) (value : list byte)
  : outcome (State * Locals) :=
  let '(s, l) := x in
  let '(d, text) := TextDecoder.decode (decoder l) value in
  onText aid
    (s, {| decoder := d; assistantContent := assistantContent l;
           buffer := buffer l |}) text.

(** The body stream as the reader delivers it: the chunks read, then
    either [done] ([None]) or a rejected read. *)
Record Stream := {
  chunks : list (list byte);
  failure : option thrown
}.

(** Lines 124-155. *)
Definition readLoop (aid : str) (body : Stream) (x : State * Locals)
  : outcome (State * Locals) :=
  andThen (forOf (onRead aid) (chunks body) x)
    (fun x' =>
       match failure body with
       | None => Ok x'
       | Some e => Throw e (fst x')
       end).

(** The body of the second [for (const line of lines)] (lines 161-173);
    it has no [throw]. *)
Definition onRemainingLine (aid : str) (x : State * Locals) (line : str)
  : State * Locals :=
  if startsWith line (lit "data: ") then
    let content := slice 6 line in
    if truthy content && negb (startsWith content (lit "[ERROR]")) then
      appendContent aid content x
    else x
  else x.

(** Lines 157-175: [if (buffer) { ... }]. *)
Definition processRemaining (aid : str) (x : State * Locals)
  : State * Locals :=
  if truthy (buffer (snd x))
  then fold_left (onRemainingLine aid) (split (buffer (snd x)) nl) x
  else x.

(** *** [handleSendMessage] *)

(** What the caller's environment decides: whether [sendChatMessage]
    rejects, the [X-Conversation-Id] header and the response body. *)
Inductive Reply :=
| RequestFails (e : thrown)
| Response (newConversationId : option str) (body : option Stream).

(** The values of [Date.now()] and [new Date().toISOString()] at the two
    places they are called. *)
Record Clock := {
  userNow : N;
  userTime : str;
  assistantNow : N;
  assistantTime : str
}.

Definition userMessage (content : str) (clock : Clock) : Message :=
  {| id := lit "user-" ++ numToString (userNow clock);
     role := user;
     content := content;
     timestamp := userTime clock;
     isStreaming := None |}.

Definition assistantMessageId (clock : Clock) : str :=
  lit "assistant-" ++ numToString (assistantNow clock).

Definition assistantMessage (clock : Clock) : Message :=
  {| id := assistantMessageId clock;
     role := assistant;
     content := [];
     timestamp := assistantTime clock;
     isStreaming := Some true |}.

(** Line 75: [!content.trim() || isLoading]. *)
Definition refused (s : State) (content : str) : bool :=
  negb (truthy (trim content)) || isLoading s.

(** Lines 77-100, up to the first [await]. *)
Definition start (content : str) (clock : Clock) (s : State) : State :=
  let s := setError None s in
  let s := setMessages (fun prev => prev ++ [userMessage content clock]) s in
  let s := setMessages (fun prev => prev ++ [assistantMessage clock]) s in
  setIsLoading true s.

(** Lines 109-112; [conversationId] is the value the closure captured. *)
Definition adoptConversation (conversationId newConversationId : option str)
    (s : State) : State :=
  match newConversationId with
  | Some c =>
      if truthy c && negb (truthyOpt conversationId)
      then routerPush (lit "/chat?conversation=" ++ c)
             (setConversationId (Some c) s)
      else s
  | None => s
  end.

(** Lines 102-184, the [try] block. *)
Definition tryBlock (aid : str) (conversationId : option str)
    (reply : Reply) (s : State) : outcome State :=
  match reply with
  | RequestFails e => Throw e s
  | Response newConversationId body =>
      let s1 := adoptConversation conversationId newConversationId s in
      match body with
      | None => Throw (ErrorObj (lit "No response body")) s1
      | Some stream =>
          match readLoop aid stream (s1, locals0) with
          | Throw e s2 => Throw e s2
          | Ok x =>
              Ok (setMessages (markComplete aid)
                    (fst (processRemaining aid x)))
          end
      end
  end.

(** Lines 185-189, the [catch] block. *)
Definition catchBlock (aid : str) (err : thrown) (s : State) : State :=
  let message :=
    match err with
    | ErrorObj m => m
    | OtherValue => lit "Failed to send message"
    end in
  setMessages (removeAssistant aid) (setError (Some message) s).

(** [handleSendMessage(content)], run to completion. *)
Definition handleSendMessage (s : State) (content : str) (clock : Clock)
    (reply : Reply) : State :=
  if refused s content then s
  else
    let aid := assistantMessageId clock in
    let s1 := start content clock s in
    let s2 :=
      match tryBlock aid (conversationId s) reply s1 with
      | Ok s' => s'
      | Throw e s' => catchBlock aid e s'
      end in
    setIsLoading false s2.

(** *** The other writers of the component state *)

(** Lines 35-41, the effect on the URL: [searchParams.get("conversation")]. *)
Definition urlConversation (urlConversationId : option str) (s : State) : State :=
  if truthyOpt urlConversationId then setConversationId urlConversationId s
  else s.

(** Lines 57-67 of [loadConversationHistory], when [getChatHistory]
    resolves with or without a [messages] array. *)
Definition historyLoaded (history : option (list Message)) (s : State) : State :=
  match history with
  | Some msgs =>
      setMessages
        (fun _ =>
           map (fun msg =>
                  {| id := id msg; role := role msg; content := content msg;
                     timestamp := timestamp msg; isStreaming := None |}) msgs)
        s
  | None => s
  end.

(** Lines 68-71 of [loadConversationHistory], when [getChatHistory]
    rejects. *)
Definition historyFailed (s : State) : State :=
  setError (Some (lit "Failed to load conversation history")) s.

(** *** [MessageInput.handleSend] *)

(** The content handed to [onSendMessage], if any, and the new value of
    the [input] state. *)
Definition handleSend (input : str) (isLoading : bool) : option str * str :=
  let trimmed := trim input in
  if truthy trimmed && negb isLoading then (Some trimmed, []) else (None, input).

(** *** The component between awaits

    [handleSendMessage] is asynchronous: other handlers may run at each
    [await].  A [Turn] is a call that passed the guard of line 75 and has
    not yet reached its [finally].

    A handler is a closure of the render that created it.  The guard of
    line 75 reads the [isLoading] of that render, line 104 its
    [conversationId], and [MessageInput.handleSend] its [input] and the
    [isLoading] it was given as a property; a state setter changes the
    state the next render will show, and a functional update of
    [setMessages] is applied to the latest list.  [rendered] and
    [renderedInput] are what the latest render showed, [Render] is React
    rendering the components again, and a submission goes to the handlers
    of the latest render.  The input box is taken to accept text at any
    time, also while it is disabled. *)

Inductive Phase :=
| Requesting
| Reading (l : Locals).

Record Turn := {
  turnAssistantId : str;
  turnConversationId : option str;
  phase : Phase
}.

Record World := {
  ui : State;
  input : str;
  inFlight : list Turn;
  rendered : State;
  renderedInput : str
}.

(** The component after its first render. *)
Definition world0 : World :=
  {| ui := initial; input := []; inFlight := [];
     rendered := initial; renderedInput := [] |}.

Inductive Event :=
| Typed (text : str)
| Render
| Submitted (clock : Clock)
| Called (content : str) (clock : Clock)
| Replied (i : nat) (newConversationId : option str) (hasBody : bool)
| ReadChunk (i : nat) (value : list byte)
| ReadDone (i : nat)
| Rejected (i : nat) (e : thrown)
| UrlChanged (urlConversationId : option str)
| HistoryLoaded (history : option (list Message))
| HistoryFailed.

Fixpoint replaceAt {A} (i : nat) (x : A) (l : list A) : list A :=
  match l, i with
  | [], _ => []
  | _ :: l', O => x :: l'
  | y :: l', S j => y :: replaceAt j x l'
  end.

Fixpoint removeAt {A} (i : nat) (l : list A) : list A :=
  match l, i with
  | [], _ => []
  | _ :: l', O => l'
  | y :: l', S j => y :: removeAt j l'
  end.

(** A call of the [handleSendMessage] of the latest render, up to its
    first [await]. *)
Definition call (content : str) (clock : Clock) (w : World) : World :=
  if refused (rendered w) content then w
  else
    {| ui := start content clock (ui w);
       input := input w;
       inFlight := inFlight w ++
         [{| turnAssistantId := assistantMessageId clock;
             turnConversationId := conversationId (rendered w);
             phase := Requesting |}];
       rendered := rendered w;
       renderedInput := renderedInput w |}.

(** The turn leaves through [catch] and [finally]. *)
Definition failTurn (i : nat) (t : Turn) (e : thrown) (s : State) (w : World)
  : World :=
  {| ui := setIsLoading false (catchBlock (turnAssistantId t) e s);
     input := input w;
     inFlight := removeAt i (inFlight w);
     rendered := rendered w;
     renderedInput := renderedInput w |}.

Definition continueTurn (i : nat) (t : Turn) (p : Phase) (s : State)
    (w : World) : World :=
  {| ui := s;
     input := input w;
     inFlight :=
       replaceAt i
         {| turnAssistantId := turnAssistantId t;
            turnConversationId := turnConversationId t;
            phase := p |} (inFlight w);
     rendered := rendered w;
     renderedInput := renderedInput w |}.

Definition step (w : World) (ev : Event) : World :=
  match ev with
  | Typed text =>
      {| ui := ui w; input := text; inFlight := inFlight w;
         rendered := rendered w; renderedInput := renderedInput w |}
  | Render =>
      {| ui := ui w; input := input w; inFlight := inFlight w;
         rendered := ui w; renderedInput := input w |}
  | Submitted clock =>
      match handleSend (renderedInput w) (isLoading (rendered w)) with
      | (Some content, input') =>
          call content clock
            {| ui := ui w; input := input'; inFlight := inFlight w;
               rendered := rendered w; renderedInput := renderedInput w |}
      | (None, _) => w
      end
  | Called content clock => call content clock w
  | Replied i newConversationId hasBody =>
      match nth_error (inFlight w) i with
      | Some t =>
          match phase t with
          | Requesting =>
              let s1 := adoptConversation (turnConversationId t)
                          newConversationId (ui w) in
              if hasBody then continueTurn i t (Reading locals0) s1 w
              else failTurn i t (ErrorObj (lit "No response body")) s1 w
          | Reading _ => w
          end
      | None => w
      end
  | ReadChunk i value =>
      match nth_error (inFlight w) i with
      | Some t =>
          match phase t with
          | Reading l =>
              match onRead (turnAssistantId t) (ui w, l) value with
              | Ok (s, l') => continueTurn i t (Reading l') s w
              | Throw e s => failTurn i t e s w
              end
          | Requesting => w
          end
      | None => w
      end
  | ReadDone i =>
      match nth_error (inFlight w) i with
      | Some t =>
          match phase t with
          | Reading l =>
              let s := fst (processRemaining (turnAssistantId t) (ui w, l)) in
              {| ui := setIsLoading false
                         (setMessages (markComplete (turnAssistantId t)) s);
                 input := input w;
                 inFlight := removeAt i (inFlight w);
                 rendered := rendered w;
                 renderedInput := renderedInput w |}
          | Requesting => w
          end
      | None => w
      end
  | Rejected i e =>
      match nth_error (inFlight w) i with
      | Some t => failTurn i t e (ui w) w
      | None => w
      end
  | UrlChanged c =>
      {| ui := urlConversation c (ui w); input := input w;
         inFlight := inFlight w;
         rendered := rendered w; renderedInput := renderedInput w |}
  | HistoryLoaded history =>
      {| ui := historyLoaded history (ui w); input := input w;
         inFlight := inFlight w;
         rendered := rendered w; renderedInput := renderedInput w |}
  | HistoryFailed =>
      {| ui := historyFailed (ui w); input := input w;
         inFlight := inFlight w;
         rendered := rendered w; renderedInput := renderedInput w |}
  end.

Definition run (w : World) (evs : list Event) : World := fold_left step evs w.

(** The events through which one call of [handleSendMessage] with the
    given reply goes, as turn number [i]. *)
Definition eventsOf (i : nat) (reply : Reply) : list Event :=
  match reply with
  | RequestFails e => [Rejected i e]
  | Response newConversationId None => [Replied i newConversationId false]
  | Response newConversationId (Some body) =>
      Replied i newConversationId true
        :: map (ReadChunk i) (chunks body)
        ++ match failure body with
           | None => [ReadDone i]
           | Some e => [Rejected i e]
           end
  end.

End Chat.

(** ** [DocumentUpload.tsx] *)

Module Upload.

(** A [File]: its name and its bytes. *)
Record File := { name : str; data : list byte }.

Record State := {
  file : option File;
  uploading : bool;
  progress : N;
  error : str
}.

Definition initial : State :=
  {| file := None; uploading := false; progress := 0; error := [] |}.

Definition setFile (f : option File) (s : State) : State :=
  {| file := f; uploading := uploading s; progress := progress s;
     error := error s |}.

Definition setUploading (b : bool) (s : State) : State :=
  {| file := file s; uploading := b; progress := progress s;
     error := error s |}.

Definition setProgress (p : N) (s : State) : State :=
  {| file := file s; uploading := uploading s; progress := p;
     error := error s |}.

Definition setError (e : str) (s : State) : State :=
  {| file := file s; uploading := uploading s; progress := progress s;
     error := e |}.

Definition allowedTypes : list str :=
  [lit ".pdf"; lit ".txt"; lit ".md"; lit ".docx"].

Definition unsupported : str :=
  lit "Unsupported file type. Allowed types: " ++ join allowedTypes (lit ", ").

(** How [uploadDocument] settles. *)
Inductive Settlement :=
| Resolved
| RejectedWith (e : Chat.thrown).

Inductive Event :=
| FileChanged (selected : option File)
| Dropped (dropped : option File)
| Cleared
| UploadClicked
| Progressed (value : N)
| Settled (r : Settlement).

(** The component state and the files handed to [uploadDocument] so far. *)
Record World := { ui : State; requests : list File }.

Definition world0 : World := {| ui := initial; requests := [] |}.

(** [String.prototype.toLowerCase] follows the Unicode case tables, which
    are not reproduced here: the component is modelled for any function
    in its place. *)
Section WithToLowerCase.

Variable toLowerCase : str -> str.

(** Line 32. *)
Definition fileExtension (selectedFile : File) : str :=
  toLowerCase
    (substring (lastIndexOf (name selectedFile) (lit ".")) (name selectedFile)).

(** Lines 28-41. *)
Definition validateAndSetFile (s : State) (selectedFile : option File)
  : State :=
  match selectedFile with
  | None => s
  | Some f =>
      if negb (includes allowedTypes (fileExtension f))
      then setError unsupported s
      else setError [] (setFile (Some f) s)
  end.

(** Lines 21-26: [e.target.files?.[0]]. *)
Definition handleFileChange (s : State) (selectedFile : option File)
  : State :=
  match selectedFile with
  | Some f => validateAndSetFile s (Some f)
  | None => s
  end.

(** Lines 43-49: [e.dataTransfer.files[0]]. *)
Definition handleDrop (s : State) (droppedFile : option File) : State :=
  match droppedFile with
  | Some f => validateAndSetFile s (Some f)
  | None => s
  end.

(** Lines 79-85. *)
Definition clearFile (s : State) : State := setError [] (setFile None s).

(** Lines 55-63 of [handleUpload]: the state before the [await], and the
    file given to [uploadDocument]. *)
Definition uploadStart (s : State) : State * option File :=
  match file s with
  | None => (s, None)
  | Some f => (setError [] (setProgress 0 (setUploading true s)), Some f)
  end.

(** Lines 65-76 of [handleUpload], after the [await]. *)
Definition uploadSettle (r : Settlement) (s : State) : State :=
  let s' :=
    match r with
    | Resolved => setProgress 0 (setFile None s)
    | RejectedWith (Chat.ErrorObj m) => setError m s
    | RejectedWith Chat.OtherValue =>
        setError (lit "Upload failed. Please try again.") s
    end in
  setUploading false s'.

(** [handleUpload], run to completion with the progress values its
    callback receives. *)
Definition handleUpload (s : State) (progressValues : list N)
    (r : Settlement) : State * option File :=
  match uploadStart s with
  | (s1, Some f) =>
      (uploadSettle r (fold_left (fun s p => setProgress p s) progressValues s1),
       Some f)
  | (_, None) => (s, None)
  end.

Definition step (w : World) (ev : Event) : World :=
  match ev with
  | FileChanged f => {| ui := handleFileChange (ui w) f; requests := requests w |}
  | Dropped f => {| ui := handleDrop (ui w) f; requests := requests w |}
  | Cleared => {| ui := clearFile (ui w); requests := requests w |}
  | UploadClicked =>
      match uploadStart (ui w) with
      | (s, Some f) => {| ui := s; requests := requests w ++ [f] |}
      | (s, None) => {| ui := s; requests := requests w |}
      end
  | Progressed p => {| ui := setProgress p (ui w); requests := requests w |}
  | Settled r => {| ui := uploadSettle r (ui w); requests := requests w |}
  end.

Definition run (w : World) (evs : list Event) : World := fold_left step evs w.

End WithToLowerCase.

(** Lower-casing of the ASCII letters, every other code unit kept. *)
Definition asciiToLowerCase (s : str) : str :=
  map (fun c => if (65 <=? c) && (c <=? 90) then c + 32 else c) s.

(** The part of a file name from its last dot on, if it has a dot. *)
Fixpoint extension (name : str) : option str :=
  match name with
  | [] => None
  | c :: rest =>
      match extension rest with
      | Some e => Some e
      | None => if c =? 46 then Some name else None
      end
  end.

(** A file name whose extension, lower-cased, is one of the allowed types;
    a name without a dot has no extension. *)
Definition hasAllowedExtension (toLowerCase : str -> str) (name : str) : bool :=
  match extension name with
  | Some e => includes allowedTypes (toLowerCase e)
  | None => false
  end.

(** What the component holds and has asked to upload passed the test. *)
Definition validated (toLowerCase : str -> str) (w : World) : Prop :=
  (forall f, file (ui w) = Some f ->
             hasAllowedExtension toLowerCase (name f) = true)
  /\ (forall f, In f (requests w) ->
                hasAllowedExtension toLowerCase (name f) = true).

End Upload.

(** ** Vocabulary of the wire format and of the receiver's effect

  Nothing below is code of the component: these are the notions the
  properties are stated with. *)

Module Wire.

Import Chat.

(** A frame on the wire: the tag, the payload, a blank line. *)
Definition frame (payload : str) : str := lit "data: " ++ payload ++ nlnl.

(** A text without line feed. *)
Definition singleLine (p : str) : bool := forallb (fun c => negb (c =? LF)) p.

(** A payload that carries the error sentinel. *)
Definition isError (payload : str) : bool := startsWith payload (lit "[ERROR]").

(** A single-line payload that is not an error. *)
Definition dataPayload (p : str) : bool := singleLine p && negb (isError p).

(** A line that makes the loop throw: a tagged line whose text carries the
    sentinel. *)
Definition lineThrows (line : str) : bool :=
  startsWith line (lit "data: ") && isError (slice 6 line).

(** An event with a line that throws. *)
Definition eventThrows (event : str) : bool :=
  existsb lineThrows (split event nl).

(** The message of the error thrown on a line that throws. *)
Definition errorOf (line : str) : str := trim (slice 7 (slice 6 line)).

(** What a line that does not throw adds to the content. *)
Definition dataOf (line : str) : str :=
  if startsWith line (lit "data: ") && negb (isError (slice 6 line))
  then slice 6 line
  else [].

(** What the lines of a piece of text add to the content. *)
Definition dataOfLines (text : str) : str :=
  List.concat (map dataOf (split text nl)).

(** The complete events of a text and the piece after the last blank
    line. *)
Definition completeEvents (text : str) : list str := removelast (split text nlnl).
Definition trailing (text : str) : str := last (split text nlnl) [].

(** The text the decoder gives for all the bytes of a body stream. *)
Definition decoded (reads : list (list byte)) : str :=
  snd (TextDecoder.decode TextDecoder.create (List.concat reads)).

(** The bytes of an ASCII text, and the line feed byte. *)
Definition bytes (s : string) : list byte := list_byte_of_string s.
Definition LFb : byte := x0a.

(** A clock and a first call, for concrete runs. *)
Definition clock0 : Clock :=
  {| userNow := 1700000000000; userTime := lit "2023-11-14T22:13:20.000Z";
     assistantNow := 1700000000001;
     assistantTime := lit "2023-11-14T22:13:20.001Z" |}.
Definition aid0 : str := assistantMessageId clock0.
Definition started0 : State := start (lit "hi") clock0 initial.

(** The content an outcome has accumulated, if the loop did not throw. *)
Definition contentOf (r : outcome (State * Locals)) : option str :=
  match r with
  | Ok x => Some (assistantContent (snd x))
  | Throw _ _ => None
  end.

(** A line of a multi-line event: not empty, no line feed. *)
Definition properLine (l : str) : bool := singleLine l && truthy l.

Definition mapOk {A B} (f : A -> B) (r : outcome A) : outcome B :=
  match r with
  | Ok a => Ok (f a)
  | Throw e s => Throw e s
  end.

(** The React state an outcome leaves. *)
Definition stateOf (r : outcome (State * Locals)) : State :=
  match r with
  | Ok x => fst x
  | Throw _ s => s
  end.

(** The same React state and accumulated content, with another decoder
    state and buffer. *)
Definition reframe (d : TextDecoder.t) (b : str) (x : State * Locals)
  : State * Locals :=
  (fst x,
   {| decoder := d; assistantContent := assistantContent (snd x);
      buffer := b |}).

(** The effect of appending [data] piece by piece: the content grows by
    [data], and the draft shows the grown content if anything arrived. *)
Definition absorb (aid data : str) (x : State * Locals) : State * Locals :=
  (if truthy data
   then setMessages (streamingUpdate aid (assistantContent (snd x) ++ data)) (fst x)
   else fst x,
   {| decoder := decoder (snd x);
      assistantContent := assistantContent (snd x) ++ data;
      buffer := buffer (snd x) |}).

(** An outcome reached from [x] by streaming some data and nothing
    else. *)
Definition streams (aid : str) (x : State * Locals)
    (r : outcome (State * Locals)) : Prop :=
  exists data,
    match r with
    | Ok x' => x' = absorb aid data x
    | Throw _ s => s = fst (absorb aid data x)
    end.





(** A second clock, five milliseconds after [clock0]. *)
Definition clock1 : Clock :=
  {| userNow := 1700000000005; userTime := lit "2023-11-14T22:13:20.005Z";
     assistantNow := 1700000000005;
     assistantTime := lit "2023-11-14T22:13:20.005Z" |}.

(** The turn [t] in its reading phase. *)
Definition reading (t : Turn) (l : Locals) : Turn :=
  {| turnAssistantId := turnAssistantId t;
     turnConversationId := turnConversationId t;
     phase := Reading l |}.

(** The assistant draft with the given content and flag. *)
Definition draft (clock : Clock) (content : str) (streaming : bool) : Message :=
  {| id := assistantMessageId clock; role := assistant; content := content;
     timestamp := assistantTime clock; isStreaming := Some streaming |}.

End Wire.

Import Wire.

(** ** The rest of [MessageInput.tsx] *)

Module MessageInput.

Import Chat.

(** Lines 24-29, [handleKeyDown]: whether [preventDefault] is called, what
    [onSendMessage] receives, and the new value of [input]. *)
Definition handleKeyDown (key : str) (shiftKey : bool) (input : str)
    (isLoading : bool) : bool * option str * str :=
  if eqb key (lit "Enter") && negb shiftKey
  then let '(sent, input') := handleSend input isLoading in (true, sent, input')
  else (false, None, input).

(** Line 42: [disabled={isLoading || !input.trim()}] of the send button. *)
Definition sendDisabled (input : str) (isLoading : bool) : bool :=
  isLoading || negb (truthy (trim input)).

End MessageInput.

(** ** [lib/api.ts] *)

Module Api.

Import Chat.

(** A JavaScript value as far as the client looks at it: whether it is
    truthy, and the string [String(v)]. *)
Inductive value :=
| Undefined
| Null
| Str (s : str)
| Other (truthy : bool) (text : str).

Definition isTruthy (v : value) : bool :=
  match v with
  | Undefined | Null => false
  | Str s => truthy s
  | Other t _ => t
  end.

Definition toString (v : value) : str :=
  match v with
  | Undefined => lit "undefined"
  | Null => lit "null"
  | Str s => s
  | Other _ text => text
  end.

(** The message of [new Error(v || fallback)]. *)
Definition orElse (v : value) (fallback : str) : str :=
  if isTruthy v then toString v else fallback.

(** [localStorage]: keys and their values. *)
Definition Storage := list (str * str).

Fixpoint getItem (st : Storage) (key : str) : option str :=
  match st with
  | [] => None
  | (k, v) :: rest => if eqb k key then Some v else getItem rest key
  end.

Definition removeItem (st : Storage) (key : str) : Storage :=
  filter (fun kv => negb (eqb (fst kv) key)) st.

Definition setItem (st : Storage) (key value : str) : Storage :=
  (key, value) :: removeItem st key.

(** The browser's [window], absent when the code runs on the server
    ([typeof window === "undefined"]). *)
Definition Window := option Storage.

Definition tokenKey : str := lit "auth_token".

(** Lines 38-41. *)
Definition getToken (w : Window) : option str :=
  match w with
  | None => None
  | Some st => getItem st tokenKey
  end.

(** Lines 46-49. *)
Definition setToken (token : str) (w : Window) : Window :=
  match w with
  | None => None
  | Some st => Some (setItem st tokenKey token)
  end.

(** Lines 54-57. *)
Definition removeToken (w : Window) : Window :=
  match w with
  | None => None
  | Some st => Some (removeItem st tokenKey)
  end.

(** Lines 164-166: [getToken() !== null]. *)
Definition isAuthenticated (w : Window) : bool :=
  match getToken w with
  | Some _ => true
  | None => false
  end.

(** A request handed to [fetch]: its URL, its method, its [Authorization]
    header and the named parts of its body ([null] is [None]). *)
Record Request := {
  url : str;
  method : str;
  authorization : option str;
  fields : list (str * option str)
}.

(** What [await response.json()] gives on a response that is not [ok],
    as the error paths use it: the promise rejects; or the value is [null],
    so that reading [error.detail] throws a [TypeError] with some message;
    or the value has a [detail] (possibly [undefined]). *)
Inductive ErrorBody :=
| BodyRejects (e : thrown)
| BodyNull (typeError : str)
| BodyDetail (detail : value).

(** What [await response.json()] gives on an [ok] response. *)
Inductive Parsed (T : Type) :=
| ParseRejects (e : thrown)
| ParsedAs (v : T).
Arguments ParseRejects {T} e.
Arguments ParsedAs {T} v.

(** How a [fetch] ends. *)
Inductive Fetched (T : Type) :=
| FetchRejects (e : thrown)
| NotOk (status : N) (b : ErrorBody)
| IsOk (payload : T).
Arguments FetchRejects {T} e.
Arguments NotOk {T} status b.
Arguments IsOk {T} payload.

(** How an [async] function of the client ends. *)
Inductive result (T : Type) :=
| Returns (v : T)
| Throws (e : thrown).
Arguments Returns {T} v.
Arguments Throws {T} e.

(** [const error = await response.json(); throw new Error(error.detail || fallback)]. *)
Definition failWith (b : ErrorBody) (fallback : str) : thrown :=
  match b with
  | BodyRejects e => e
  | BodyNull typeError => ErrorObj typeError
  | BodyDetail d => ErrorObj (orElse d fallback)
  end.

Record User := {
  user_id : str;
  username : str;
  email : str;
  created_at : str
}.

Record AuthResponse := {
  access_token : str;
  token_type : str;
  user : option User
}.

(** [interface ChatHistoryResponse], the part the client reads. *)
Record ChatHistoryResponse := {
  history_messages : option (list Message)
}.

Record Document := {
  doc_id : str;
  filename : str;
  file_type : str;
  file_size : option N;
  chunk_count : option N;
  uploaded_at : str
}.

(** Line 5: [process.env.NEXT_PUBLIC_API_URL || "http://localhost:8000"]. *)
Definition apiBaseUrl (NEXT_PUBLIC_API_URL : option str) : str :=
  if truthyOpt NEXT_PUBLIC_API_URL
  then orEmpty NEXT_PUBLIC_API_URL
  else lit "http://localhost:8000".

(** *** Header values

    [Headers.set] and [XMLHttpRequest.setRequestHeader] convert the value to
    a [ByteString], which throws a [TypeError] on a code unit above 255,
    remove the HTTP white space (tab, line feed, carriage return, space)
    at both ends, and throw when what is left holds a NUL, a line feed or
    a carriage return. *)

Definition httpWhitespace (c : N) : bool :=
  (c =? 9) || (c =? 10) || (c =? 13) || (c =? 32).

Fixpoint dropLeading (s : str) : str :=
  match s with
  | [] => []
  | c :: rest => if httpWhitespace c then dropLeading rest else s
  end.

(** The normalization of a header value. *)
Definition normalize (v : str) : str :=
  rev (dropLeading (rev (dropLeading v))).

(** A value that is taken as a header value. *)
Definition headerValue (v : str) : bool :=
  forallb (fun c => c <=? 255) v
  && forallb (fun c => negb ((c =? 0) || (c =? 10) || (c =? 13)))
       (normalize v).

(** [`Bearer ${token}`]. *)
Definition bearer (token : str) : str := lit "Bearer " ++ token.

(** The stored token does not stop [authenticatedFetch]: there is none, it
    is empty (no header is set), or its header value is taken. *)
Definition sendable (w : Window) : bool :=
  match getToken w with
  | Some token => if truthy token then headerValue (bearer token) else true
  | None => true
  end.

(** The [Authorization] header that goes out for the stored token. *)
Definition authorizationOf (w : Window) : option str :=
  match getToken w with
  | Some token => if truthy token then Some (normalize (bearer token)) else None
  | None => None
  end.

Section WithBase.

Variable API_BASE_URL : str.

(** The messages of the exceptions that [Headers.set] and
    [setRequestHeader] throw for a value they do not take; the texts are
    the browser's. *)
Variable headersError : str -> str.
Variable requestHeaderError : str -> str.

(** Lines 62-77, [authenticatedFetch]: the request it hands to [fetch],
    unless [headers.set] throws. *)
Definition authenticatedFetch (w : Window) (endpoint method : str)
  : result Request :=
  match getToken w with
  | Some token =>
      if truthy token then
        if headerValue (bearer token)
        then Returns {| url := API_BASE_URL ++ endpoint;
                        method := method;
                        authorization := Some (normalize (bearer token));
                        fields := [] |}
        else Throws (ErrorObj (headersError (bearer token)))
      else Returns {| url := API_BASE_URL ++ endpoint; method := method;
                      authorization := None; fields := [] |}
  | None => Returns {| url := API_BASE_URL ++ endpoint; method := method;
                       authorization := None; fields := [] |}
  end.

(** Lines 83-104, [register]. *)
Definition register (w : Window) (username email password : str)
    (f : Fetched (Parsed AuthResponse))
  : Window * list Request * result AuthResponse :=
  let request :=
    {| url := API_BASE_URL ++ lit "/api/auth/register"; method := lit "POST";
       authorization := None;
       fields := [(lit "username", Some username); (lit "email", Some email);
                  (lit "password", Some password)] |} in
  match f with
  | FetchRejects e => (w, [request], Throws e)
  | NotOk _ b => (w, [request], Throws (failWith b (lit "Registration failed")))
  | IsOk (ParseRejects e) => (w, [request], Throws e)
  | IsOk (ParsedAs r) =>
      (if truthy (access_token r) then setToken (access_token r) w else w,
       [request], Returns r)
  end.

(** Lines 109-129, [login]. *)
Definition login (w : Window) (username password : str)
    (f : Fetched (Parsed AuthResponse))
  : Window * list Request * result AuthResponse :=
  let request :=
    {| url := API_BASE_URL ++ lit "/api/auth/login"; method := lit "POST";
       authorization := None;
       fields := [(lit "username", Some username);
                  (lit "password", Some password)] |} in
  match f with
  | FetchRejects e => (w, [request], Throws e)
  | NotOk _ b => (w, [request], Throws (failWith b (lit "Login failed")))
  | IsOk (ParseRejects e) => (w, [request], Throws e)
  | IsOk (ParsedAs r) =>
      (if truthy (access_token r) then setToken (access_token r) w else w,
       [request], Returns r)
  end.

(** Lines 134-142, [logout]: the response is not looked at, and the
    [finally] removes the token in every case. *)
Definition logout (w : Window) (f : Fetched unit)
  : Window * list Request * result unit :=
  match authenticatedFetch w (lit "/api/auth/logout") (lit "POST") with
  | Throws e => (removeToken w, [], Throws e)
  | Returns request =>
      (removeToken w, [request],
       match f with
       | FetchRejects e => Throws e
       | NotOk _ _ | IsOk _ => Returns tt
       end)
  end.

(** Lines 147-159, [getCurrentUser]. *)
Definition getCurrentUser (w : Window) (f : Fetched (Parsed User))
  : Window * list Request * result User :=
  match authenticatedFetch w (lit "/api/auth/me") (lit "GET") with
  | Throws e => (w, [], Throws e)
  | Returns request =>
      match f with
      | FetchRejects e => (w, [request], Throws e)
      | NotOk status b =>
          if status =? 401
          then (removeToken w, [request], Throws (ErrorObj (lit "Unauthorized")))
          else (w, [request], Throws (failWith b (lit "Failed to get user")))
      | IsOk (ParseRejects e) => (w, [request], Throws e)
      | IsOk (ParsedAs u) => (w, [request], Returns u)
      end
  end.

(** Lines 201-230, [sendChatMessage]: the requests made and what
    [handleSendMessage] gets. *)
Definition sendChatMessage (w : Window) (message : str)
    (conversationId : option str) (f : Fetched (option str * option Stream))
  : list Request * Reply :=
  match getToken w with
  | Some token =>
      if truthy token then
        let request :=
          {| url := API_BASE_URL ++ lit "/api/chat/"; method := lit "POST";
             authorization := Some (lit "Bearer " ++ token);
             fields := [(lit "message", Some message);
                        (lit "conversation_id",
                         if truthyOpt conversationId then conversationId
                         else None)] |} in
        ([request],
         match f with
         | FetchRejects e => RequestFails e
         | NotOk _ (BodyRejects _) =>
             RequestFails (ErrorObj (lit "Chat request failed"))
         | NotOk _ (BodyNull typeError) => RequestFails (ErrorObj typeError)
         | NotOk _ (BodyDetail d) =>
             RequestFails (ErrorObj (orElse d (lit "Chat request failed")))
         | IsOk (responseConversationId, body) =>
             Response responseConversationId body
         end)
      else ([], RequestFails (ErrorObj (lit "Not authenticated")))
  | None => ([], RequestFails (ErrorObj (lit "Not authenticated")))
  end.

(** Lines 235-250, [getChatHistory]: the URL is built with the base and
    handed to [authenticatedFetch], which puts the base in front of its
    endpoint. *)
Definition getChatHistory (w : Window) (conversationId : option str)
    (f : Fetched (Parsed ChatHistoryResponse))
  : list Request * result ChatHistoryResponse :=
  let url :=
    match conversationId with
    | Some c =>
        if truthy c
        then API_BASE_URL ++ lit "/api/chat/history?conversation_id=" ++ c
        else API_BASE_URL ++ lit "/api/chat/history"
    | None => API_BASE_URL ++ lit "/api/chat/history"
    end in
  match authenticatedFetch w url (lit "GET") with
  | Throws e => ([], Throws e)
  | Returns request =>
      ([request],
       match f with
       | FetchRejects e => Throws e
       | NotOk _ b => Throws (failWith b (lit "Failed to get chat history"))
       | IsOk (ParseRejects e) => Throws e
       | IsOk (ParsedAs h) => Returns h
       end)
  end.

(** Lines 255-264, [deleteConversation]. *)
Definition deleteConversation (w : Window) (conversationId : str)
    (f : Fetched unit) : list Request * result unit :=
  match authenticatedFetch w (lit "/api/chat/conversation/" ++ conversationId)
          (lit "DELETE") with
  | Throws e => ([], Throws e)
  | Returns request =>
      ([request],
       match f with
       | FetchRejects e => Throws e
       | NotOk _ b => Throws (failWith b (lit "Failed to delete conversation"))
       | IsOk _ => Returns tt
       end)
  end.

(** Lines 344-353, [getDocuments]. *)
Definition getDocuments (w : Window) (f : Fetched (Parsed (list Document)))
  : list Request * result (list Document) :=
  match authenticatedFetch w (lit "/api/documents/") (lit "GET") with
  | Throws e => ([], Throws e)
  | Returns request =>
      ([request],
       match f with
       | FetchRejects e => Throws e
       | NotOk _ b => Throws (failWith b (lit "Failed to get documents"))
       | IsOk (ParseRejects e) => Throws e
       | IsOk (ParsedAs ds) => Returns ds
       end)
  end.

(** Lines 358-367, [deleteDocument]. *)
Definition deleteDocument (w : Window) (documentId : str) (f : Fetched unit)
  : list Request * result unit :=
  match authenticatedFetch w (lit "/api/documents/" ++ documentId)
          (lit "DELETE") with
  | Throws e => ([], Throws e)
  | Returns request =>
      ([request],
       match f with
       | FetchRejects e => Throws e
       | NotOk _ b => Throws (failWith b (lit "Failed to delete document"))
       | IsOk _ => Returns tt
       end)
  end.

(** What [JSON.parse(xhr.responseText)] gives. *)
Inductive ParsedText :=
| Unparsable
| TextNull
| TextDetail (detail : value).

(** How the [XMLHttpRequest] of [uploadDocument] ends. *)
Inductive Xhr :=
| XhrError
| XhrLoad (status : N) (statusText : str) (parsed : ParsedText).

(** The request [xhr.send] makes. *)
Record UploadRequest := {
  upload_url : str;
  upload_authorization : str;
  upload_file : Upload.File
}.

(** Lines 291-339, [uploadDocument]: the request sent, if any, and how the
    promise settles.  When [setRequestHeader] throws in the executor, the
    promise rejects with what it throws and [send] is not reached. *)
Definition uploadDocument (w : Window) (file : Upload.File) (x : Xhr)
  : option UploadRequest * Upload.Settlement :=
  match getToken w with
  | Some token =>
      if truthy token then
        if negb (headerValue (bearer token))
        then (None,
              Upload.RejectedWith (ErrorObj (requestHeaderError (bearer token))))
        else
        (Some {| upload_url := API_BASE_URL ++ lit "/api/documents/upload";
                 upload_authorization := normalize (bearer token);
                 upload_file := file |},
         match x with
         | XhrError =>
             Upload.RejectedWith
               (ErrorObj (lit "Upload failed. Please try again."))
         | XhrLoad status statusText parsed =>
             if status =? 200 then
               match parsed with
               | Unparsable =>
                   Upload.RejectedWith (ErrorObj (lit "Failed to parse response"))
               | TextNull | TextDetail _ => Upload.Resolved
               end
             else
               match parsed with
               | TextDetail d =>
                   Upload.RejectedWith (ErrorObj (orElse d (lit "Upload failed")))
               | Unparsable | TextNull =>
                   Upload.RejectedWith
                     (ErrorObj (lit "Upload failed: " ++ statusText))
               end
         end)
      else (None, Upload.RejectedWith (ErrorObj (lit "Not authenticated")))
  | None => (None, Upload.RejectedWith (ErrorObj (lit "Not authenticated")))
  end.

End WithBase.

End Api.

(** ** The components with the client calls in place *)

Module App.

Import Chat Api.

Section WithBase.

Variable API_BASE_URL : str.
Variable headersError : str -> str.
Variable requestHeaderError : str -> str.

(** [handleSendMessage] with its call of [sendChatMessage]: the requests
    made and the state reached. *)
Definition chatTurn (w : Window) (s : State) (content : str) (clock : Clock)
    (f : Fetched (option str * option Stream)) : list Request * State :=
  if refused s content then ([], s)
  else
    let '(requests, reply) :=
      sendChatMessage API_BASE_URL w content (conversationId s) f in
    (requests, handleSendMessage s content clock reply).

(** [ChatInterface.tsx] lines 55-72, [loadConversationHistory]. *)
Definition loadConversationHistory (w : Window) (convId : str)
    (f : Fetched (Parsed ChatHistoryResponse)) (s : State)
  : list Request * State :=
  match getChatHistory API_BASE_URL headersError w (Some convId) f with
  | (requests, Returns history) =>
      (requests, historyLoaded (history_messages history) s)
  | (requests, Throws _) => (requests, historyFailed s)
  end.

(** [ChatInterface.tsx] lines 35-41, the effect on [searchParams]. *)
Definition conversationEffect (w : Window) (urlConversationId : option str)
    (f : Fetched (Parsed ChatHistoryResponse)) (s : State)
  : list Request * State :=
  match urlConversationId with
  | Some c =>
      if truthy c
      then loadConversationHistory w c f (setConversationId (Some c) s)
      else ([], s)
  | None => ([], s)
  end.

(** [ChatInterface.tsx] lines 24-32, [checkUserDocuments]: the requests
    made and the new value of [hasDocuments]. *)
Definition checkUserDocuments (w : Window) (f : Fetched (Parsed (list Document)))
  : list Request * bool :=
  match getDocuments API_BASE_URL headersError w f with
  | (requests, Returns documents) => (requests, (0 <? List.length documents)%nat)
  | (requests, Throws _) => (requests, false)
  end.

(** [DocumentUpload.handleUpload] with its call of [uploadDocument]; the
    progress values reach the component only if a request was sent. *)
Definition upload (w : Window) (s : Upload.State) (progressValues : list N)
    (x : Xhr) : option UploadRequest * Upload.State :=
  match Upload.file s with
  | None => (None, s)
  | Some f =>
      let '(request, settlement) :=
        uploadDocument API_BASE_URL requestHeaderError w f x in
      (request,
       fst (Upload.handleUpload s
              (match request with Some _ => progressValues | None => [] end)
              settlement))
  end.

End WithBase.

End App.

(** ** The authentication context ([AuthProvider], [useAuth]) and
    [protected-route.tsx] *)

Module Auth.

Import Chat Api.

Record State := {
  user : option User;
  loading : bool
}.

Definition initial : State := {| user := None; loading := true |}.

(** The browser storage, the context state, the URLs handed to
    [router.push] and the requests made so far. *)
Record World := {
  window : Window;
  auth : State;
  pushed : list str;
  requests : list Request
}.

(** [isAuthenticated: !!user] of the context value. *)
Definition isAuthenticated (a : State) : bool :=
  match user a with
  | Some _ => true
  | None => false
  end.

Section WithBase.

Variable API_BASE_URL : str.
Variable headersError : str -> str.

(** [checkAuth] of the mount effect; the [api.logout()] of its [catch] is
    not awaited, it is run here to its end. *)
Definition checkAuth (w : World) (me : Fetched (Parsed User))
    (out : Fetched unit) : World :=
  if Api.isAuthenticated (window w) then
    match getCurrentUser API_BASE_URL headersError (window w) me with
    | (win, sent, Returns userData) =>
        {| window := win;
           auth := {| user := Some userData; loading := false |};
           pushed := pushed w;
           requests := requests w ++ sent |}
    | (win, sent, Throws _) =>
        let '(win', sent', _) := logout API_BASE_URL headersError win out in
        {| window := win';
           auth := {| user := None; loading := false |};
           pushed := pushed w;
           requests := requests w ++ sent ++ sent' |}
    end
  else
    {| window := window w;
       auth := {| user := user (auth w); loading := false |};
       pushed := pushed w;
       requests := requests w |}.

(** The common tail of [handleLogin] and [handleRegister]. *)
Definition enter (w : World) (win : Window) (sent : list Request)
    (r : result AuthResponse) (me : Fetched (Parsed User))
  : World * result unit :=
  match r with
  | Throws e =>
      ({| window := win; auth := auth w; pushed := pushed w;
          requests := requests w ++ sent |}, Throws e)
  | Returns response =>
      match Api.user response with
      | Some u =>
          ({| window := win;
              auth := {| user := Some u; loading := loading (auth w) |};
              pushed := pushed w ++ [lit "/chat"];
              requests := requests w ++ sent |}, Returns tt)
      | None =>
          match getCurrentUser API_BASE_URL headersError win me with
          | (win', sent', Returns userData) =>
              ({| window := win';
                  auth := {| user := Some userData; loading := loading (auth w) |};
                  pushed := pushed w ++ [lit "/chat"];
                  requests := requests w ++ sent ++ sent' |}, Returns tt)
          | (win', sent', Throws e) =>
              ({| window := win'; auth := auth w; pushed := pushed w;
                  requests := requests w ++ sent ++ sent' |}, Throws e)
          end
      end
  end.

(** [handleLogin]. *)
Definition handleLogin (w : World) (username password : str)
    (f : Fetched (Parsed AuthResponse)) (me : Fetched (Parsed User))
  : World * result unit :=
  let '(win, sent, r) := login API_BASE_URL (window w) username password f in
  enter w win sent r me.

(** [handleRegister]. *)
Definition handleRegister (w : World) (username email password : str)
    (f : Fetched (Parsed AuthResponse)) (me : Fetched (Parsed User))
  : World * result unit :=
  let '(win, sent, r) :=
    register API_BASE_URL (window w) username email password f in
  enter w win sent r me.

(** [handleLogout]. *)
Definition handleLogout (w : World) (f : Fetched unit) : World * result unit :=
  match logout API_BASE_URL headersError (window w) f with
  | (win, sent, Returns _) =>
      ({| window := win;
          auth := {| user := None; loading := loading (auth w) |};
          pushed := pushed w ++ [lit "/login"];
          requests := requests w ++ sent |}, Returns tt)
  | (win, sent, Throws e) =>
      ({| window := win; auth := auth w; pushed := pushed w;
          requests := requests w ++ sent |}, Throws e)
  end.

End WithBase.

(** What [ProtectedRoute] renders. *)
Inductive Rendered := Spinner | Nothing | Children.

(** [protected-route.tsx]: the URLs its effect pushes and what it renders. *)
Definition protectedRoute (a : State) : list str * Rendered :=
  (if negb (loading a) && negb (isAuthenticated a) then [lit "/login"] else [],
   if loading a then Spinner
   else if negb (isAuthenticated a) then Nothing
   else Children).

(** [app/page.tsx], [HomePage]: the URLs its effect pushes. *)
Definition homePage (a : State) : list str :=
  if negb (loading a) && isAuthenticated a then [lit "/chat"] else [].

End Auth.

(** ** [DocumentList.tsx] *)

Module Documents.

Import Chat Api.

Record State := {
  documents : list Document;
  loading : bool;
  error : str;
  deletingId : option str
}.

Definition initial : State :=
  {| documents := []; loading := true; error := []; deletingId := None |}.

(** A call of [handleDelete] that is waiting for [deleteDocument]: the id,
    and the [documents] of the render whose handler was called. *)
Record Pending := {
  documentId : str;
  captured : list Document
}.

(** What [handleDelete] shows or tells besides the state. *)
Record Told := {
  alerts : list str;
  notified : bool
}.

Section WithBase.

Variable API_BASE_URL : str.
Variable headersError : str -> str.

(** Lines 24-35, [fetchDocuments]. *)
Definition fetchDocuments (w : Window) (f : Fetched (Parsed (list Document)))
    (s : State) : list Request * State :=
  let '(requests, r) := getDocuments API_BASE_URL headersError w f in
  (requests,
   match r with
   | Returns ds =>
       {| documents := ds; loading := false; error := [];
          deletingId := deletingId s |}
   | Throws (ErrorObj m) =>
       {| documents := documents s; loading := false; error := m;
          deletingId := deletingId s |}
   | Throws OtherValue =>
       {| documents := documents s; loading := false;
          error := lit "Failed to fetch documents";
          deletingId := deletingId s |}
   end).

(** Lines 37-43 of [handleDelete], up to the [await]: nothing happens
    unless the user confirms. *)
Definition deleteStart (confirmed : bool) (id : str) (s : State)
  : State * option Pending :=
  if confirmed
  then ({| documents := documents s; loading := loading s; error := error s;
           deletingId := Some id |},
        Some {| documentId := id; captured := documents s |})
  else (s, None).

(** Lines 44-54 of [handleDelete], after the [await]. *)
Definition deleteSettle (p : Pending) (r : result unit) (s : State)
  : State * Told :=
  match r with
  | Returns _ =>
      ({| documents :=
            filter (fun doc => negb (eqb (doc_id doc) (documentId p)))
              (captured p);
          loading := loading s; error := error s; deletingId := None |},
       {| alerts := []; notified := true |})
  | Throws (ErrorObj m) =>
      ({| documents := documents s; loading := loading s; error := error s;
          deletingId := None |},
       {| alerts := [m]; notified := false |})
  | Throws OtherValue =>
      ({| documents := documents s; loading := loading s; error := error s;
          deletingId := None |},
       {| alerts := [lit "Failed to delete document"]; notified := false |})
  end.

(** [handleDelete], run to its end with nothing in between. *)
Definition handleDelete (w : Window) (confirmed : bool) (id : str)
    (f : Fetched unit) (s : State) : list Request * State * Told :=
  match deleteStart confirmed id s with
  | (s1, Some p) =>
      let '(requests, r) := deleteDocument API_BASE_URL headersError w id f in
      let '(s2, told) := deleteSettle p r s1 in
      (requests, s2, told)
  | (s1, None) => ([], s1, {| alerts := []; notified := false |})
  end.

End WithBase.

End Documents.

(** ** Further vocabulary *)

Module Terms.

Import Chat.




(** The text [catch] shows for a thrown value (line 187). *)
Definition shown (e : thrown) : str :=
  match e with
  | ErrorObj m => m
  | OtherValue => lit "Failed to send message"
  end.

(** No message of the list has the given id. *)
Definition absent (aid : str) (l : list Message) : bool :=
  forallb (fun m => negb (eqb (id m) aid)) l.

(** A history entry as [loadConversationHistory] stores it. *)
Definition stored (msg : Message) : Message :=
  {| id := id msg; role := role msg; content := content msg;
     timestamp := timestamp msg; isStreaming := None |}.

End Terms.

Import Terms.

(** * Properties *)

(** ** The platform functions on small inputs *)

Section Examples.

Example split_blank_lines :
  split (lit "a" ++ nlnl ++ nl ++ lit "b") nlnl = [lit "a"; nl ++ lit "b"].
Proof. reflexivity. Qed.

Example split_trailing_separator :
  split (lit "data: hi" ++ nlnl) nlnl = [lit "data: hi"; []].
Proof. reflexivity. Qed.

Example split_empty : split [] nlnl = [[]].
Proof. reflexivity. Qed.

Example split_leftmost : split (lit "abcabcab") (lit "bc") = [lit "a"; lit "a"; lit "ab"].
Proof. reflexivity. Qed.

Example pop_keeps_last :
  pop (split (lit "x" ++ nlnl ++ lit "y") nlnl) = ([lit "x"], Some (lit "y")).
Proof. reflexivity. Qed.

Example trim_both_ends : trim (lit "  rate limited ") = lit "rate limited".
Proof. reflexivity. Qed.

Example lastIndexOf_last_dot : lastIndexOf (lit "a.b.pdf") (lit ".") = 3%Z.
Proof. reflexivity. Qed.

Example lastIndexOf_absent : lastIndexOf (lit "pdf") (lit ".") = (-1)%Z.
Proof. reflexivity. Qed.

Example substring_negative : substring (-1) (lit "pdf") = lit "pdf".
Proof. reflexivity. Qed.

Example numToString_now : numToString 1700000000000 = lit "1700000000000".
Proof. reflexivity. Qed.

(** U+00E9 and U+20AC from their UTF-8 bytes, the second one cut in two
    reads. *)
Example decode_across_reads :
  let '(d, text1) := TextDecoder.decode TextDecoder.create [xc3; xa9; xe2; x82] in
  let '(_, text2) := TextDecoder.decode d [xac] in
  (text1, text2) = ([233], [8364]).
Proof. reflexivity. Qed.

(** U+1F600 gives a surrogate pair; a stray byte gives U+FFFD. *)
Example decode_astral_and_invalid :
  snd (TextDecoder.decode TextDecoder.create [xf0; x9f; x98; x80; xff]) =
  [55357; 56832; 65533].
Proof. reflexivity. Qed.

Example unsupported_message :
  Upload.unsupported =
  lit "Unsupported file type. Allowed types: .pdf, .txt, .md, .docx".
Proof. reflexivity. Qed.

(** Header values: a plain token is taken; a line feed inside is not; a
    line feed at the end is removed; a code unit above 255 and a NUL are
    not taken. *)
Example headerValue_cases :
  Api.headerValue (Api.bearer (lit "abc")) = true
  /\ Api.headerValue (Api.bearer (lit "tok" ++ nl ++ lit "en")) = false
  /\ Api.headerValue (Api.bearer (lit "abc" ++ nl)) = true
  /\ Api.normalize (Api.bearer (lit "abc" ++ nl)) = lit "Bearer abc"
  /\ Api.headerValue (Api.bearer [8364]) = false
  /\ Api.headerValue (Api.bearer (lit "abc" ++ [0])) = false.
Proof. repeat split. Qed.

(** Two submissions to the handlers of one render, and the same with a
    render in between. *)
Example submissions_and_renders :
  List.length
    (Chat.inFlight
       (Chat.run Chat.world0
          [Chat.Typed (lit "hi"); Chat.Render; Chat.Submitted clock0;
           Chat.Submitted clock1])) = 2%nat
  /\ List.length
       (Chat.inFlight
          (Chat.run Chat.world0
             [Chat.Typed (lit "hi"); Chat.Render; Chat.Submitted clock0;
              Chat.Render; Chat.Submitted clock1])) = 1%nat.
Proof. split; reflexivity. Qed.

End Examples.

(** ** Strings *)

Section StringFacts.

Lemma eqb_refl (a : str) : eqb a a = true.
Proof.
  induction a as [|x a IH]; simpl; [reflexivity|].
  now rewrite N.eqb_refl, IH.
Qed.

Lemma eqb_eq (a b : str) : eqb a b = true <-> a = b.
Proof.
  split.
  - revert b; induction a as [|x a IH]; intros [|y b] H; simpl in H;
      try discriminate; [reflexivity|].
    apply andb_true_iff in H as [Hx Ha].
    apply N.eqb_eq in Hx. apply IH in Ha. now subst.
  - intros ->. apply eqb_refl.
Qed.

Lemma eqb_neq (a b : str) : eqb a b = false <-> a <> b.
Proof.
  rewrite <- eqb_eq. destruct (eqb a b); split; congruence.
Qed.

Lemma startsWith_app (p t : str) : startsWith (p ++ t) p = true.
Proof.
  induction p as [|x p IH]; simpl; [reflexivity|].
  now rewrite N.eqb_refl, IH.
Qed.

Lemma startsWith_inv (s p : str) :
  startsWith s p = true -> s = p ++ skipn (List.length p) s.
Proof.
  revert s; induction p as [|x p IH]; intros s H; simpl in *; [reflexivity|].
  destruct s as [|y s]; [discriminate|].
  apply andb_true_iff in H as [Hx Hp]. apply N.eqb_eq in Hx. subst y.
  simpl. f_equal. now apply IH.
Qed.

Lemma startsWith_length (s p : str) :
  startsWith s p = true -> (List.length p <= List.length s)%nat.
Proof.
  intros H. rewrite (startsWith_inv _ _ H), length_app. lia.
Qed.

Lemma startsWith_app_l (s t p : str) :
  startsWith s p = true -> startsWith (s ++ t) p = true.
Proof.
  intros H. rewrite (startsWith_inv _ _ H), <- app_assoc.
  apply startsWith_app.
Qed.

(** A prefix test on [s ++ t] that fits inside [s] is decided by [s]. *)
Lemma startsWith_app_inv (s t p : str) :
  (List.length p <= List.length s)%nat ->
  startsWith (s ++ t) p = startsWith s p.
Proof.
  revert s; induction p as [|x p IH]; intros s Hlen; simpl; [reflexivity|].
  destruct s as [|y s]; simpl in *; [lia|].
  rewrite IH by lia. reflexivity.
Qed.

Lemma cons_head_app (c : N) (l l' : list str) :
  l <> [] -> cons_head c (l ++ l') = cons_head c l ++ l'.
Proof. destruct l; [congruence | reflexivity]. Qed.

Lemma split_from_nonempty (sep : str) (k : nat) (s : str) :
  split_from sep k s <> [].
Proof.
  revert k; induction s as [|c s IH]; intros k; simpl; [discriminate|].
  destruct k; [|apply IH].
  destruct (startsWith (c :: s) sep); [discriminate|].
  specialize (IH 0%nat). destruct (split_from sep 0 s); [congruence|discriminate].
Qed.

Lemma split_nonempty (s sep : str) : split s sep <> [].
Proof. apply split_from_nonempty. Qed.

Lemma split_from_skip (sep : str) (k : nat) (s : str) :
  (k <= List.length s)%nat ->
  split_from sep k s = split_from sep 0 (skipn k s).
Proof.
  revert k; induction s as [|c s IH]; intros k Hk; simpl in Hk.
  - now replace k with 0%nat by lia.
  - destruct k; [reflexivity|]. simpl. apply IH. lia.
Qed.

(** The three equations of [split]. *)
Lemma split_nil (sep : str) : split [] sep = [[]].
Proof. reflexivity. Qed.

Lemma split_match (s sep : str) :
  sep <> [] -> startsWith s sep = true ->
  split s sep = [] :: split (skipn (List.length sep) s) sep.
Proof.
  intros Hsep H. pose proof (startsWith_length _ _ H) as Hlen.
  destruct sep as [|x sep]; [congruence|].
  destruct s as [|c s]; [simpl in Hlen; lia|].
  unfold split. cbn [split_from]. rewrite H. cbn [List.length pred skipn].
  rewrite split_from_skip by (simpl in Hlen; lia). reflexivity.
Qed.

Lemma split_nomatch (c : N) (s sep : str) :
  startsWith (c :: s) sep = false ->
  split (c :: s) sep = cons_head c (split s sep).
Proof. intros H. unfold split. cbn [split_from]. now rewrite H. Qed.

Lemma split_short (s sep : str) :
  (List.length s < List.length sep)%nat -> split s sep = [s].
Proof.
  induction s as [|c s IH]; intros Hlen; [reflexivity|].
  rewrite split_nomatch.
  - rewrite IH by (simpl in Hlen; lia). reflexivity.
  - destruct (startsWith (c :: s) sep) eqn:E; [|reflexivity].
    apply startsWith_length in E. lia.
Qed.

Lemma join_cons (x : str) (l : list str) (sep : str) :
  l <> [] -> join (x :: l) sep = x ++ sep ++ join l sep.
Proof. destruct l; [congruence | reflexivity]. Qed.

Lemma join_cons_head (c : N) (l : list str) (sep : str) :
  l <> [] -> join (cons_head c l) sep = c :: join l sep.
Proof.
  destruct l as [|x [|y l]]; [congruence | reflexivity | reflexivity].
Qed.

(** Splitting loses nothing: joining the pieces with the separator gives
    the string back. *)
Lemma join_split (sep : str) :
  sep <> [] -> forall s, join (split s sep) sep = s.
Proof.
  intros Hsep s.
  induction s as [s IH] using (induction_ltof1 _ (@List.length N)).
  unfold ltof in IH.
  destruct s as [|c s]; [reflexivity|].
  destruct (startsWith (c :: s) sep) eqn:E.
  - rewrite (split_match _ _ Hsep E), join_cons by apply split_nonempty.
    rewrite IH.
    + simpl. symmetry. now apply startsWith_inv.
    + rewrite length_skipn. destruct sep; [congruence|]. simpl. lia.
  - rewrite (split_nomatch _ _ _ E), join_cons_head by apply split_nonempty.
    rewrite IH by (simpl; lia). reflexivity.
Qed.

Lemma removelast_cons {A} (x : A) (l : list A) :
  l <> [] -> removelast (x :: l) = x :: removelast l.
Proof. destruct l; [congruence | reflexivity]. Qed.

Lemma last_cons {A} (x d : A) (l : list A) :
  l <> [] -> last (x :: l) d = last l d.
Proof. destruct l; [congruence | reflexivity]. Qed.

Lemma removelast_cons_head (c : N) (l : list str) :
  removelast (cons_head c l) =
  match l with
  | [] | [_] => []
  | _ => cons_head c (removelast l)
  end.
Proof. destruct l as [|x [|y l]]; reflexivity. Qed.

Lemma last_cons_head (c : N) (l : list str) :
  last (cons_head c l) [] =
  match l with
  | [] | [_] => c :: last l []
  | _ => last l []
  end.
Proof. destruct l as [|x [|y l]]; reflexivity. Qed.

(** Splitting [s ++ t]: the complete pieces of [s] stay as they are, and
    the scan goes on from the last, incomplete piece of [s]. *)
Lemma split_app (sep : str) :
  sep <> [] -> forall s t,
  split (s ++ t) sep =
  removelast (split s sep) ++ split (last (split s sep) [] ++ t) sep.
Proof.
  intros Hsep s t.
  induction s as [s IH] using (induction_ltof1 _ (@List.length N)).
  unfold ltof in IH.
  destruct s as [|c s]; [reflexivity|].
  destruct (startsWith (c :: s) sep) eqn:E.
  - pose proof (startsWith_length _ _ E) as Hlen.
    rewrite (split_match _ _ Hsep E).
    rewrite (split_match _ _ Hsep (startsWith_app_l _ t _ E)).
    rewrite skipn_app.
    replace (List.length sep - List.length (c :: s))%nat with 0%nat by lia.
    cbn [skipn]. rewrite IH.
    + rewrite removelast_cons, last_cons by apply split_nonempty.
      reflexivity.
    + rewrite length_skipn. destruct sep; [congruence|]. simpl. lia.
  - rewrite (split_nomatch _ _ _ E).
    destruct (startsWith ((c :: s) ++ t) sep) eqn:E'.
    + assert (Hshort : (List.length s < List.length sep)%nat).
      { destruct (Nat.lt_ge_cases (List.length (c :: s)) (List.length sep))
          as [H|H]; [simpl in H; lia|].
        rewrite startsWith_app_inv in E' by exact H. congruence. }
      rewrite (split_short _ _ Hshort). reflexivity.
    + change ((c :: s) ++ t) with (c :: (s ++ t)) in *.
      rewrite (split_nomatch _ _ _ E'), IH by (simpl; lia).
      pose proof (join_split sep Hsep s) as Hj.
      pose proof (split_nonempty s sep) as Hne.
      rewrite removelast_cons_head, last_cons_head.
      destruct (split s sep) as [|x [|y l]]; [congruence| |].
      * simpl in Hj. subst x. cbn [removelast last app].
        symmetry. apply split_nomatch. exact E'.
      * reflexivity.
Qed.

Lemma last_default {A} (l : list A) (d d' : A) :
  l <> [] -> last l d = last l d'.
Proof.
  induction l as [|x l IH]; [congruence|]. intros _.
  destruct l as [|y l]; [reflexivity|].
  change (last (y :: l) d = last (y :: l) d'). apply IH. discriminate.
Qed.

Lemma last_app_nonempty {A} (l l' : list A) (d : A) :
  l' <> [] -> last (l ++ l') d = last l' d.
Proof.
  intros H. induction l as [|x l IH]; [reflexivity|].
  change ((x :: l) ++ l') with (x :: (l ++ l')).
  rewrite last_cons; [exact IH|]. destruct l; [exact H | discriminate].
Qed.

Lemma pop_nonempty {A} (l : list A) (d : A) :
  l <> [] -> pop l = (removelast l, Some (last l d)).
Proof.
  destruct l as [|x l]; [congruence|]. intros _. unfold pop. f_equal. f_equal.
  destruct l as [|y l]; [reflexivity|].
  change (last (y :: l) x = last (y :: l) d). apply last_default. discriminate.
Qed.

(** The piece kept by [pop] holds no separator. *)
Lemma split_last (sep : str) :
  sep <> [] -> forall s,
  split (last (split s sep) []) sep = [last (split s sep) []].
Proof.
  intros Hsep s.
  pose proof (split_app sep Hsep s []) as H.
  rewrite !app_nil_r in H.
  rewrite (app_removelast_last [] (split_nonempty s sep)) in H at 1.
  now apply app_inv_head in H.
Qed.

End StringFacts.

(** ** The decoder is a stream function *)

Section DecoderFacts.

Import TextDecoder.

Lemma run_app (d : utf8) (a b : list byte) :
  run d (a ++ b) =
  let '(d1, out1) := run d a in
  let '(d2, out2) := run d1 b in
  (d2, out1 ++ out2).
Proof.
  revert d; induction a as [|x a IH]; intros d; simpl.
  - now destruct (run d b).
  - destruct (handler d (Byte.to_N x)) as [d1 o1]. rewrite IH.
    destruct (run d1 a) as [d2 o2]. destruct (run d2 b) as [d3 o3].
    now rewrite app_assoc.
Qed.

Lemma serialize_app (seen : bool) (i1 i2 : list N) :
  serialize seen (i1 ++ i2) =
  let '(seen1, out1) := serialize seen i1 in
  let '(seen2, out2) := serialize seen1 i2 in
  (seen2, out1 ++ out2).
Proof.
  destruct i1 as [|x i1]; simpl.
  - now destruct (serialize seen i2).
  - destruct i2 as [|y i2]; simpl.
    + now rewrite !app_nil_r.
    + rewrite flat_map_app, <- app_assoc. reflexivity.
Qed.

(** Decoding two reads one after the other gives the text of decoding
    their concatenation, and leaves the decoder in the same state. *)
Lemma decode_app (d : t) (a b : list byte) :
  decode d (a ++ b) =
  let '(d1, text1) := decode d a in
  let '(d2, text2) := decode d1 b in
  (d2, text1 ++ text2).
Proof.
  unfold decode. rewrite run_app.
  destruct (run (state d) a) as [st1 it1]. cbn [state BOM_seen].
  destruct (serialize (BOM_seen d) it1) as [seen1 out1] eqn:E1.
  cbn [state BOM_seen].
  destruct (run st1 b) as [st2 it2].
  rewrite serialize_app, E1.
  now destruct (serialize seen1 it2).
Qed.

End DecoderFacts.

(** ** The receiver loop *)

Section Receiver.

Import Chat.

Lemma reframe_reframe d b d' b' x :
  reframe d b (reframe d' b' x) = reframe d b x.
Proof. reflexivity. Qed.

Lemma reframe_self (x : State * Locals) :
  reframe (decoder (snd x)) (buffer (snd x)) x = x.
Proof. now destruct x as [s []]. Qed.

Lemma andThen_Ok {A} (r : outcome A) : andThen r Ok = r.
Proof. now destruct r. Qed.

Lemma andThen_assoc {A B C} (r : outcome A) (k : A -> outcome B)
    (k' : B -> outcome C) :
  andThen (andThen r k) k' = andThen r (fun a => andThen (k a) k').
Proof. now destruct r. Qed.

Lemma andThen_mapOk {A B C} (f : A -> B) (r : outcome A) (k : B -> outcome C) :
  andThen (mapOk f r) k = andThen r (fun a => k (f a)).
Proof. now destruct r. Qed.

Lemma andThen_ext {A B} (r : outcome A) (k k' : A -> outcome B) :
  (forall a, k a = k' a) -> andThen r k = andThen r k'.
Proof. intros H. destruct r; simpl; [apply H | reflexivity]. Qed.

Lemma forOf_app {A S} (body : S -> A -> outcome S) (xs ys : list A) (s : S) :
  forOf body (xs ++ ys) s = andThen (forOf body xs s) (forOf body ys).
Proof.
  revert s; induction xs as [|x xs IH]; intros s; simpl; [reflexivity|].
  rewrite andThen_assoc. apply andThen_ext. intros a. apply IH.
Qed.

(** A loop whose body commutes with [f] commutes with [f]. *)
Lemma forOf_commute {A S} (body : S -> A -> outcome S) (f : S -> S) :
  (forall s x, body (f s) x = mapOk f (body s x)) ->
  forall xs s, forOf body xs (f s) = mapOk f (forOf body xs s).
Proof.
  intros Hbody xs. induction xs as [|x xs IH]; intros s; simpl; [reflexivity|].
  rewrite Hbody. destruct (body s x); simpl; [apply IH | reflexivity].
Qed.

Variable aid : str.

Lemma appendContent_reframe d b content x :
  appendContent aid content (reframe d b x) =
  reframe d b (appendContent aid content x).
Proof. now destruct x as [s l]. Qed.

Lemma onLine_reframe d b x line :
  onLine aid (reframe d b x) line = mapOk (reframe d b) (onLine aid x line).
Proof.
  unfold onLine.
  destruct (startsWith line (lit "data: ")); [|reflexivity].
  destruct (truthy (slice 6 line) && _).
  - cbn [mapOk]. now rewrite appendContent_reframe.
  - destruct (startsWith (slice 6 line) (lit "[ERROR]")); reflexivity.
Qed.

Lemma onEvent_reframe d b x event :
  onEvent aid (reframe d b x) event = mapOk (reframe d b) (onEvent aid x event).
Proof. apply forOf_commute. intros. apply onLine_reframe. Qed.

Lemma events_reframe d b evs x :
  forOf (onEvent aid) evs (reframe d b x) =
  mapOk (reframe d b) (forOf (onEvent aid) evs x).
Proof. apply forOf_commute. intros. apply onEvent_reframe. Qed.

(** Handling events leaves the decoder and the buffer alone. *)
Lemma events_keep evs x x' :
  forOf (onEvent aid) evs x = Ok x' ->
  decoder (snd x') = decoder (snd x) /\ buffer (snd x') = buffer (snd x).
Proof.
  intros H. rewrite <- (reframe_self x), events_reframe in H.
  destruct (forOf (onEvent aid) evs x); [|discriminate].
  injection H as <-. split; reflexivity.
Qed.

(** [onText], with the pieces of the buffer named. *)
Lemma onText_eq x text :
  onText aid x text =
  let events := split (buffer (snd x) ++ text) nlnl in
  forOf (onEvent aid) (removelast events)
    (reframe (decoder (snd x)) (last events []) x).
Proof.
  destruct x as [s l]. unfold onText. cbv zeta. cbn [snd].
  rewrite (pop_nonempty (A:=str) _ []) by apply split_nonempty. reflexivity.
Qed.

Lemma nlnl_nonempty : nlnl <> [].
Proof. discriminate. Qed.

(** Text delivered in two pieces is handled as the whole text is. *)
Lemma onText_app x t1 t2 :
  onText aid x (t1 ++ t2) =
  andThen (onText aid x t1) (fun x' => onText aid x' t2).
Proof.
  rewrite !onText_eq. cbv zeta.
  rewrite app_assoc, (split_app nlnl nlnl_nonempty).
  set (E1 := split (buffer (snd x) ++ t1) nlnl).
  set (E2 := split (last E1 [] ++ t2) nlnl).
  assert (HE2 : E2 <> []) by apply split_nonempty.
  rewrite removelast_app by exact HE2.
  rewrite last_app_nonempty by exact HE2.
  rewrite forOf_app.
  rewrite <- (reframe_reframe (decoder (snd x)) (last E2 [])
                (decoder (snd x)) (last E1 []) x).
  rewrite events_reframe, andThen_mapOk.
  destruct (forOf (onEvent aid) (removelast E1)
              (reframe (decoder (snd x)) (last E1 []) x)) as [x'|e s] eqn:E;
    [|reflexivity].
  cbn [andThen]. rewrite onText_eq. cbv zeta.
  apply events_keep in E as [Hd Hb]. cbn [reframe snd] in Hd, Hb.
  rewrite Hb, Hd. reflexivity.
Qed.

Lemma onText_reframe_decoder d x text :
  onText aid (reframe d (buffer (snd x)) x) text =
  mapOk (fun y => reframe d (buffer (snd y)) y) (onText aid x text).
Proof.
  rewrite !onText_eq. cbv zeta.
  change (buffer (snd (reframe d (buffer (snd x)) x))) with (buffer (snd x)).
  change (decoder (snd (reframe d (buffer (snd x)) x))) with d.
  set (E := split (buffer (snd x) ++ text) nlnl).
  rewrite reframe_reframe.
  rewrite <- (reframe_reframe d (last E []) (decoder (snd x)) (last E []) x).
  rewrite events_reframe.
  destruct (forOf (onEvent aid) (removelast E)
              (reframe (decoder (snd x)) (last E []) x)) as [y|e s] eqn:H;
    [|reflexivity].
  cbn [mapOk]. apply events_keep in H as [_ Hb]. cbn [reframe snd buffer] in Hb.
  rewrite Hb. reflexivity.
Qed.

Lemma onRead_eq x value :
  onRead aid x value =
  onText aid
    (reframe (fst (TextDecoder.decode (decoder (snd x)) value))
       (buffer (snd x)) x)
    (snd (TextDecoder.decode (decoder (snd x)) value)).
Proof.
  destruct x as [s l]. unfold onRead. cbn [snd].
  now destruct (TextDecoder.decode (decoder l) value).
Qed.

(** Handling text leaves the decoder alone. *)
Lemma onText_keep x text x' :
  onText aid x text = Ok x' -> decoder (snd x') = decoder (snd x).
Proof.
  rewrite onText_eq. cbv zeta. intros H. now apply events_keep in H as [Hd _].
Qed.

(** Bytes delivered in two reads are handled as one read of both. *)
Lemma onRead_app x a b :
  onRead aid x (a ++ b) =
  andThen (onRead aid x a) (fun x' => onRead aid x' b).
Proof.
  rewrite (onRead_eq x (a ++ b)), (onRead_eq x a), decode_app.
  destruct (TextDecoder.decode (decoder (snd x)) a) as [d1 x1].
  destruct (TextDecoder.decode d1 b) as [d2 x2] eqn:E2.
  cbn [fst snd].
  rewrite onText_app, !onText_reframe_decoder, !andThen_mapOk.
  apply andThen_ext. intros y.
  rewrite onRead_eq.
  change (decoder (snd (reframe d1 (buffer (snd y)) y))) with d1.
  rewrite E2. reflexivity.
Qed.

(** Any number of reads is handled as one read of all their bytes. *)
Lemma reads_concat (c : list byte) (rest : list (list byte)) x :
  forOf (onRead aid) (c :: rest) x = onRead aid x (c ++ List.concat rest).
Proof.
  revert c x; induction rest as [|c' rest IH]; intros c x.
  - cbn [forOf List.concat]. now rewrite app_nil_r, andThen_Ok.
  - change (forOf (onRead aid) (c :: c' :: rest) x)
      with (andThen (onRead aid x c) (forOf (onRead aid) (c' :: rest))).
    cbn [List.concat]. rewrite onRead_app.
    apply andThen_ext. intros y. apply IH.
Qed.

(** Before the first read, a read of no bytes changes nothing. *)
Lemma onRead_nothing (s : State) :
  onRead aid (s, locals0) [] = Ok (s, locals0).
Proof. reflexivity. Qed.

Lemma reads_concat_initial (s : State) (reads : list (list byte)) :
  forOf (onRead aid) reads (s, locals0) =
  onRead aid (s, locals0) (List.concat reads).
Proof.
  destruct reads as [|c rest]; [reflexivity|]. apply reads_concat.
Qed.

End Receiver.

(** ** What the loops do to the content and to the draft *)

Section Effect.

Import Chat.

Variable aid : str.

Lemma streamingUpdate_twice c1 c2 (l : list Message) :
  streamingUpdate aid c2 (streamingUpdate aid c1 l) = streamingUpdate aid c2 l.
Proof.
  unfold streamingUpdate. rewrite map_map. apply map_ext. intros m.
  destruct (eqb (id m) aid) eqn:E; cbn [id]; now rewrite E.
Qed.

Lemma absorb_nil x : absorb aid [] x = x.
Proof.
  destruct x as [s l]. unfold absorb. cbn [truthy fst snd].
  rewrite app_nil_r. now destruct l.
Qed.

Lemma absorb_absorb d1 d2 x :
  absorb aid d2 (absorb aid d1 x) = absorb aid (d1 ++ d2) x.
Proof.
  destruct d2 as [|c2 d2]; [now rewrite absorb_nil, app_nil_r|].
  destruct d1 as [|c1 d1]; [now rewrite absorb_nil|].
  destruct x as [s l]. unfold absorb. cbn [truthy fst snd app assistantContent].
  f_equal.
  - unfold setMessages. cbn [messages isLoading conversationId error pushed].
    rewrite streamingUpdate_twice. cbn [app]. now rewrite <- app_assoc.
  - cbn [decoder buffer]. now rewrite <- app_assoc.
Qed.

Lemma appendContent_absorb c x :
  truthy c = true -> appendContent aid c x = absorb aid c x.
Proof. intros H. destruct x as [s l]. unfold appendContent, absorb. now rewrite H. Qed.

Lemma onRemainingLine_absorb x line :
  onRemainingLine aid x line = absorb aid (dataOf line) x.
Proof.
  unfold onRemainingLine, dataOf, isError.
  destruct (startsWith line (lit "data: ")); cbn [andb];
    [|now rewrite absorb_nil].
  destruct (startsWith (slice 6 line) (lit "[ERROR]")); cbn [negb];
    rewrite ?andb_false_r, ?andb_true_r; [now rewrite absorb_nil|].
  destruct (truthy (slice 6 line)) eqn:E.
  - now apply appendContent_absorb.
  - destruct (slice 6 line); [now rewrite absorb_nil | discriminate].
Qed.

(** A line of a complete event either throws or is handled as a line of
    the remaining buffer is. *)
Lemma onLine_cases x line :
  onLine aid x line =
  if lineThrows line then Throw (ErrorObj (errorOf line)) (fst x)
  else Ok (onRemainingLine aid x line).
Proof.
  unfold onLine, onRemainingLine, lineThrows, isError, errorOf.
  destruct (startsWith line (lit "data: ")); cbn [andb]; [|reflexivity].
  destruct (startsWith (slice 6 line) (lit "[ERROR]")); cbn [negb];
    rewrite ?andb_false_r, ?andb_true_r; [reflexivity|].
  now destruct (truthy (slice 6 line)).
Qed.

Lemma remainingLines_absorb lines x :
  fold_left (onRemainingLine aid) lines x =
  absorb aid (List.concat (map dataOf lines)) x.
Proof.
  revert x; induction lines as [|line lines IH]; intros x; cbn [fold_left map List.concat].
  - now rewrite absorb_nil.
  - now rewrite IH, onRemainingLine_absorb, absorb_absorb.
Qed.

Lemma lines_ok lines x :
  existsb lineThrows lines = false ->
  forOf (onLine aid) lines x =
  Ok (absorb aid (List.concat (map dataOf lines)) x).
Proof.
  revert x; induction lines as [|line lines IH]; intros x H;
    cbn [forOf map List.concat existsb] in *.
  - now rewrite absorb_nil.
  - apply orb_false_iff in H as [H1 H2].
    rewrite onLine_cases, H1. cbn [andThen].
    now rewrite IH, onRemainingLine_absorb, absorb_absorb.
Qed.

Lemma lines_throw before line after x :
  existsb lineThrows before = false -> lineThrows line = true ->
  forOf (onLine aid) (before ++ line :: after) x =
  Throw (ErrorObj (errorOf line))
    (fst (absorb aid (List.concat (map dataOf before)) x)).
Proof.
  intros Hb Hl. rewrite forOf_app, (lines_ok _ _ Hb). cbn [andThen forOf].
  now rewrite onLine_cases, Hl.
Qed.

Lemma events_ok events x :
  existsb eventThrows events = false ->
  forOf (onEvent aid) events x =
  Ok (absorb aid (List.concat (map dataOfLines events)) x).
Proof.
  revert x; induction events as [|ev events IH]; intros x H;
    cbn [forOf map List.concat existsb] in *.
  - now rewrite absorb_nil.
  - apply orb_false_iff in H as [H1 H2].
    unfold onEvent at 1. rewrite (lines_ok _ _ H1). cbn [andThen].
    now rewrite IH, absorb_absorb.
Qed.

Lemma processRemaining_absorb x :
  processRemaining aid x = absorb aid (dataOfLines (buffer (snd x))) x.
Proof.
  unfold processRemaining.
  destruct (buffer (snd x)) eqn:E; cbn [truthy].
  - now rewrite absorb_nil.
  - apply remainingLines_absorb.
Qed.

(** The loop over the reads handles the complete events of the decoded
    text and keeps the piece after the last blank line. *)
Lemma reads_events (s : State) (reads : list (list byte)) :
  forOf (onRead aid) reads (s, locals0) =
  mapOk
    (reframe (fst (TextDecoder.decode TextDecoder.create (List.concat reads)))
       (trailing (decoded reads)))
    (forOf (onEvent aid) (completeEvents (decoded reads)) (s, locals0)).
Proof.
  rewrite reads_concat_initial, onRead_eq, onText_eq. cbv zeta.
  unfold decoded, completeEvents, trailing.
  change (decoder (snd (s, locals0))) with TextDecoder.create.
  change (buffer (snd (s, locals0))) with (@nil N).
  set (D := TextDecoder.decode TextDecoder.create (List.concat reads)).
  change (buffer (snd (reframe (fst D) [] (s, locals0)))) with (@nil N).
  change (decoder (snd (reframe (fst D) [] (s, locals0)))) with (fst D).
  cbn [app]. rewrite reframe_reframe. apply events_reframe.
Qed.

End Effect.

(** ** Frames on the wire *)

Section Frames.

Import Chat.

Lemma singleLine_app (a b : str) :
  singleLine (a ++ b) = singleLine a && singleLine b.
Proof. apply forallb_app. Qed.

Lemma startsWith_nl_cons (c : N) (s t : str) :
  negb (c =? LF) = true -> startsWith (c :: s) (LF :: t) = false.
Proof.
  intros H. cbn [startsWith]. rewrite N.eqb_sym.
  apply negb_true_iff in H. now rewrite H.
Qed.

(** A text without line feed is a single line. *)
Lemma split_singleLine (s : str) :
  singleLine s = true -> split s nl = [s].
Proof.
  induction s as [|c s IH]; intros H; [reflexivity|].
  cbn [singleLine forallb] in H. apply andb_true_iff in H as [Hc Hs].
  rewrite split_nomatch by now apply startsWith_nl_cons.
  now rewrite (IH Hs).
Qed.

(** A line followed by a blank line is a complete event. *)
Lemma split_terminated (s t : str) :
  singleLine s = true -> split (s ++ nlnl ++ t) nlnl = s :: split t nlnl.
Proof.
  induction s as [|c s IH]; intros H.
  - cbn [app]. now rewrite (split_match (nlnl ++ t) nlnl nlnl_nonempty).
  - cbn [singleLine forallb] in H. apply andb_true_iff in H as [Hc Hs].
    change ((c :: s) ++ nlnl ++ t) with (c :: (s ++ nlnl ++ t)).
    rewrite split_nomatch by now apply startsWith_nl_cons.
    now rewrite (IH Hs).
Qed.

Lemma completeEvents_app (pre t : str) :
  trailing pre = [] ->
  completeEvents (pre ++ t) = completeEvents pre ++ completeEvents t.
Proof.
  unfold trailing, completeEvents. intros H.
  rewrite (split_app nlnl nlnl_nonempty), H. cbn [app].
  apply removelast_app, split_nonempty.
Qed.

Lemma trailing_app (pre t : str) :
  trailing pre = [] -> trailing (pre ++ t) = trailing t.
Proof.
  unfold trailing. intros H.
  rewrite (split_app nlnl nlnl_nonempty), H. cbn [app].
  apply last_app_nonempty, split_nonempty.
Qed.

Lemma completeEvents_frame (p t : str) :
  singleLine p = true ->
  completeEvents (frame p ++ t) = (lit "data: " ++ p) :: completeEvents t.
Proof.
  intros H. unfold completeEvents, frame.
  replace ((lit "data: " ++ p ++ nlnl) ++ t)
    with ((lit "data: " ++ p) ++ nlnl ++ t) by now rewrite <- !app_assoc.
  rewrite split_terminated by (rewrite singleLine_app; now rewrite H).
  apply removelast_cons, split_nonempty.
Qed.

Lemma trailing_frame (p t : str) :
  singleLine p = true -> trailing (frame p ++ t) = trailing t.
Proof.
  intros H. unfold trailing, frame.
  replace ((lit "data: " ++ p ++ nlnl) ++ t)
    with ((lit "data: " ++ p) ++ nlnl ++ t) by now rewrite <- !app_assoc.
  rewrite split_terminated by (rewrite singleLine_app; now rewrite H).
  apply last_cons, split_nonempty.
Qed.

Lemma trailing_frames (ps : list str) (t : str) :
  forallb singleLine ps = true ->
  trailing (List.concat (map frame ps) ++ t) = trailing t.
Proof.
  induction ps as [|p ps IH]; intros H; [reflexivity|].
  cbn [forallb] in H. apply andb_true_iff in H as [Hp Hps].
  cbn [map List.concat]. rewrite <- app_assoc, trailing_frame by exact Hp.
  now apply IH.
Qed.

Lemma completeEvents_frames (ps : list str) (t : str) :
  forallb singleLine ps = true ->
  completeEvents (List.concat (map frame ps) ++ t) =
  map (app (lit "data: ")) ps ++ completeEvents t.
Proof.
  induction ps as [|p ps IH]; intros H; [reflexivity|].
  cbn [forallb] in H. apply andb_true_iff in H as [Hp Hps].
  cbn [map List.concat]. rewrite <- app_assoc, completeEvents_frame by exact Hp.
  now rewrite (IH Hps).
Qed.

Lemma lineThrows_tagged (p : str) :
  lineThrows (lit "data: " ++ p) = isError p.
Proof. reflexivity. Qed.

Lemma dataOf_tagged (p : str) :
  dataOf (lit "data: " ++ p) = if isError p then [] else p.
Proof.
  unfold dataOf. rewrite startsWith_app.
  change (slice 6 (lit "data: " ++ p)) with p.
  now destruct (isError p).
Qed.

Lemma eventThrows_tagged (p : str) :
  singleLine p = true -> eventThrows (lit "data: " ++ p) = isError p.
Proof.
  intros H. unfold eventThrows.
  rewrite split_singleLine by (rewrite singleLine_app; now rewrite H).
  cbn [existsb]. now rewrite orb_false_r.
Qed.

Lemma dataOfLines_tagged (p : str) :
  singleLine p = true ->
  dataOfLines (lit "data: " ++ p) = if isError p then [] else p.
Proof.
  intros H. unfold dataOfLines.
  rewrite split_singleLine by (rewrite singleLine_app; now rewrite H).
  cbn [map List.concat]. now rewrite app_nil_r, dataOf_tagged.
Qed.

(** Data frames never throw, and add their payloads in order. *)
Lemma dataFrames_ok (ps : list str) :
  forallb dataPayload ps = true ->
  existsb eventThrows (map (app (lit "data: ")) ps) = false
  /\ List.concat (map dataOfLines (map (app (lit "data: ")) ps)) = List.concat ps
  /\ forallb singleLine ps = true.
Proof.
  induction ps as [|p ps IH]; intros H; [now repeat split|].
  cbn [forallb] in H. apply andb_true_iff in H as [Hp Hps].
  unfold dataPayload in Hp. apply andb_true_iff in Hp as [Hl He].
  apply negb_true_iff in He.
  destruct (IH Hps) as (IH1 & IH2 & IH3).
  cbn [map existsb List.concat forallb].
  rewrite eventThrows_tagged, dataOfLines_tagged, He, IH1, IH2, Hl, IH3 by exact Hl.
  now repeat split.
Qed.

(** A line followed by a line feed is the first piece of a split on
    line feeds. *)
Lemma split_line (s t : str) :
  singleLine s = true -> split (s ++ nl ++ t) nl = s :: split t nl.
Proof.
  induction s as [|c s IH]; intros H.
  - cbn [app]. now rewrite (split_match (nl ++ t) nl) by (discriminate || reflexivity).
  - cbn [singleLine forallb] in H. apply andb_true_iff in H as [Hc Hs].
    change ((c :: s) ++ nl ++ t) with (c :: (s ++ nl ++ t)).
    rewrite split_nomatch by now apply startsWith_nl_cons.
    now rewrite (IH Hs).
Qed.

(** Lines joined by line feeds split back into the lines. *)
Lemma split_join_lines (lines : list str) :
  lines <> [] -> forallb singleLine lines = true ->
  split (join lines nl) nl = lines.
Proof.
  induction lines as [|l lines IH]; [congruence|]. intros _ H.
  cbn [forallb] in H. apply andb_true_iff in H as [Hl Hls].
  destruct lines as [|l' lines].
  - now apply split_singleLine.
  - rewrite join_cons by discriminate.
    rewrite split_line by exact Hl.
    f_equal. apply IH; [discriminate | exact Hls].
Qed.

Lemma split_blank_free_step (c : N) (s : str) :
  negb (c =? LF) = true ->
  split (LF :: c :: s) nlnl = cons_head LF (split (c :: s) nlnl).
Proof.
  intros Hc. apply split_nomatch. cbn [startsWith nlnl].
  rewrite N.eqb_refl. cbn [andb]. rewrite N.eqb_sym.
  apply negb_true_iff in Hc. now rewrite Hc.
Qed.

(** Non-empty lines joined by line feeds and closed by a blank line make
    one complete event. *)
Lemma split_lines_terminated (lines : list str) (t : str) :
  lines <> [] -> forallb properLine lines = true ->
  split (join lines nl ++ nlnl ++ t) nlnl = join lines nl :: split t nlnl.
Proof.
  induction lines as [|l lines IH]; [congruence|]. intros _ H.
  cbn [forallb] in H. apply andb_true_iff in H as [Hl Hls].
  unfold properLine in Hl. apply andb_true_iff in Hl as [Hl _].
  destruct lines as [|l' lines].
  - now apply split_terminated.
  - rewrite join_cons by discriminate.
    specialize (IH ltac:(discriminate) Hls).
    assert (Hne : exists c r, join (l' :: lines) nl ++ nlnl ++ t = c :: r
                              /\ negb (c =? LF) = true).
    { cbn [forallb] in Hls. apply andb_true_iff in Hls as [Hl' _].
      unfold properLine in Hl'. apply andb_true_iff in Hl' as [Hs Ht].
      destruct l' as [|c l']; [discriminate|].
      cbn [singleLine forallb] in Hs. apply andb_true_iff in Hs as [Hc _].
      destruct lines; cbn [join app]; eauto. }
    destruct Hne as (c & r & Hcr & Hc).
    rewrite <- !app_assoc. rewrite Hcr in *.
    clear Hcr Hls. revert IH.
    generalize (join (l' :: lines) nl). intros j IH.
    induction l as [|x l IHl].
    + cbn [app nl]. now rewrite split_blank_free_step, IH.
    + cbn [singleLine forallb] in Hl. apply andb_true_iff in Hl as [Hx Hl].
      change ((x :: l) ++ nl ++ c :: r) with (x :: (l ++ nl ++ c :: r)).
      rewrite split_nomatch by now apply startsWith_nl_cons.
      now rewrite (IHl Hl).
Qed.

(** A single line holds no blank line. *)
Lemma split_singleLine_nlnl (s : str) :
  singleLine s = true -> split s nlnl = [s].
Proof.
  induction s as [|c s IH]; intros H; [reflexivity|].
  cbn [singleLine forallb] in H. apply andb_true_iff in H as [Hc Hs].
  rewrite split_nomatch by now apply startsWith_nl_cons.
  now rewrite (IH Hs).
Qed.

End Frames.

(** ** A whole turn *)

Section Turn.

Import Chat.

Lemma messages_adopt c n s : messages (adoptConversation c n s) = messages s.
Proof.
  unfold adoptConversation. destruct n as [x|]; [|reflexivity].
  now destruct (truthy x && negb (truthyOpt c)).
Qed.


Lemma error_adopt c n s : error (adoptConversation c n s) = error s.
Proof.
  unfold adoptConversation. destruct n as [x|]; [|reflexivity].
  now destruct (truthy x && negb (truthyOpt c)).
Qed.

Lemma adopt_setMessages c n f s :
  adoptConversation c n (setMessages f s) = setMessages f (adoptConversation c n s).
Proof.
  unfold adoptConversation. destruct n as [x|]; [|reflexivity].
  now destruct (truthy x && negb (truthyOpt c)).
Qed.

Lemma messages_start content clock s :
  messages (start content clock s) =
  messages s ++ [userMessage content clock; assistantMessage clock].
Proof. unfold start. cbn. now rewrite <- app_assoc. Qed.

(** The id of a user message is never the id of an assistant draft. *)
Lemma user_not_assistant content clock clock' :
  eqb (id (userMessage content clock)) (assistantMessageId clock') = false.
Proof. reflexivity. Qed.

Lemma removeAssistant_streamingUpdate aid c (l : list Message) :
  removeAssistant aid (streamingUpdate aid c l) = removeAssistant aid l.
Proof.
  induction l as [|m l IH]; [reflexivity|].
  cbn [streamingUpdate map removeAssistant filter].
  fold (streamingUpdate aid c l). fold (removeAssistant aid l).
  fold (removeAssistant aid (streamingUpdate aid c l)).
  destruct (eqb (id m) aid) eqn:E; cbn [id]; rewrite E; cbn [negb];
    now rewrite IH.
Qed.

Lemma removeAssistant_start content clock (l : list Message) :
  removeAssistant (assistantMessageId clock)
    (l ++ [userMessage content clock; assistantMessage clock]) =
  removeAssistant (assistantMessageId clock) l ++ [userMessage content clock].
Proof.
  unfold removeAssistant. rewrite filter_app. f_equal.
  cbn [filter]. rewrite user_not_assistant.
  cbn [assistantMessage id]. now rewrite eqb_refl.
Qed.

(** The messages left when the [try] block is left by an exception after
    any amount of streamed content. *)
Lemma messages_caught content clock c n data e l s :
  messages
    (catchBlock (assistantMessageId clock) e
       (fst (absorb (assistantMessageId clock) data
               (adoptConversation c n (start content clock s), l)))) =
  removeAssistant (assistantMessageId clock) (messages s)
    ++ [userMessage content clock].
Proof.
  unfold catchBlock, absorb. cbn [fst snd].
  destruct (truthy data); cbn [messages setMessages setError];
    rewrite ?removeAssistant_streamingUpdate, messages_adopt, messages_start;
    apply removeAssistant_start.
Qed.


Lemma streamingUpdate_start content clock c (l : list Message) :
  streamingUpdate (assistantMessageId clock) c
    (l ++ [userMessage content clock; assistantMessage clock]) =
  streamingUpdate (assistantMessageId clock) c l
    ++ [userMessage content clock; draft clock c true].
Proof.
  unfold streamingUpdate. rewrite map_app. f_equal.
  cbn [map]. rewrite user_not_assistant.
  cbn [assistantMessage id]. now rewrite eqb_refl.
Qed.

Lemma markComplete_draft content clock c b (l : list Message) :
  markComplete (assistantMessageId clock)
    (l ++ [userMessage content clock; draft clock c b]) =
  markComplete (assistantMessageId clock) l
    ++ [userMessage content clock; draft clock c false].
Proof.
  unfold markComplete. rewrite map_app. f_equal.
  cbn [map]. rewrite user_not_assistant.
  cbn [draft id]. now rewrite eqb_refl.
Qed.

(** The messages once [data] has been streamed into a started turn. *)
Lemma messages_streamed content clock c n data l s :
  assistantContent l = [] ->
  messages
    (fst (absorb (assistantMessageId clock) data
            (adoptConversation c n (start content clock s), l))) =
  (if truthy data
   then streamingUpdate (assistantMessageId clock) data (messages s)
   else messages s)
    ++ [userMessage content clock; draft clock data true].
Proof.
  intros Hl. unfold absorb. cbn [fst snd]. rewrite Hl. cbn [app].
  destruct data as [|x data]; cbn [truthy].
  - now rewrite messages_adopt, messages_start.
  - cbn [messages setMessages].
    rewrite messages_adopt, messages_start. apply streamingUpdate_start.
Qed.

(** A stream without a throwing event that ends with [done]: the [try]
    block streams the data of the complete events and of the remaining
    buffer, then marks the draft complete. *)
Lemma tryBlock_completed s content clock newId reads :
  existsb eventThrows (completeEvents (decoded reads)) = false ->
  tryBlock (assistantMessageId clock) (conversationId s)
    (Response newId (Some {| chunks := reads; failure := None |}))
    (start content clock s) =
  Ok (setMessages (markComplete (assistantMessageId clock))
        (fst (absorb (assistantMessageId clock)
                (List.concat (map dataOfLines (completeEvents (decoded reads)))
                   ++ dataOfLines (trailing (decoded reads)))
                (adoptConversation (conversationId s) newId
                   (start content clock s), locals0)))).
Proof.
  intros H. unfold tryBlock, readLoop. cbn [chunks failure].
  rewrite reads_events, (events_ok _ _ _ H). cbn [mapOk andThen].
  rewrite processRemaining_absorb. cbn [reframe snd buffer].
  rewrite <- absorb_absorb. reflexivity.
Qed.

Lemma error_absorb aid data x : error (fst (absorb aid data x)) = error (fst x).
Proof. unfold absorb. cbn [fst]. now destruct (truthy data). Qed.

(** A completed turn, field by field. *)
Lemma handle_completed s content clock newId reads :
  refused s content = false ->
  existsb eventThrows (completeEvents (decoded reads)) = false ->
  let aid := assistantMessageId clock in
  let C := List.concat (map dataOfLines (completeEvents (decoded reads)))
             ++ dataOfLines (trailing (decoded reads)) in
  let prev := if truthy C then streamingUpdate aid C (messages s)
              else messages s in
  let s' := handleSendMessage s content clock
              (Response newId (Some {| chunks := reads; failure := None |})) in
  messages s' =
    markComplete aid prev ++ [userMessage content clock; draft clock C false]
  /\ error s' = None /\ isLoading s' = false.
Proof.
  intros Hr He aid C prev s'. subst s'. unfold handleSendMessage.
  rewrite Hr. cbv zeta. rewrite (tryBlock_completed _ _ _ _ _ He).
  fold aid. fold C. repeat split.
  - cbn [messages setIsLoading setMessages].
    subst aid. rewrite messages_streamed by reflexivity.
    apply markComplete_draft.
  - cbn [error setIsLoading setMessages].
    rewrite error_absorb. cbn [fst]. now rewrite error_adopt.
Qed.

Lemma streams_refl aid x : streams aid x (Ok x).
Proof. exists []. now rewrite absorb_nil. Qed.

Lemma streams_forOf {A} aid (body : State * Locals -> A -> outcome (State * Locals)) :
  (forall x a, streams aid x (body x a)) ->
  forall xs x, streams aid x (forOf body xs x).
Proof.
  intros Hbody xs. induction xs as [|a xs IH]; intros x; [apply streams_refl|].
  cbn [forOf]. destruct (Hbody x a) as [d Hd].
  destruct (body x a) as [x1|e s1]; cbn [andThen].
  - subst x1. destruct (IH (absorb aid d x)) as [d' Hd'].
    exists (d ++ d'). rewrite <- absorb_absorb. exact Hd'.
  - exists d. exact Hd.
Qed.

Lemma streams_onLine aid x line : streams aid x (onLine aid x line).
Proof.
  rewrite onLine_cases. destruct (lineThrows line).
  - exists []. now rewrite absorb_nil.
  - exists (dataOf line). apply onRemainingLine_absorb.
Qed.

Lemma streams_onEvent aid x event : streams aid x (onEvent aid x event).
Proof. apply streams_forOf. intros. apply streams_onLine. Qed.

(** Whatever a read holds, handling it only streams data into the draft. *)
Lemma onRead_streams aid x value :
  exists data, stateOf (onRead aid x value) = fst (absorb aid data x).
Proof.
  rewrite onRead_eq, onText_eq. cbv zeta.
  match goal with
  | |- context [forOf (onEvent aid) ?evs ?y] =>
      destruct (streams_forOf aid (onEvent aid) (streams_onEvent aid) evs y)
        as [d Hd];
      destruct (forOf (onEvent aid) evs y) as [x'|e s']
  end; exists d; cbn [stateOf]; subst; reflexivity.
Qed.

Lemma streamingUpdate_other aid c (prev : list Message) i msg :
  nth_error prev i = Some msg -> id msg <> aid ->
  nth_error (streamingUpdate aid c prev) i = Some msg.
Proof.
  intros Hn Hid. unfold streamingUpdate. rewrite nth_error_map, Hn.
  cbn [option_map]. apply eqb_neq in Hid. now rewrite Hid.
Qed.

Lemma absorb_other aid data x i msg :
  nth_error (messages (fst x)) i = Some msg -> id msg <> aid ->
  nth_error (messages (fst (absorb aid data x))) i = Some msg.
Proof.
  intros Hn Hid. unfold absorb. cbn [fst].
  destruct (truthy data); [|exact Hn].
  cbn [messages setMessages]. now apply streamingUpdate_other.
Qed.

Lemma streamingUpdate_In aid c (prev : list Message) msg :
  In msg (streamingUpdate aid c prev) -> id msg = aid ->
  content msg = c /\ isStreaming msg = Some true.
Proof.
  unfold streamingUpdate. intros Hin Hid.
  apply in_map_iff in Hin as (m & Hm & _).
  destruct (eqb (id m) aid) eqn:E.
  - subst msg. now split.
  - subst msg. apply eqb_neq in E. contradiction.
Qed.

(** A stream of data frames gives the concatenation of their payloads. *)
Lemma frames_content aid s ps reads :
  forallb dataPayload ps = true ->
  decoded reads = List.concat (map frame ps) ->
  contentOf (forOf (onRead aid) reads (s, locals0)) = Some (List.concat ps).
Proof.
  intros Hps Hd. destruct (dataFrames_ok ps Hps) as (H1 & H2 & H3).
  assert (Hc : completeEvents (List.concat (map frame ps)) =
               map (app (lit "data: ")) ps).
  { rewrite <- (app_nil_r (List.concat (map frame ps))).
    rewrite completeEvents_frames by exact H3. apply app_nil_r. }
  rewrite reads_events, Hd, Hc, (events_ok _ _ _ H1), H2. reflexivity.
Qed.

End Turn.

(** * The streaming receiver: properties of the specification *)

Section Streaming.

Import Chat.

(** C1 (stream reassembly).  However the bytes of the body are cut into
    reads, the receiver loop of [handleSendMessage] ends as it does on a
    single read of all the bytes: same accumulated content, same buffer,
    same decoder state, same messages, or the same exception; so the whole
    call ends in the same state.  In particular the bytes of
    "data: hello\n\n" read as "da" and then "ta: hello\n\n" give exactly
    the content "hello". *)
Theorem C1_stream_reassembly :
  (forall aid s reads,
      forOf (onRead aid) reads (s, locals0) =
      forOf (onRead aid) [List.concat reads] (s, locals0))
  /\ (forall s content clock newId reads closing,
      handleSendMessage s content clock
        (Response newId (Some {| chunks := reads; failure := closing |})) =
      handleSendMessage s content clock
        (Response newId
           (Some {| chunks := [List.concat reads]; failure := closing |})))
  /\ (forall aid s,
      forOf (onRead aid)
        [bytes "da"; bytes "ta: hello" ++ [LFb; LFb]] (s, locals0) =
      Ok (setMessages (streamingUpdate aid (lit "hello")) s,
          {| decoder :=
               {| TextDecoder.state := TextDecoder.utf8_init;
                  TextDecoder.BOM_seen := true |};
             assistantContent := lit "hello";
             buffer := [] |})).
Proof.
  assert (H1 : forall aid s reads,
             forOf (onRead aid) reads (s, locals0) =
             forOf (onRead aid) [List.concat reads] (s, locals0)).
  { intros aid s reads. rewrite reads_concat_initial.
    cbn [forOf]. now rewrite andThen_Ok. }
  split; [exact H1|]. split.
  - intros s content clock newId reads closing.
    unfold handleSendMessage, tryBlock, readLoop. cbn [chunks failure].
    now rewrite H1.
  - intros aid s. reflexivity.
Qed.



(** C3, as stated, fails: for the frame whose payload is "a", a line
    feed, "b", the accumulated content is "a"; the part after the line
    feed is lost. *)
Lemma C3_multiline_counterexample :
  contentOf
    (forOf (onRead aid0)
       [bytes "data: a" ++ [LFb] ++ bytes "b" ++ [LFb; LFb]]
       (started0, locals0)) = Some (lit "a")
  /\ lit "a" <> lit "a" ++ nl ++ lit "b".
Proof. split; [reflexivity | discriminate]. Qed.

(** C3, amended.  A frame of several non-empty lines is handled line by
    line: when no line throws, the content grows by the text after the
    tag of each line that begins with "data: " (unless that text starts
    with the sentinel), joined without line feeds; a line without the tag
    adds nothing, so a payload none of whose later lines is tagged adds
    only its first line. *)
Theorem C3_multiline_by_lines :
  forall aid x first more,
    buffer (snd x) = [] ->
    singleLine first = true ->
    forallb properLine more = true ->
    existsb lineThrows ((lit "data: " ++ first) :: more) = false ->
    onText aid x (frame (join (first :: more) nl)) =
      Ok (absorb aid (first ++ List.concat (map dataOf more)) x)
    /\ (forallb (fun l => negb (startsWith l (lit "data: "))) more = true ->
        List.concat (map dataOf more) = []).
Proof.
  intros aid x first more Hb Hf Hm Ht. split.
  - set (lines := (lit "data: " ++ first) :: more).
    assert (Hj : lit "data: " ++ join (first :: more) nl = join lines nl).
    { subst lines. destruct more; [reflexivity|].
      rewrite !join_cons by discriminate. now rewrite app_assoc. }
    assert (Hp : forallb properLine lines = true).
    { subst lines. cbn [forallb]. rewrite Hm. unfold properLine.
      rewrite singleLine_app, Hf. reflexivity. }
    assert (Hs : forallb singleLine lines = true).
    { rewrite forallb_forall in Hp |- *. intros l Hl.
      specialize (Hp l Hl). unfold properLine in Hp.
      now apply andb_true_iff in Hp as [Hp _]. }
    rewrite onText_eq. cbv zeta. rewrite Hb. cbn [app].
    unfold frame. rewrite app_assoc, Hj.
    replace (join lines nl ++ nlnl) with (join lines nl ++ nlnl ++ [])
      by now rewrite app_nil_r.
    rewrite split_lines_terminated by (subst lines; discriminate || exact Hp).
    cbn [split_from split removelast last forOf].
    change (split [] nlnl) with [@nil N]. cbn [removelast last forOf].
    unfold onEvent. rewrite split_join_lines by (subst lines; discriminate || exact Hs).
    rewrite (lines_ok _ _ _ Ht). cbn [andThen].
    subst lines. cbn [map List.concat]. rewrite dataOf_tagged.
    cbn [existsb] in Ht. apply orb_false_iff in Ht as [Ht _].
    rewrite lineThrows_tagged in Ht. rewrite Ht.
    rewrite <- Hb, reframe_self. reflexivity.
  - intros Hu. induction more as [|l more IH]; [reflexivity|].
    cbn [forallb] in Hu, Hm. apply andb_true_iff in Hu as [Hl Hu].
    apply andb_true_iff in Hm as [_ Hm].
    cbn [existsb] in Ht. rewrite orb_assoc in Ht.
    apply orb_false_iff in Ht as [Ht1 Ht2]. apply orb_false_iff in Ht1 as [Ht1 Ht3].
    cbn [map List.concat]. rewrite IH.
    + unfold dataOf. apply negb_true_iff in Hl. rewrite Hl. reflexivity.
    + exact Hm.
    + cbn [existsb]. now rewrite Ht1, Ht2.
    + exact Hu.
Qed.

(** The frame of the three lines "a", "b" and "data: c" adds "ac". *)
Lemma C3_multiline_by_lines_witness :
  contentOf
    (onText aid0 (started0, locals0)
       (frame (join [lit "a"; lit "b"; lit "data: c"] nl))) = Some (lit "ac")
  /\ List.concat (map dataOf [lit "b"]) = [].
Proof.
  split.
  - exact (f_equal contentOf
             (proj1 (C3_multiline_by_lines aid0 (started0, locals0) (lit "a")
                       [lit "b"; lit "data: c"]
                       eq_refl eq_refl eq_refl eq_refl))).
  - exact (proj2 (C3_multiline_by_lines aid0 (started0, locals0) (lit "a")
                    [lit "b"] eq_refl eq_refl eq_refl eq_refl) eq_refl).
Defined.

(** C4, as stated, fails at the end of the stream: the unterminated text
    "data: tail" is kept in the buffer by the read, but once the stream is
    done it is handled like a complete frame, and the turn ends with a
    draft whose content is "tail". *)
Lemma C4_stream_end_counterexample :
  forOf (onRead aid0) [bytes "data: tail"] (started0, locals0) =
    Ok (started0,
        {| decoder := {| TextDecoder.state := TextDecoder.utf8_init;
                         TextDecoder.BOM_seen := true |};
           assistantContent := [];
           buffer := lit "data: tail" |})
  /\ messages
       (handleSendMessage initial (lit "hi") clock0
          (Response None
             (Some {| chunks := [bytes "data: tail"]; failure := None |}))) =
     [userMessage (lit "hi") clock0; draft clock0 (lit "tail") false].
Proof. split; reflexivity. Qed.

(** C4, amended.  While the stream is open, whatever the reads, the loop
    has handled exactly the complete events of the text decoded so far
    and holds in its buffer the text after the last blank line: that text
    and the complete events rebuild the decoded text, so nothing is
    dropped, and the buffer holds no blank line, so it is no complete
    frame.  When the stream is done, the lines of the buffer are handled
    as data lines are: each tagged line without the sentinel adds its
    text to the content. *)
Theorem C4_buffer_retained :
  forall aid s reads,
    let T := decoded reads in
    forOf (onRead aid) reads (s, locals0) =
      mapOk
        (reframe
           (fst (TextDecoder.decode TextDecoder.create (List.concat reads)))
           (trailing T))
        (forOf (onEvent aid) (completeEvents T) (s, locals0))
    /\ join (completeEvents T ++ [trailing T]) nlnl = T
    /\ split (trailing T) nlnl = [trailing T]
    /\ (forall x,
          processRemaining aid x = absorb aid (dataOfLines (buffer (snd x))) x).
Proof.
  intros aid s reads T. repeat split.
  - apply reads_events.
  - unfold completeEvents, trailing.
    rewrite <- (join_split nlnl nlnl_nonempty T) at 3.
    f_equal. symmetry. apply app_removelast_last, split_nonempty.
  - apply split_last, nlnl_nonempty.
  - apply processRemaining_absorb.
Qed.

Lemma forallb_absent aid (l : list Message) :
  absent aid l = true -> forall m, In m l -> eqb (id m) aid = false.
Proof.
  unfold absent. rewrite forallb_forall. intros H m Hin.
  now apply negb_true_iff, H.
Qed.

Lemma streamingUpdate_absent aid c (l : list Message) :
  absent aid l = true -> streamingUpdate aid c l = l.
Proof.
  intros H. unfold streamingUpdate. rewrite <- (map_id l) at 2.
  apply map_ext_in. intros m Hin. now rewrite (forallb_absent _ _ H m Hin).
Qed.

(** What a streaming update makes of the message at each position. *)
Lemma streamingUpdate_nth aid c (prev : list Message) i msg :
  nth_error prev i = Some msg ->
  nth_error (streamingUpdate aid c prev) i =
  Some (if eqb (id msg) aid
        then {| id := id msg; role := role msg; content := c;
                timestamp := timestamp msg; isStreaming := Some true |}
        else msg).
Proof.
  intros H. unfold streamingUpdate. now rewrite nth_error_map, H.
Qed.

(** A data frame read into an empty buffer is one tagged line. *)
Lemma onText_frame aid s l p :
  singleLine p = true -> isError p = false -> buffer l = [] ->
  onText aid (s, l) (frame p) = onLine aid (s, l) (lit "data: " ++ p)
  /\ onLine aid (s, l) (lit "data: " ++ p) = Ok (absorb aid p (s, l)).
Proof.
  intros Hs He Hb. split.
  - rewrite onText_eq. cbv zeta. cbn [snd]. rewrite Hb.
    cbn [app]. unfold frame.
    replace (lit "data: " ++ p ++ nlnl)
      with ((lit "data: " ++ p) ++ nlnl ++ []) by now rewrite <- app_assoc, app_nil_r.
    rewrite split_terminated by (rewrite singleLine_app; now rewrite Hs).
    change (split [] nlnl) with [@nil N]. cbn [removelast last forOf].
    unfold onEvent.
    rewrite split_singleLine by (rewrite singleLine_app; now rewrite Hs).
    cbn [forOf]. rewrite andThen_Ok, andThen_Ok.
    rewrite <- Hb. change l with (snd (s, l)) at 1 2.
    now rewrite reframe_self.
  - rewrite onLine_cases, lineThrows_tagged, He, onRemainingLine_absorb.
    now rewrite dataOf_tagged, He.
Qed.

(** C5, as stated, fails: line feeds are white space, and a payload that
    ends or begins with one is not appended as it is.  The frame with the
    payload "hi" and a line feed adds "hi", and the whole turn ends with
    that content; the frame with the payload line feed, "hi" adds
    nothing. *)
Lemma C5_whitespace_counterexample :
  contentOf
    (forOf (onRead aid0) [bytes "data: hi" ++ [LFb] ++ [LFb; LFb]]
       (started0, locals0)) = Some (lit "hi")
  /\ lit "hi" <> lit "hi" ++ nl
  /\ messages
       (handleSendMessage initial (lit "hi") clock0
          (Response None
             (Some {| chunks := [bytes "data: hi" ++ [LFb] ++ [LFb; LFb]];
                      failure := None |}))) =
     [userMessage (lit "hi") clock0; draft clock0 (lit "hi") false]
  /\ contentOf
       (forOf (onRead aid0) [bytes "data: " ++ [LFb] ++ bytes "hi" ++ [LFb; LFb]]
          (started0, locals0)) = Some []
  /\ @nil N <> nl ++ lit "hi".
Proof.
  split; [reflexivity|]. split; [discriminate|]. split; [reflexivity|].
  split; [reflexivity | discriminate].
Qed.

(** C5, amended.  A complete data frame whose payload holds no line feed
    and does not begin with the sentinel, read into an empty buffer, is
    appended to the accumulated content as it is, whatever spaces, tabs or
    other white space it begins or ends with, and the buffer is empty
    afterwards.  When the payload is not empty, the message list keeps its
    length and every message with the draft's id shows, at its place, the
    new content with the streaming flag set, its other fields kept, while
    the other messages are unchanged; in a turn, where the draft is the
    last message after the user message, the list is the earlier messages,
    the user message and the draft with the new content and the flag set.
    An empty payload changes nothing.  The loading flag, the error, the
    conversation id and the pushed URLs are not touched.  A stream made of
    such frames, however it is cut into reads, accumulates the
    concatenation of the payloads. *)
Theorem C5_data_verbatim :
  forall aid s l p,
    singleLine p = true -> isError p = false -> buffer l = [] ->
    let c := assistantContent l ++ p in
    let r := onText aid (s, l) (frame p) in
    r = Ok (stateOf r,
            {| decoder := decoder l; assistantContent := c; buffer := [] |})
    /\ (truthy p = true ->
        List.length (messages (stateOf r)) = List.length (messages s)
        /\ (forall i msg,
            nth_error (messages s) i = Some msg ->
            nth_error (messages (stateOf r)) i =
            Some (if eqb (id msg) aid
                  then {| id := id msg; role := role msg; content := c;
                          timestamp := timestamp msg;
                          isStreaming := Some true |}
                  else msg))
        /\ (forall prev content clock c0 b,
            aid = assistantMessageId clock -> absent aid prev = true ->
            messages s = prev ++ [userMessage content clock; draft clock c0 b] ->
            messages (stateOf r) =
              prev ++ [userMessage content clock; draft clock c true]))
    /\ (truthy p = false -> stateOf r = s)
    /\ isLoading (stateOf r) = isLoading s
    /\ error (stateOf r) = error s
    /\ conversationId (stateOf r) = conversationId s
    /\ pushed (stateOf r) = pushed s
    /\ r = onLine aid (s, l) (lit "data: " ++ p)
    /\ (forall ps reads s0,
        forallb dataPayload ps = true ->
        decoded reads = List.concat (map frame ps) ->
        contentOf (forOf (onRead aid) reads (s0, locals0)) =
          Some (List.concat ps)).
Proof.
  intros aid s l p Hs He Hb c r.
  destruct (onText_frame aid s l p Hs He Hb) as [H1 H2].
  assert (Hr : r = Ok (absorb aid p (s, l))) by (subst r; now rewrite H1).
  rewrite Hr. unfold absorb. cbn [stateOf fst snd]. rewrite Hb. fold c.
  split; [reflexivity|]. split; [|split].
  - intros Ht. rewrite Ht. cbn [messages setMessages].
    split; [unfold streamingUpdate; apply length_map|].
    split; [intros i msg Hn; now apply streamingUpdate_nth|].
    intros prev content clock c0 b -> Ha ->.
    unfold streamingUpdate. rewrite map_app.
    fold (streamingUpdate (assistantMessageId clock) c prev).
    rewrite (streamingUpdate_absent _ _ _ Ha). f_equal.
    cbn [map]. rewrite user_not_assistant.
    cbn [draft id]. now rewrite eqb_refl.
  - intros Ht. now rewrite Ht.
  - destruct (truthy p) eqn:Ht; (split; [reflexivity|]); (split; [reflexivity|]);
      (split; [reflexivity|]); (split; [reflexivity|]);
      (split; [rewrite H2; unfold absorb; cbn [fst snd]; rewrite ?Hb;
               now rewrite ?Ht|]);
      intros ps reads s0 Hps Hd; now apply frames_content.
Qed.

(** A payload with leading and trailing spaces, as the first frame of a
    turn. *)
Lemma C5_data_verbatim_witness :
  onText aid0 (started0, locals0) (frame (lit "  two  words ")) =
  Ok (stateOf (onText aid0 (started0, locals0) (frame (lit "  two  words "))),
      {| decoder := TextDecoder.create;
         assistantContent := lit "  two  words ";
         buffer := [] |})
  /\ messages
       (stateOf (onText aid0 (started0, locals0) (frame (lit "  two  words ")))) =
     [userMessage (lit "hi") clock0; draft clock0 (lit "  two  words ") true].
Proof.
  pose proof (C5_data_verbatim aid0 started0 locals0 (lit "  two  words ")
                eq_refl eq_refl eq_refl) as H.
  cbv zeta in H. destruct H as (H1 & H2 & _).
  split; [exact H1|].
  destruct (H2 eq_refl) as (_ & _ & H3).
  exact (H3 [] (lit "hi") clock0 [] true eq_refl eq_refl eq_refl).
Defined.



(** C9 (frame of the streaming update).  A streaming update leaves every
    message whose id is not the draft's id as it is, at the place where
    it is, and keeps the length of the list; so does the handling of any
    read, whether it ends normally or by an exception, and the handling
    of the remaining buffer. *)
Theorem C9_other_messages_untouched :
  forall aid (prev : list Message) i msg,
    nth_error prev i = Some msg -> id msg <> aid ->
    (forall c,
        nth_error (streamingUpdate aid c prev) i = Some msg
        /\ List.length (streamingUpdate aid c prev) = List.length prev)
    /\ (forall s l value,
          messages s = prev ->
          nth_error (messages (stateOf (onRead aid (s, l) value))) i = Some msg)
    /\ (forall s l,
          messages s = prev ->
          nth_error (messages (fst (processRemaining aid (s, l)))) i = Some msg).
Proof.
  intros aid prev i msg Hn Hid. repeat split.
  - now apply streamingUpdate_other.
  - unfold streamingUpdate. apply length_map.
  - intros s l value Hs. destruct (onRead_streams aid (s, l) value) as [d ->].
    apply absorb_other; [cbn [fst]; now rewrite Hs | exact Hid].
  - intros s l Hs. rewrite processRemaining_absorb.
    apply absorb_other; [cbn [fst]; now rewrite Hs | exact Hid].
Qed.

(** The user message is where it was after a read that updates the draft. *)
Lemma C9_other_messages_untouched_witness :
  nth_error
    (messages
       (stateOf (onRead aid0 (started0, locals0)
                   (bytes "data: hello" ++ [LFb; LFb])))) 0 =
  Some (userMessage (lit "hi") clock0).
Proof.
  exact (proj1 (proj2
           (C9_other_messages_untouched aid0 (messages started0) 0
              (userMessage (lit "hi") clock0) eq_refl
              ltac:(discriminate)))
           started0 locals0 (bytes "data: hello" ++ [LFb; LFb]) eq_refl).
Defined.

(** C10 (sentinel in the remaining buffer).  When the decoded text is a
    run of complete events none of which throws, followed by an
    unterminated line "data: [ERROR] ...", and the stream ends with
    [done], the line is skipped: no error is set, the draft is kept and
    finalized with the content of the complete events, and the loading
    flag is cleared. *)
Theorem C10_trailing_error_skipped :
  forall s content clock newId reads pre m,
    refused s content = false ->
    existsb eventThrows (completeEvents pre) = false ->
    trailing pre = [] ->
    singleLine m = true ->
    decoded reads = pre ++ lit "data: " ++ lit "[ERROR]" ++ m ->
    let aid := assistantMessageId clock in
    let C := List.concat (map dataOfLines (completeEvents pre)) in
    let prev := if truthy C then streamingUpdate aid C (messages s)
                else messages s in
    let s' := handleSendMessage s content clock
                (Response newId (Some {| chunks := reads; failure := None |})) in
    messages s' =
      markComplete aid prev ++ [userMessage content clock; draft clock C false]
    /\ error s' = None
    /\ isLoading s' = false
    /\ (forall x, onRemainingLine aid x (lit "data: " ++ lit "[ERROR]" ++ m) = x).
Proof.
  intros s content clock newId reads pre m Hr Hpre Htr Hm Hd aid C prev s'.
  assert (Hline : singleLine (lit "data: " ++ lit "[ERROR]" ++ m) = true)
    by (rewrite !singleLine_app, Hm; reflexivity).
  assert (Herr : isError (lit "[ERROR]" ++ m) = true) by apply startsWith_app.
  assert (Hev : completeEvents (decoded reads) = completeEvents pre).
  { rewrite Hd, completeEvents_app by exact Htr.
    unfold completeEvents at 2. rewrite split_singleLine_nlnl by exact Hline.
    apply app_nil_r. }
  assert (Htl : dataOfLines (trailing (decoded reads)) = []).
  { rewrite Hd, trailing_app by exact Htr.
    unfold trailing. rewrite split_singleLine_nlnl by exact Hline.
    cbn [last]. rewrite dataOfLines_tagged, Herr by
      (rewrite singleLine_app, Hm; reflexivity).
    reflexivity. }
  assert (He : existsb eventThrows (completeEvents (decoded reads)) = false)
    by now rewrite Hev.
  pose proof (handle_completed s content clock newId reads Hr He) as H.
  cbv zeta in H. rewrite Hev, Htl, app_nil_r in H.
  destruct H as (H1 & H2 & H3).
  split; [exact H1|]. split; [exact H2|]. split; [exact H3|].
  intros x. rewrite onRemainingLine_absorb, dataOf_tagged, Herr.
  apply absorb_nil.
Qed.

(** Scenario D with the error frame left unterminated: the turn completes. *)
Lemma C10_trailing_error_skipped_witness :
  let s' :=
    handleSendMessage initial (lit "hi") clock0
      (Response None
         (Some {| chunks := [bytes "data: partial" ++ [LFb; LFb];
                             bytes "data: [ERROR] rate limited"];
                  failure := None |})) in
  messages s' =
    [userMessage (lit "hi") clock0; draft clock0 (lit "partial") false]
  /\ error s' = None.
Proof.
  pose proof
    (C10_trailing_error_skipped initial (lit "hi") clock0 None
       [bytes "data: partial" ++ [LFb; LFb];
        bytes "data: [ERROR] rate limited"]
       (frame (lit "partial")) (lit " rate limited")
       eq_refl eq_refl eq_refl eq_refl eq_refl) as H.
  cbv zeta in H. destruct H as (H1 & H2 & _).
  split; [exact H1 | exact H2].
Defined.

End Streaming.

(** ** The upload component *)

Section UploadFacts.

Import Upload.

Lemma lastIndexOf_dot (s : str) (i acc : Z) :
  lastIndexOf_from s (lit ".") i acc =
  match extension s with
  | Some e => (i + Z.of_nat (List.length s) - Z.of_nat (List.length e))%Z
  | None => acc
  end.
Proof.
  revert i acc; induction s as [|c s IH]; intros i acc; [reflexivity|].
  cbn [lastIndexOf_from extension]. rewrite IH.
  destruct (extension s) as [e|].
  - cbn [List.length]. lia.
  - change (startsWith (c :: s) (lit ".")) with ((46 =? c) && true).
    rewrite andb_true_r, (N.eqb_sym 46 c).
    destruct (c =? 46); [cbn [List.length]; lia | reflexivity].
Qed.

Lemma extension_suffix (s e : str) :
  extension s = Some e -> exists pre, s = pre ++ e.
Proof.
  revert e; induction s as [|c s IH]; intros e H; [discriminate|].
  cbn [extension] in H. destruct (extension s) as [e'|].
  - injection H as <-. destruct (IH e' eq_refl) as [pre ->].
    now exists (c :: pre).
  - destruct (c =? 46); [|discriminate]. injection H as <-. now exists [].
Qed.

Lemma extension_dot (s e : str) :
  extension s = Some e -> startsWith e (lit ".") = true.
Proof.
  revert e; induction s as [|c s IH]; intros e H; [discriminate|].
  cbn [extension] in H. destruct (extension s) as [e'|].
  - injection H as <-. now apply IH.
  - destruct (c =? 46) eqn:E; [|discriminate]. injection H as <-.
    apply N.eqb_eq in E. subst c. reflexivity.
Qed.

Lemma extension_none (s : str) :
  extension s = None -> startsWith s (lit ".") = false.
Proof.
  destruct s as [|c s]; [reflexivity|]. cbn [extension].
  destruct (extension s); [discriminate|].
  change (startsWith (c :: s) (lit ".")) with ((46 =? c) && true).
  rewrite andb_true_r, (N.eqb_sym 46 c). now destruct (c =? 46).
Qed.

(** Line 32 takes the name from its last dot on, or the whole name when it
    has no dot. *)
Lemma substring_lastIndexOf (name : str) :
  substring (lastIndexOf name (lit ".")) name =
  match extension name with
  | Some e => e
  | None => name
  end.
Proof.
  unfold substring, lastIndexOf. rewrite lastIndexOf_dot.
  destruct (extension name) as [e|] eqn:E; [|reflexivity].
  destruct (extension_suffix _ _ E) as [pre ->].
  rewrite length_app.
  replace (Z.to_nat (Z.max 0 (0 + Z.of_nat (List.length pre + List.length e)
                               - Z.of_nat (List.length e))))
    with (List.length pre + 0)%nat by lia.
  now rewrite skipn_app, Nat.add_0_r, skipn_all, Nat.sub_diag.
Qed.

Lemma allowedTypes_dot (x : str) :
  includes allowedTypes x = true -> startsWith x (lit ".") = true.
Proof.
  unfold includes, allowedTypes. cbn [existsb]. rewrite !orb_true_iff.
  intros [H|[H|[H|[H|H]]]]; try discriminate; apply eqb_eq in H; now subst x.
Qed.

Variable toLowerCase : str -> str.

(** Lower-casing does not make a leading dot appear. *)
Hypothesis toLowerCase_dot :
  forall s, startsWith (toLowerCase s) (lit ".") = true ->
            startsWith s (lit ".") = true.

(** The test of line 34 is the test on the extension of the name. *)
Lemma includes_fileExtension (f : File) :
  includes allowedTypes (fileExtension toLowerCase f) =
  hasAllowedExtension toLowerCase (name f).
Proof.
  unfold fileExtension, hasAllowedExtension. rewrite substring_lastIndexOf.
  destruct (extension (name f)) eqn:E; [reflexivity|].
  destruct (includes allowedTypes (toLowerCase (name f))) eqn:I; [|reflexivity].
  apply allowedTypes_dot, toLowerCase_dot in I.
  now rewrite (extension_none _ E) in I.
Qed.

Lemma validated_step (w : World) (ev : Event) :
  validated toLowerCase w -> validated toLowerCase (step toLowerCase w ev).
Proof.
  intros [Hf Hr]. destruct ev as [[f|]|[f|]| | |p|r]; cbn [step];
    try (split; assumption).
  - cbn [handleFileChange validateAndSetFile]. rewrite includes_fileExtension.
    destruct (hasAllowedExtension toLowerCase (name f)) eqn:E; cbn [negb];
      split; cbn [ui requests file setError setFile]; try assumption.
    intros f' Hf'. now injection Hf' as <-.
  - cbn [handleDrop validateAndSetFile]. rewrite includes_fileExtension.
    destruct (hasAllowedExtension toLowerCase (name f)) eqn:E; cbn [negb];
      split; cbn [ui requests file setError setFile]; try assumption.
    intros f' Hf'. now injection Hf' as <-.
  - split; cbn [ui requests clearFile file setError setFile];
      [discriminate | assumption].
  - unfold uploadStart. destruct (file (ui w)) as [f|] eqn:E.
    + split; cbn [ui requests file setError setProgress setUploading].
      * now rewrite E.
      * intros f' Hin. apply in_app_or in Hin as [Hin|[<-|[]]]; auto.
    + split; cbn [ui requests]; [now rewrite E | assumption].
  - split; cbn [ui requests]; [|assumption].
    unfold uploadSettle. destruct r as [|[m|]];
      cbn [file setUploading setProgress setFile setError];
      [discriminate | assumption | assumption].
Qed.

Lemma validated_run (evs : list Event) (w : World) :
  validated toLowerCase w -> validated toLowerCase (run toLowerCase w evs).
Proof.
  revert w; induction evs as [|ev evs IH]; intros w H; [exact H|].
  cbn [run fold_left]. apply IH, validated_step, H.
Qed.

(** C7 (upload validation).  A selected file whose name has no extension,
    or an extension that lower-cased is none of .pdf, .txt, .md, .docx, is
    refused: the error of the component becomes the unsupported-type
    message, the file it holds stays what it was (none, when nothing was
    held, so that the upload button sends nothing), and the upload flag
    and the progress are not touched.  A file with one of the four
    extensions becomes the held file, the one the upload button sends,
    and the error becomes the empty string.  Whatever the user does, every
    file handed to [uploadDocument] has an allowed extension, so a refused
    file never reaches an upload request. *)
Theorem C7_upload_validation :
  forall s f,
    (hasAllowedExtension toLowerCase (name f) = false ->
     validateAndSetFile toLowerCase s (Some f) = setError unsupported s
     /\ file (validateAndSetFile toLowerCase s (Some f)) = file s
     /\ snd (uploadStart (validateAndSetFile toLowerCase initial (Some f))) = None
     /\ error (validateAndSetFile toLowerCase s (Some f)) =
          lit "Unsupported file type. Allowed types: .pdf, .txt, .md, .docx"
     /\ uploading (validateAndSetFile toLowerCase s (Some f)) = uploading s
     /\ progress (validateAndSetFile toLowerCase s (Some f)) = progress s)
    /\ (hasAllowedExtension toLowerCase (name f) = true ->
        validateAndSetFile toLowerCase s (Some f) =
          setError [] (setFile (Some f) s)
        /\ file (validateAndSetFile toLowerCase s (Some f)) = Some f
        /\ error (validateAndSetFile toLowerCase s (Some f)) = []
        /\ uploading (validateAndSetFile toLowerCase s (Some f)) = uploading s
        /\ progress (validateAndSetFile toLowerCase s (Some f)) = progress s
        /\ snd (uploadStart (validateAndSetFile toLowerCase s (Some f))) =
             Some f)
    /\ (forall evs f',
          In f' (requests (run toLowerCase world0 evs)) ->
          hasAllowedExtension toLowerCase (name f') = true).
Proof.
  intros s f. split; [|split].
  - intros H. unfold validateAndSetFile.
    rewrite !includes_fileExtension, H. cbn [negb].
    split; [reflexivity|]. split; [reflexivity|]. split; [reflexivity|].
    split; [reflexivity|]. split; reflexivity.
  - intros H. unfold validateAndSetFile.
    rewrite !includes_fileExtension, H. cbn [negb].
    split; [reflexivity|]. split; [reflexivity|]. split; [reflexivity|].
    split; [reflexivity|]. split; reflexivity.
  - intros evs f' Hin.
    assert (H0 : validated toLowerCase world0)
      by (split; [discriminate | intros ? []]).
    destruct (validated_run evs world0 H0) as [_ Hr]. now apply Hr.
Qed.

End UploadFacts.

Lemma asciiToLowerCase_dot (s : str) :
  startsWith (Upload.asciiToLowerCase s) (lit ".") = true ->
  startsWith s (lit ".") = true.
Proof.
  destruct s as [|c s]; [discriminate|].
  unfold Upload.asciiToLowerCase. cbn [map].
  change (startsWith (c :: s) (lit ".")) with ((46 =? c) && true).
  destruct ((65 <=? c) && (c <=? 90)) eqn:E.
  - intros H. cbn [startsWith lit] in H. exfalso.
    change (((46 =? c + 32) && true) = true) in H.
    rewrite andb_true_r in H. apply N.eqb_eq in H.
    apply andb_true_iff in E as [E _]. apply N.leb_le in E. lia.
  - intros H. exact H.
Qed.

(** An executable is refused in a component that holds nothing; a PDF
    with an upper-case extension is accepted by a component that shows an
    error. *)
Lemma C7_upload_validation_witness :
  let exe := {| Upload.name := lit "setup.exe"; Upload.data := [] |} in
  let pdf := {| Upload.name := lit "Notes.v2.PDF"; Upload.data := [] |} in
  let failed :=
    {| Upload.file := None; Upload.uploading := false; Upload.progress := 0;
       Upload.error := lit "Upload failed. Please try again." |} in
  (Upload.error
     (Upload.validateAndSetFile Upload.asciiToLowerCase Upload.initial (Some exe))
   = lit "Unsupported file type. Allowed types: .pdf, .txt, .md, .docx"
   /\ Upload.file
        (Upload.validateAndSetFile Upload.asciiToLowerCase Upload.initial
           (Some exe)) = None)
  /\ (Upload.file
        (Upload.validateAndSetFile Upload.asciiToLowerCase failed (Some pdf))
      = Some pdf
      /\ Upload.error
           (Upload.validateAndSetFile Upload.asciiToLowerCase failed (Some pdf))
         = []).
Proof.
  intros exe pdf failed. split.
  - pose proof (proj1 (C7_upload_validation Upload.asciiToLowerCase
                         asciiToLowerCase_dot Upload.initial exe) eq_refl)
      as (_ & H2 & _ & H4 & _).
    split; [exact H4 | exact H2].
  - pose proof (proj1 (proj2 (C7_upload_validation Upload.asciiToLowerCase
                                asciiToLowerCase_dot failed pdf)) eq_refl)
      as (_ & H2 & H3 & _).
    split; [exact H2 | exact H3].
Defined.

(** ** One turn at a time *)

Section Turns.

Import Chat.













Lemma run_cons w ev evs : run w (ev :: evs) = run (step w ev) evs.
Proof. reflexivity. Qed.


(** *** The step machine runs [handleSendMessage] *)

Lemma run_idle w evs i :
  inFlight w = [] ->
  (forall ev, In ev evs -> ev = ReadDone i \/ exists e, ev = Rejected i e) ->
  run w evs = w.
Proof.
  intros E. induction evs as [|ev evs IH]; intros H; [reflexivity|].
  cbn [run fold_left].
  assert (Hs : step w ev = w).
  { destruct (H ev (or_introl eq_refl)) as [->|[e ->]]; cbn [step];
      rewrite E; now destruct i. }
  rewrite Hs. apply IH. intros ev' Hin. apply H. now right.
Qed.

Lemma step_read inp t s l v vi value :
  step {| ui := s; input := inp; inFlight := [reading t l];
          rendered := v; renderedInput := vi |} (ReadChunk 0 value) =
  match onRead (turnAssistantId t) (s, l) value with
  | Ok (s', l') =>
      {| ui := s'; input := inp; inFlight := [reading t l'];
         rendered := v; renderedInput := vi |}
  | Throw e s' =>
      {| ui := setIsLoading false (catchBlock (turnAssistantId t) e s');
         input := inp; inFlight := [];
         rendered := v; renderedInput := vi |}
  end.
Proof.
  cbn [step nth_error inFlight phase reading ui turnAssistantId].
  destruct (onRead (turnAssistantId t) (s, l) value) as [[s' l']|e s'];
    reflexivity.
Qed.

Lemma run_reads inp t chunks s l v vi tail :
  run {| ui := s; input := inp; inFlight := [reading t l];
         rendered := v; renderedInput := vi |}
    (map (ReadChunk 0) chunks ++ tail) =
  match forOf (onRead (turnAssistantId t)) chunks (s, l) with
  | Ok (s', l') =>
      run {| ui := s'; input := inp; inFlight := [reading t l'];
             rendered := v; renderedInput := vi |} tail
  | Throw e s' =>
      run {| ui := setIsLoading false (catchBlock (turnAssistantId t) e s');
             input := inp; inFlight := [];
             rendered := v; renderedInput := vi |} tail
  end.
Proof.
  revert s l; induction chunks as [|c chunks IH]; intros s l; [reflexivity|].
  cbn [map app forOf]. rewrite run_cons, step_read.
  destruct (onRead (turnAssistantId t) (s, l) c) as [[s1 l1]|e s1];
    cbn [andThen].
  - apply IH.
  - clear IH. induction chunks as [|c' chunks IH]; [reflexivity|].
    cbn [map app]. rewrite run_cons. exact IH.
Qed.

(** A call of the handler of a render that shows the latest state, when
    it passes the guard and is followed by the events of its reply, leaves
    the component in the state [handleSendMessage] computes, with no turn
    in flight. *)
Lemma run_handleSendMessage w content clock reply :
  inFlight w = [] -> rendered w = ui w -> refused (ui w) content = false ->
  run (call content clock w) (eventsOf 0 reply) =
  {| ui := handleSendMessage (ui w) content clock reply;
     input := input w; inFlight := [];
     rendered := rendered w; renderedInput := renderedInput w |}.
Proof.
  intros E Hv Hr. unfold call, handleSendMessage. rewrite Hv, Hr, E. cbn [app].
  destruct reply as [e|n [body|]]; cbn [eventsOf tryBlock].
  - reflexivity.
  - change (Replied 0 n true
              :: map (ReadChunk 0) (chunks body)
              ++ match failure body with
                 | Some e => [Rejected 0 e]
                 | None => [ReadDone 0]
                 end)
      with ([Replied 0 n true]
              ++ map (ReadChunk 0) (chunks body)
              ++ match failure body with
                 | Some e => [Rejected 0 e]
                 | None => [ReadDone 0]
                 end).
    unfold run. rewrite fold_left_app.
    cbn [fold_left step nth_error inFlight phase turnConversationId ui].
    unfold continueTurn.
    cbn [inFlight replaceAt input ui turnAssistantId turnConversationId
         rendered renderedInput].
    set (t := {| turnAssistantId := assistantMessageId clock;
                 turnConversationId := conversationId (ui w);
                 phase := Requesting |}).
    change {| turnAssistantId := assistantMessageId clock;
              turnConversationId := conversationId (ui w);
              phase := Reading locals0 |} with (reading t locals0).
    match goal with
    | |- fold_left step ?evs ?w0 = _ =>
        change (fold_left step evs w0) with (run w0 evs)
    end.
    rewrite (run_reads (input w) t).
    unfold readLoop. cbn [turnAssistantId t].
    destruct (forOf (onRead (assistantMessageId clock)) (chunks body)
                (adoptConversation (conversationId (ui w)) n
                   (start content clock (ui w)), locals0))
      as [[s' l']|e s']; cbn [andThen].
    + destruct (failure body) as [e|]; reflexivity.
    + apply (run_idle _ _ 0); [reflexivity|].
      intros ev Hin. destruct (failure body) as [e'|];
        destruct Hin as [<-|[]]; eauto.
  - reflexivity.
Qed.




End Turns.

(** * Further properties of the chat component *)

Section TrimFacts.

Lemma trimStart_idem (s : str) : trimStart (trimStart s) = trimStart s.
Proof.
  induction s as [|c s IH]; [reflexivity|]. cbn [trimStart].
  destruct (isWhiteSpace c) eqn:E; [exact IH|]. cbn [trimStart]. now rewrite E.
Qed.

Lemma trimStart_snoc (a : str) (c : N) :
  isWhiteSpace c = false -> trimStart (a ++ [c]) = trimStart a ++ [c].
Proof.
  intros Hc. induction a as [|x a IH]; cbn [app trimStart].
  - now rewrite Hc.
  - destruct (isWhiteSpace x); [exact IH | reflexivity].
Qed.

Lemma trimStart_length (s : str) :
  (List.length (trimStart s) <= List.length s)%nat.
Proof.
  induction s as [|c s IH]; cbn [trimStart]; [lia|].
  destruct (isWhiteSpace c); cbn [List.length]; lia.
Qed.

(** A string that [trimStart] leaves alone is empty or starts with a code
    unit that is no white space. *)
Lemma trimStart_fixed (c : N) (s : str) :
  trimStart (c :: s) = c :: s -> isWhiteSpace c = false.
Proof.
  cbn [trimStart]. destruct (isWhiteSpace c); [|reflexivity].
  intros H. pose proof (trimStart_length s) as Hl. rewrite H in Hl.
  cbn [List.length] in Hl. lia.
Qed.

Lemma trimStart_trimEnd (t : str) :
  trimStart t = t -> trimStart (trimEnd t) = trimEnd t.
Proof.
  destruct t as [|c t]; [reflexivity|]. intros H.
  apply trimStart_fixed in H. unfold trimEnd. cbn [rev].
  rewrite trimStart_snoc by exact H. rewrite rev_app_distr. cbn [rev app].
  cbn [trimStart]. now rewrite H.
Qed.

Lemma trimEnd_idem (s : str) : trimEnd (trimEnd s) = trimEnd s.
Proof. unfold trimEnd. now rewrite rev_involutive, trimStart_idem. Qed.

(** Trimming twice is trimming once. *)
Lemma trim_idem (s : str) : trim (trim s) = trim s.
Proof.
  unfold trim.
  rewrite (trimStart_trimEnd (trimStart s)) by apply trimStart_idem.
  apply trimEnd_idem.
Qed.

End TrimFacts.

Section MoreChat.

Import Chat MessageInput.

(** X1 (what the input box dispatches).  [handleKeyDown] hands a content to
    [onSendMessage] only on Enter without Shift, with no turn loading and
    the send button enabled; the content is the trimmed input, the input is
    cleared, and [handleSendMessage] never refuses that content for being
    blank: it refuses it only while loading.  When nothing is dispatched the
    input keeps its value. *)
Theorem X1_dispatch :
  (forall key shiftKey input isLoading prevented content input',
      handleKeyDown key shiftKey input isLoading = (prevented, Some content, input') ->
      key = lit "Enter" /\ shiftKey = false /\ isLoading = false
      /\ prevented = true
      /\ sendDisabled input isLoading = false
      /\ content = trim input /\ input' = []
      /\ forall s, refused s content = Chat.isLoading s)
  /\ (forall key shiftKey input isLoading prevented input',
        handleKeyDown key shiftKey input isLoading = (prevented, None, input') ->
        input' = input).
Proof.
  split.
  - intros key shiftKey input isLoading prevented content input' H.
    unfold handleKeyDown, handleSend in H.
    destruct (eqb key (lit "Enter") && negb shiftKey) eqn:Ek; [|discriminate].
    apply andb_true_iff in Ek as [Ek Es]. apply eqb_eq in Ek.
    apply negb_true_iff in Es.
    destruct (truthy (trim input) && negb isLoading) eqn:Et; [|discriminate].
    apply andb_true_iff in Et as [Et El]. apply negb_true_iff in El.
    injection H as <- <- <-. subst.
    repeat split.
    + unfold sendDisabled. now rewrite Et.
    + intros s. unfold refused. now rewrite trim_idem, Et.
  - intros key shiftKey input isLoading prevented input' H.
    unfold handleKeyDown, handleSend in H.
    destruct (eqb key (lit "Enter") && negb shiftKey).
    + destruct (truthy (trim input) && negb isLoading); [discriminate|].
      now injection H as _ <-.
    + now injection H as _ <-.
Qed.

(** Enter on an input with spaces around one word. *)
Lemma X1_dispatch_witness :
  handleKeyDown (lit "Enter") false (lit "  hi ") false = (true, Some (lit "hi"), [])
  /\ refused initial (lit "hi") = false.
Proof.
  assert (H : handleKeyDown (lit "Enter") false (lit "  hi ") false =
              (true, Some (lit "hi"), [])) by reflexivity.
  split; [exact H|].
  destruct (proj1 X1_dispatch _ _ _ _ _ _ _ H) as (_ & _ & _ & _ & _ & _ & _ & Hr).
  exact (Hr initial).
Defined.

Lemma markComplete_absent aid (l : list Message) :
  absent aid l = true -> markComplete aid l = l.
Proof.
  intros H. unfold markComplete. rewrite <- (map_id l) at 2.
  apply map_ext_in. intros m Hin. now rewrite (forallb_absent _ _ H m Hin).
Qed.

Lemma removeAssistant_absent aid (l : list Message) :
  absent aid l = true -> removeAssistant aid l = l.
Proof.
  intros H. unfold removeAssistant. induction l as [|m l IH]; [reflexivity|].
  cbn [absent forallb] in H. apply andb_true_iff in H as [Hm Hl].
  cbn [filter]. rewrite Hm. f_equal. now apply IH.
Qed.

Lemma conversationId_absorb aid data x :
  conversationId (fst (absorb aid data x)) = conversationId (fst x).
Proof. unfold absorb. cbn [fst]. now destruct (truthy data). Qed.

Lemma pushed_absorb aid data x :
  pushed (fst (absorb aid data x)) = pushed (fst x).
Proof. unfold absorb. cbn [fst]. now destruct (truthy data). Qed.

(** How the [try] block ends on a response with a body: normally, after
    streaming some data and marking the draft complete, or by an exception
    after streaming some data. *)
Lemma tryBlock_body s content clock n body :
  exists data,
    let aid := assistantMessageId clock in
    let streamed :=
      fst (absorb aid data
             (adoptConversation (conversationId s) n (start content clock s),
              locals0)) in
    tryBlock aid (conversationId s) (Response n (Some body))
      (start content clock s) = Ok (setMessages (markComplete aid) streamed)
    \/ exists e,
         tryBlock aid (conversationId s) (Response n (Some body))
           (start content clock s) = Throw e streamed.
Proof.
  cbn [tryBlock]. unfold readLoop. rewrite reads_events.
  match goal with
  | |- context [forOf (onEvent ?aid) ?evs ?x] =>
      destruct (streams_forOf aid (onEvent aid) (streams_onEvent aid) evs x)
        as [d Hd];
      destruct (forOf (onEvent aid) evs x) as [x'|e s']
  end; cbn [mapOk andThen].
  - subst x'. destruct (failure body) as [e|].
    + exists d. right. exists e. reflexivity.
    + exists (d ++ dataOfLines (trailing (decoded (chunks body)))). left.
      rewrite processRemaining_absorb. cbn [reframe snd buffer].
      rewrite <- absorb_absorb. reflexivity.
  - exists d. right. exists e. now subst s'.
Qed.

(** X2 (how a turn ends).  When no earlier message has the id of the new
    draft, a call that passes the guard ends with the loading flag cleared
    and with the earlier messages as they were, followed either by the user
    message and a draft that is marked complete, with no error set, or by
    the user message alone, with an error set. *)
Theorem X2_turn_outcome :
  forall s content clock reply,
    refused s content = false ->
    absent (assistantMessageId clock) (messages s) = true ->
    let s' := handleSendMessage s content clock reply in
    isLoading s' = false
    /\ ((error s' = None
         /\ exists C,
              messages s' =
              messages s ++ [userMessage content clock; draft clock C false])
        \/ (exists m, error s' = Some m)
           /\ messages s' = messages s ++ [userMessage content clock]).
Proof.
  intros s content clock reply Hr Ha s'. subst s'.
  unfold handleSendMessage. rewrite Hr. cbv zeta.
  split; [reflexivity|].
  assert (Hcaught : forall e data,
             messages
               (setIsLoading false
                  (catchBlock (assistantMessageId clock) e
                     (fst (absorb (assistantMessageId clock) data
                             (adoptConversation (conversationId s)
                                (match reply with
                                 | Response n _ => n
                                 | RequestFails _ => None
                                 end) (start content clock s), locals0))))) =
             messages s ++ [userMessage content clock]).
  { intros e data. cbn [messages setIsLoading].
    rewrite messages_caught. now rewrite removeAssistant_absent. }
  destruct reply as [e|n [body|]].
  - right. cbn [tryBlock]. split; [eexists; reflexivity|].
    specialize (Hcaught e []). now rewrite absorb_nil in Hcaught.
  - destruct (tryBlock_body s content clock n body) as [data [H|[e H]]];
      cbv zeta in H; rewrite H.
    + left. split.
      * cbn [error setIsLoading setMessages].
        rewrite error_absorb. cbn [fst]. now rewrite error_adopt.
      * exists data. cbn [messages setIsLoading setMessages].
        rewrite messages_streamed by reflexivity.
        rewrite markComplete_draft. f_equal.
        destruct (truthy data);
          [rewrite streamingUpdate_absent by exact Ha|];
          now apply markComplete_absent.
    + right. split; [eexists; reflexivity|]. apply (Hcaught e data).
  - right. cbn [tryBlock]. split; [eexists; reflexivity|].
    specialize (Hcaught (ErrorObj (lit "No response body")) []).
    now rewrite absorb_nil in Hcaught.
Qed.

(** A first turn whose stream breaks off with a rejected read. *)
Lemma X2_turn_outcome_witness :
  let s' :=
    handleSendMessage initial (lit "hi") clock0
      (Response None
         (Some {| chunks := [bytes "data: par"];
                  failure := Some (ErrorObj (lit "network error")) |})) in
  isLoading s' = false
  /\ messages s' = [userMessage (lit "hi") clock0].
Proof.
  pose proof
    (X2_turn_outcome initial (lit "hi") clock0
       (Response None
          (Some {| chunks := [bytes "data: par"];
                   failure := Some (ErrorObj (lit "network error")) |}))
       eq_refl eq_refl) as H.
  cbv zeta in H. destruct H as [H1 _]. split; [exact H1 | reflexivity].
Defined.

End MoreChat.

Section MoreReceiver.

Import Chat.





(** X4 (adopting a conversation id).  A call that passes the guard changes
    the conversation id and navigates only in one case: the state held no
    id and the response carries a non-empty one; then that id is stored and
    the URL of the conversation is pushed once, whether or not the rest of
    the turn succeeds.  A state that holds an id keeps it, a failed request
    changes neither, and neither does a response whose header is missing
    or empty. *)
Theorem X4_conversation_adoption :
  forall s content clock reply,
    refused s content = false ->
    let s' := handleSendMessage s content clock reply in
    (truthyOpt (conversationId s) = true ->
     conversationId s' = conversationId s /\ pushed s' = pushed s)
    /\ (forall e, reply = RequestFails e ->
        conversationId s' = conversationId s /\ pushed s' = pushed s)
    /\ (forall c body,
        truthyOpt (conversationId s) = false -> truthy c = true ->
        reply = Response (Some c) body ->
        conversationId s' = Some c
        /\ pushed s' = pushed s ++ [lit "/chat?conversation=" ++ c])
    /\ (forall n body,
        reply = Response n body -> truthyOpt n = false ->
        conversationId s' = conversationId s /\ pushed s' = pushed s).
Proof.
  intros s content clock reply Hr s'.
  assert (H : conversationId s' =
              conversationId
                (match reply with
                 | RequestFails _ => s
                 | Response n _ => adoptConversation (conversationId s) n s
                 end)
              /\ pushed s' =
                 pushed
                   (match reply with
                    | RequestFails _ => s
                    | Response n _ => adoptConversation (conversationId s) n s
                    end)).
  { subst s'. unfold handleSendMessage. rewrite Hr. cbv zeta.
    assert (Ha : forall n,
               conversationId (adoptConversation (conversationId s) n
                                 (start content clock s)) =
               conversationId (adoptConversation (conversationId s) n s)
               /\ pushed (adoptConversation (conversationId s) n
                            (start content clock s)) =
                  pushed (adoptConversation (conversationId s) n s)).
    { intros n. unfold adoptConversation. destruct n as [c|]; [|now split].
      destruct (truthy c && negb (truthyOpt (conversationId s))); now split. }
    destruct reply as [e|n [body|]].
    - now split.
    - destruct (tryBlock_body s content clock n body) as [data [H|[e H]]];
        cbv zeta in H; rewrite H;
        cbn [conversationId pushed setIsLoading setMessages catchBlock setError];
        rewrite conversationId_absorb, pushed_absorb; cbn [fst]; apply Ha.
    - cbn [tryBlock conversationId pushed setIsLoading setMessages catchBlock
             setError]. apply Ha. }
  destruct H as [Hc Hp]. rewrite Hc, Hp. clear Hc Hp.
  split; [|split; [|split]].
  - intros Ht. destruct reply as [e|n body]; [now split|].
    unfold adoptConversation. destruct n as [c|]; [|now split].
    rewrite Ht, andb_false_r. now split.
  - intros e ->. now split.
  - intros c body Hn Hc ->. unfold adoptConversation. rewrite Hc, Hn.
    now split.
  - intros n body -> Hn. unfold adoptConversation. destruct n as [c|];
      [|now split]. cbn [truthyOpt] in Hn. rewrite Hn. now split.
Qed.

(** A first turn whose response names the conversation but has no body. *)
Lemma X4_conversation_adoption_witness :
  let s' := handleSendMessage initial (lit "hi") clock0
              (Response (Some (lit "c42")) None) in
  conversationId s' = Some (lit "c42")
  /\ pushed s' = [lit "/chat?conversation=c42"]
  /\ error s' = Some (lit "No response body").
Proof.
  pose proof (X4_conversation_adoption initial (lit "hi") clock0
                (Response (Some (lit "c42")) None) eq_refl) as H.
  cbv zeta in H. destruct H as (_ & _ & H & _).
  destruct (H (lit "c42") None eq_refl eq_refl eq_refl) as [H1 H2].
  split; [exact H1 | split; [exact H2 | reflexivity]].
Defined.

(** X6 (how the updates of the message list compose).  A later streaming
    update overrides an earlier one; a streaming update and the final
    update keep the ids, roles and timestamps of all messages, hence their
    number and order; the final update keeps every content and is
    idempotent; removing the draft after any streaming update is removing
    it before. *)
Theorem X6_updates_compose :
  forall aid c1 c2 (l : list Message),
    streamingUpdate aid c2 (streamingUpdate aid c1 l) = streamingUpdate aid c2 l
    /\ map id (streamingUpdate aid c1 l) = map id l
    /\ map role (streamingUpdate aid c1 l) = map role l
    /\ map timestamp (streamingUpdate aid c1 l) = map timestamp l
    /\ map id (markComplete aid l) = map id l
    /\ map role (markComplete aid l) = map role l
    /\ map timestamp (markComplete aid l) = map timestamp l
    /\ map content (markComplete aid l) = map content l
    /\ markComplete aid (markComplete aid l) = markComplete aid l
    /\ markComplete aid (streamingUpdate aid c1 l) =
       map (fun msg =>
              if eqb (id msg) aid
              then {| id := id msg; role := role msg; content := c1;
                      timestamp := timestamp msg; isStreaming := Some false |}
              else msg) l
    /\ removeAssistant aid (streamingUpdate aid c1 l) = removeAssistant aid l.
Proof.
  intros aid c1 c2 l.
  split; [apply streamingUpdate_twice|].
  unfold streamingUpdate, markComplete. rewrite !map_map.
  repeat split;
    try (apply map_ext; intros m; destruct (eqb (id m) aid) eqn:E;
         cbn [id role timestamp content]; rewrite ?E; reflexivity).
  apply removeAssistant_streamingUpdate.
Qed.

End MoreReceiver.

Section MoreTurns.

Import Chat.

Lemma absent_stored aid (history : list Message) :
  absent aid (map stored history) = absent aid history.
Proof.
  unfold absent. induction history as [|m l IH]; [reflexivity|].
  cbn [map forallb stored id]. now rewrite IH.
Qed.

Lemma messages_absorb_absent aid data x :
  absent aid (messages (fst x)) = true ->
  messages (fst (absorb aid data x)) = messages (fst x).
Proof.
  intros H. unfold absorb. cbn [fst]. destruct (truthy data); [|reflexivity].
  cbn [messages setMessages]. now apply streamingUpdate_absent.
Qed.

(** On a list without the draft, no sequence of reads changes the
    messages. *)
Lemma reads_absent aid chunks x :
  absent aid (messages (fst x)) = true ->
  messages (stateOf (forOf (onRead aid) chunks x)) = messages (fst x).
Proof.
  revert x; induction chunks as [|c chunks IH]; intros x H; [reflexivity|].
  cbn [forOf]. destruct (onRead_streams aid x c) as [d Hd].
  pose proof (messages_absorb_absent aid d x H) as Hm. rewrite <- Hd in Hm.
  destruct (onRead aid x c) as [x1|e s1]; cbn [andThen stateOf] in *.
  - rewrite IH; [exact Hm | now rewrite Hm].
  - exact Hm.
Qed.

(** X5 (a history load during a turn).  When [loadConversationHistory]
    stores a history that holds no message with the id of the draft while a
    turn is reading its stream, nothing the rest of the turn does shows in
    the list: whatever is read afterwards, and whether the stream ends with
    [done] or with a rejected read, the messages at the end of the turn are
    the stored history and nothing else, so the streamed answer is not in
    the list. *)
Theorem X5_history_replaces_draft :
  forall inp t l s v vi history chunks last,
    absent (turnAssistantId t) history = true ->
    (last = ReadDone 0 \/ exists e, last = Rejected 0 e) ->
    let w := {| ui := s; input := inp; inFlight := [reading t l];
                rendered := v; renderedInput := vi |} in
    let w' :=
      run w (HistoryLoaded (Some history)
               :: map (ReadChunk 0) chunks ++ [last]) in
    messages (ui w') = map stored history
    /\ inFlight w' = []
    /\ isLoading (ui w') = false.
Proof.
  intros inp t l s v vi history chunks last Ha Hlast w w'. subst w w'.
  rewrite run_cons. cbn [step ui input inFlight rendered renderedInput].
  rewrite run_reads.
  set (s1 := historyLoaded (Some history) s).
  assert (H1 : messages s1 = map stored history) by reflexivity.
  assert (Habs : absent (turnAssistantId t) (messages (fst (s1, l))) = true)
    by (cbn [fst]; now rewrite H1, absent_stored).
  pose proof (reads_absent (turnAssistantId t) chunks (s1, l) Habs) as Hm.
  cbn [fst] in Hm. rewrite H1 in Hm.
  destruct (forOf (onRead (turnAssistantId t)) chunks (s1, l))
    as [[s2 l2]|e s2]; cbn [stateOf fst] in Hm.
  - assert (Ha2 : absent (turnAssistantId t) (messages s2) = true)
      by now rewrite Hm, absent_stored.
    destruct Hlast as [->|[e ->]]; rewrite run_cons;
      cbn [run fold_left step nth_error inFlight phase reading ui removeAt
             failTurn turnAssistantId input].
    + repeat split. cbn [messages setIsLoading setMessages].
      rewrite processRemaining_absorb, messages_absorb_absent by exact Ha2.
      cbn [fst]. now rewrite markComplete_absent, Hm.
    + repeat split. cbn [messages setIsLoading catchBlock setMessages setError].
      now rewrite removeAssistant_absent, Hm.
  - assert (Ha2 : absent (turnAssistantId t) (messages s2) = true)
      by now rewrite Hm, absent_stored.
    rewrite (run_idle _ [last] 0); [|reflexivity|].
    + cbn [ui inFlight]. repeat split.
      cbn [messages setIsLoading catchBlock setMessages setError].
      now rewrite removeAssistant_absent, Hm.
    + intros ev [<-|[]]. exact Hlast.
Qed.

(** The history of another conversation arrives after the first read. *)
Lemma X5_history_replaces_draft_witness :
  messages
    (ui (run world0
           [Called (lit "hi") clock0;
            Replied 0 (Some (lit "c1")) true;
            ReadChunk 0 (bytes "data: Hel" ++ [LFb; LFb]);
            HistoryLoaded (Some [userMessage (lit "old") clock0]);
            ReadChunk 0 (bytes "data: lo" ++ [LFb; LFb]);
            ReadDone 0])) =
  [stored (userMessage (lit "old") clock0)].
Proof.
  set (w1 := run world0
               [Called (lit "hi") clock0; Replied 0 (Some (lit "c1")) true;
                ReadChunk 0 (bytes "data: Hel" ++ [LFb; LFb])]).
  assert (Hw : exists s l t,
             w1 = {| ui := s; input := []; inFlight := [reading t l];
                     rendered := initial; renderedInput := [] |}
             /\ turnAssistantId t = aid0).
  { eexists _, _, {| turnAssistantId := aid0; turnConversationId := None;
                     phase := Requesting |}. split; reflexivity. }
  destruct Hw as (s & l & t & Hw & Ht).
  change (messages
            (ui (run w1
                   (HistoryLoaded (Some [userMessage (lit "old") clock0])
                      :: map (ReadChunk 0) [bytes "data: lo" ++ [LFb; LFb]]
                      ++ [ReadDone 0]))) =
          [stored (userMessage (lit "old") clock0)]).
  rewrite Hw.
  refine (proj1 (X5_history_replaces_draft [] t l s initial []
                   [userMessage (lit "old") clock0]
                   [bytes "data: lo" ++ [LFb; LFb]] (ReadDone 0) _
                   (or_introl eq_refl))).
  rewrite Ht. reflexivity.
Defined.

Lemma lit_inj (a b : string) : lit a = lit b -> a = b.
Proof.
  unfold lit. intros H.
  rewrite <- (string_of_list_ascii_of_string a),
          <- (string_of_list_ascii_of_string b).
  f_equal. revert H. generalize (list_ascii_of_string a) (list_ascii_of_string b).
  intros la. induction la as [|x la IH]; intros [|y lb] H; try discriminate;
    [reflexivity|].
  cbn [map] in H. injection H as Hx Hl.
  f_equal; [|now apply IH].
  rewrite <- (ascii_N_embedding x), <- (ascii_N_embedding y). now f_equal.
Qed.

(** The decimal text of a number determines the number. *)
Lemma numToString_inj (n n' : N) : numToString n = numToString n' -> n = n'.
Proof.
  unfold numToString. intros H. apply lit_inj in H.
  apply DecimalN.Unsigned.to_uint_inj.
  assert (Hn : forall m, N.to_uint m <> Decimal.Nil).
  { intros [|p]; [discriminate | apply DecimalPos.Unsigned.to_uint_nonnil]. }
  pose proof (NilZero.usu _ (Hn n)) as H1.
  pose proof (NilZero.usu _ (Hn n')) as H2.
  rewrite H in H1. rewrite H1 in H2. now injection H2.
Qed.

(** X7 (message ids).  Drafts created at different values of [Date.now()]
    have different ids, and so do user messages; the id of a user message is
    never the id of a draft.  So the updates of a turn, which go by the id
    of its draft, can only reach a message of an earlier turn whose draft
    was created in the same millisecond. *)
Theorem X7_ids_by_time :
  forall clock clock' content content',
    (assistantNow clock <> assistantNow clock' ->
     assistantMessageId clock <> assistantMessageId clock')
    /\ (userNow clock <> userNow clock' ->
        id (userMessage content clock) <> id (userMessage content' clock'))
    /\ id (userMessage content clock) <> assistantMessageId clock'
    /\ (assistantNow clock <> assistantNow clock' ->
        absent (assistantMessageId clock')
          [userMessage content clock; draft clock content' false] = true).
Proof.
  intros clock clock' content content'.
  assert (H1 : assistantNow clock <> assistantNow clock' ->
               assistantMessageId clock <> assistantMessageId clock').
  { intros Hn H. apply Hn. unfold assistantMessageId in H.
    apply app_inv_head in H. now apply numToString_inj. }
  split; [exact H1|]. split; [|split].
  - intros Hn H. apply Hn. cbn [userMessage id] in H.
    apply app_inv_head in H. now apply numToString_inj.
  - apply eqb_neq, user_not_assistant.
  - intros Hn. unfold absent. cbn [forallb]. rewrite user_not_assistant.
    cbn [draft id]. apply H1, eqb_neq in Hn. now rewrite Hn.
Qed.

Lemma X7_ids_by_time_witness :
  assistantMessageId clock0 <>
  assistantMessageId
    {| userNow := 1700000000500; userTime := []; assistantNow := 1700000000501;
       assistantTime := [] |}.
Proof.
  refine (proj1 (X7_ids_by_time clock0
                   {| userNow := 1700000000500; userTime := [];
                      assistantNow := 1700000000501; assistantTime := [] |}
                   [] []) _).
  discriminate.
Defined.

(** X8 (what a failed turn shows).  A call that passes the guard and fails
    before or while reading ends with the draft removed and the user
    message kept: when [sendChatMessage] rejects, the error shown is the
    message of the [Error], or "Failed to send message" for any other
    thrown value; a response without body shows "No response body"; and
    when a read is rejected after reads that did not throw, the error of
    that read is shown and everything streamed before it goes with the
    draft. *)
Theorem X8_failures_shown :
  forall s content clock,
    refused s content = false ->
    let ended := handleSendMessage s content clock in
    let kept := removeAssistant (assistantMessageId clock) (messages s)
                  ++ [userMessage content clock] in
    (forall e,
        error (ended (RequestFails e)) = Some (shown e)
        /\ messages (ended (RequestFails e)) = kept)
    /\ (forall n,
        error (ended (Response n None)) = Some (lit "No response body")
        /\ messages (ended (Response n None)) = kept)
    /\ (forall n reads e,
        existsb eventThrows (completeEvents (decoded reads)) = false ->
        let reply := Response n (Some {| chunks := reads; failure := Some e |}) in
        error (ended reply) = Some (shown e) /\ messages (ended reply) = kept).
Proof.
  intros s content clock Hr ended kept. subst ended kept.
  unfold handleSendMessage. rewrite Hr. cbv zeta.
  split; [|split].
  - intros e. cbn [tryBlock]. split; [now destruct e|].
    cbn [messages setIsLoading].
    pose proof (messages_caught content clock (conversationId s) None [] e
                  locals0 s) as H.
    now rewrite absorb_nil in H.
  - intros n. cbn [tryBlock]. split; [reflexivity|].
    cbn [messages setIsLoading].
    pose proof (messages_caught content clock (conversationId s) n []
                  (ErrorObj (lit "No response body")) locals0 s) as H.
    now rewrite absorb_nil in H.
  - intros n reads e He. cbn [tryBlock]. unfold readLoop. cbn [chunks failure].
    rewrite reads_events, (events_ok _ _ _ He). cbn [mapOk andThen reframe fst].
    split; [now destruct e|].
    cbn [messages setIsLoading]. apply messages_caught.
Qed.

(** A stream that delivers a frame and then breaks. *)
Lemma X8_failures_shown_witness :
  let s' :=
    handleSendMessage initial (lit "hi") clock0
      (Response None
         (Some {| chunks := [bytes "data: partial" ++ [LFb; LFb]];
                  failure := Some OtherValue |})) in
  error s' = Some (lit "Failed to send message")
  /\ messages s' = [userMessage (lit "hi") clock0].
Proof.
  pose proof (X8_failures_shown initial (lit "hi") clock0 eq_refl) as H.
  cbv zeta in H. destruct H as (_ & _ & H).
  exact (H None [bytes "data: partial" ++ [LFb; LFb]] OtherValue eq_refl).
Defined.

End MoreTurns.

(** * The client calls *)

Section ApiFacts.

Import Chat Api.

Lemma getItem_removeItem (st : Storage) (key : str) :
  getItem (removeItem st key) key = None.
Proof.
  unfold removeItem. induction st as [|[k v] st IH]; [reflexivity|].
  cbn [filter fst]. destruct (eqb k key) eqn:E; cbn [negb]; [exact IH|].
  cbn [getItem]. now rewrite E.
Qed.

Lemma getItem_removeItem_other (st : Storage) (key key' : str) :
  eqb key' key = false ->
  getItem (removeItem st key) key' = getItem st key'.
Proof.
  intros Hk. unfold removeItem. induction st as [|[k v] st IH]; [reflexivity|].
  cbn [filter fst getItem]. destruct (eqb k key) eqn:E; cbn [negb].
  - apply eqb_eq in E. subst k. rewrite IH.
    destruct (eqb key key') eqn:E'; [|reflexivity].
    apply eqb_eq in E'. subst key'. now rewrite eqb_refl in Hk.
  - cbn [getItem]. now rewrite IH.
Qed.

Lemma getItem_setItem (st : Storage) (key value : str) :
  getItem (setItem st key value) key = Some value.
Proof. unfold setItem. cbn [getItem]. now rewrite eqb_refl. Qed.

Lemma getItem_setItem_other (st : Storage) (key key' value : str) :
  eqb key' key = false ->
  getItem (setItem st key value) key' = getItem st key'.
Proof.
  intros Hk. unfold setItem. cbn [getItem].
  destruct (eqb key key') eqn:E.
  - apply eqb_eq in E. subst key'. now rewrite eqb_refl in Hk.
  - now apply getItem_removeItem_other.
Qed.

Lemma getToken_removeToken (w : Window) : getToken (removeToken w) = None.
Proof. destruct w as [st|]; [apply getItem_removeItem | reflexivity]. Qed.

Lemma authenticatedFetch_sendable (base : str) (te : str -> str) (w : Window)
    (endpoint method : str) :
  sendable w = true ->
  authenticatedFetch base te w endpoint method =
  Returns {| url := base ++ endpoint; method := method;
             authorization := authorizationOf w; fields := [] |}.
Proof.
  unfold sendable, authenticatedFetch, authorizationOf.
  destruct (getToken w) as [token|]; [|reflexivity].
  destruct (truthy token); [|reflexivity]. now intros ->.
Qed.

Lemma authenticatedFetch_unsendable (base : str) (te : str -> str) (w : Window)
    (endpoint method : str) :
  sendable w = false ->
  exists token,
    getToken w = Some token
    /\ authenticatedFetch base te w endpoint method =
       Throws (ErrorObj (te (bearer token))).
Proof.
  unfold sendable, authenticatedFetch.
  destruct (getToken w) as [token|]; [|discriminate].
  destruct (truthy token); [|discriminate].
  intros ->. now exists token.
Qed.

Variable API_BASE_URL : str.
Variable headersError : str -> str.

(** X9 (the chat request and the stored token).  A call that the guard
    refuses makes no request.  Without a stored token, or with an empty
    one, [sendChatMessage] throws before any request is made and the turn
    ends with the error "Not authenticated", the draft removed and the
    conversation id unchanged.  With a token, exactly one POST to the chat
    endpoint is made, carrying the token as bearer, the content as message
    and the conversation id of the state, or [null] when the state holds
    none. *)
Theorem X9_chat_request :
  forall w s content clock f,
    let '(requests, s') := App.chatTurn API_BASE_URL w s content clock f in
    (refused s content = true -> requests = [] /\ s' = s)
    /\ (refused s content = false -> truthyOpt (getToken w) = false ->
        requests = []
        /\ error s' = Some (lit "Not authenticated")
        /\ messages s' =
             removeAssistant (assistantMessageId clock) (messages s)
               ++ [userMessage content clock]
        /\ isLoading s' = false
        /\ conversationId s' = conversationId s)
    /\ (forall token,
        refused s content = false -> getToken w = Some token ->
        truthy token = true ->
        requests =
          [{| url := API_BASE_URL ++ lit "/api/chat/";
              method := lit "POST";
              authorization := Some (lit "Bearer " ++ token);
              fields :=
                [(lit "message", Some content);
                 (lit "conversation_id",
                  if truthyOpt (conversationId s) then conversationId s
                  else None)] |}]).
Proof.
  intros w s content clock f. unfold App.chatTurn.
  destruct (refused s content) eqn:Hr.
  - split; [now split|]. split; intros; discriminate.
  - destruct (sendChatMessage API_BASE_URL w content (conversationId s) f)
      as [requests reply] eqn:Es.
    split; [discriminate|]. unfold sendChatMessage in Es. split.
    + intros _ Ht.
      assert (E : requests = []
                  /\ reply = RequestFails (ErrorObj (lit "Not authenticated"))).
      { destruct (getToken w) as [token|]; cbn [truthyOpt] in Ht;
          [rewrite Ht in Es|]; injection Es as <- <-; now split. }
      destruct E as [-> ->]. split; [reflexivity|].
      unfold handleSendMessage. rewrite Hr. cbv zeta. cbn [tryBlock].
      repeat split. cbn [messages setIsLoading].
      pose proof (messages_caught content clock (conversationId s) None []
                    (ErrorObj (lit "Not authenticated")) locals0 s) as H.
      now rewrite absorb_nil in H.
    + intros token _ Hg Ht. rewrite Hg, Ht in Es. now injection Es as <- _.
Qed.

(** X10 (the URL of the history request).  [getChatHistory] builds its URL
    with the base URL and hands it to [authenticatedFetch], which puts the
    base URL in front of what it is given: every request that
    [loadConversationHistory] makes goes to the base URL twice followed by
    the path, and it makes one unless the stored token stops
    [authenticatedFetch]; then it makes none and ends as on a failure.
    The base URL is never empty, whatever the environment holds, so this
    is never the base URL followed by the path; [getDocuments], when it
    makes its request, asks for the base URL followed by its path. *)
Theorem X10_history_url :
  forall env w c f fd s,
    truthy c = true ->
    let base := apiBaseUrl env in
    let path := lit "/api/chat/history?conversation_id=" ++ c in
    (forall r,
       In r (fst (App.loadConversationHistory base headersError w c f s)) ->
       url r = base ++ base ++ path)
    /\ (sendable w = true ->
        map url (fst (App.loadConversationHistory base headersError w c f s)) =
          [base ++ base ++ path]
        /\ map url (fst (getDocuments base headersError w fd)) =
             [base ++ lit "/api/documents/"])
    /\ (sendable w = false ->
        App.loadConversationHistory base headersError w c f s =
          ([], historyFailed s)
        /\ fst (getDocuments base headersError w fd) = [])
    /\ base ++ base ++ path <> base ++ path.
Proof.
  intros env w c f fd s Hc base path.
  assert (Hyes : sendable w = true ->
            map url (fst (App.loadConversationHistory base headersError w c f s)) =
              [base ++ base ++ path]
            /\ map url (fst (getDocuments base headersError w fd)) =
                 [base ++ lit "/api/documents/"]).
  { intros Hw. unfold App.loadConversationHistory, getChatHistory, getDocuments.
    rewrite Hc.
    rewrite (authenticatedFetch_sendable base headersError w _ _ Hw).
    rewrite (authenticatedFetch_sendable base headersError w _ _ Hw).
    destruct f as [e|st b|[e|h]]; now split. }
  assert (Hno : sendable w = false ->
            App.loadConversationHistory base headersError w c f s =
              ([], historyFailed s)
            /\ fst (getDocuments base headersError w fd) = []).
  { intros Hw. unfold App.loadConversationHistory, getChatHistory, getDocuments.
    rewrite Hc.
    destruct (authenticatedFetch_unsendable base headersError w
                (base ++ path) (lit "GET") Hw) as (token & Hg & E).
    subst path. rewrite E.
    destruct (authenticatedFetch_unsendable base headersError w
                (lit "/api/documents/") (lit "GET") Hw) as (token' & _ & E').
    rewrite E'. now split. }
  split; [|split; [exact Hyes|split; [exact Hno|]]].
  - intros r Hin. destruct (sendable w) eqn:Hw.
    + destruct (Hyes eq_refl) as [H _].
      destruct (fst (App.loadConversationHistory base headersError w c f s))
        as [|r0 [|r1 rs]]; try discriminate.
      destruct Hin as [<-|[]]. now injection H.
    + destruct (Hno eq_refl) as [H _]. rewrite H in Hin. destruct Hin.
  - intros H. apply app_inv_head in H.
    apply (f_equal (@List.length N)) in H. rewrite length_app in H.
    assert (Hb : base <> []).
    { subst base. unfold apiBaseUrl. destruct env as [[|c0 u]|]; discriminate. }
    destruct base; [congruence | cbn [List.length] in H; lia].
Qed.

(** X11 (logging out).  [logout] removes the stored token whether the
    request is answered, refused by the server, fails on the network or
    is never made, and leaves the other keys of the storage as they are.
    Unless the stored token stops [authenticatedFetch], it makes one POST
    to the logout endpoint with the header of that token, and throws
    exactly when the request itself rejects; when the token stops it, no
    request is made and it throws what [headers.set] threw. *)
Theorem X11_logout_clears_token :
  forall w f,
    let '(w', sent, r) := logout API_BASE_URL headersError w f in
    getToken w' = None
    /\ Api.isAuthenticated w' = false
    /\ (forall st key,
        w = Some st -> eqb key tokenKey = false ->
        exists st', w' = Some st' /\ getItem st' key = getItem st key)
    /\ (sendable w = true ->
        sent = [{| url := API_BASE_URL ++ lit "/api/auth/logout";
                   method := lit "POST";
                   authorization := authorizationOf w;
                   fields := [] |}]
        /\ forall e, r = Throws e <-> f = FetchRejects e)
    /\ (sendable w = false ->
        sent = []
        /\ exists token,
             getToken w = Some token
             /\ r = Throws (ErrorObj (headersError (bearer token)))).
Proof.
  intros w f. unfold logout.
  assert (Hk : forall st key,
             w = Some st -> eqb key tokenKey = false ->
             exists st', removeToken w = Some st'
                         /\ getItem st' key = getItem st key).
  { intros st key -> Hk. eexists. split; [reflexivity|].
    now apply getItem_removeItem_other. }
  destruct (sendable w) eqn:Hw.
  - rewrite (authenticatedFetch_sendable _ _ _ _ _ Hw).
    split; [apply getToken_removeToken|].
    split; [unfold Api.isAuthenticated; now rewrite getToken_removeToken|].
    split; [exact Hk|]. split; [|discriminate].
    intros _. split; [reflexivity|].
    intros e. destruct f as [e'|status b|[]]; split; intros H;
      try discriminate; now injection H as ->.
  - destruct (authenticatedFetch_unsendable API_BASE_URL headersError w
                (lit "/api/auth/logout") (lit "POST") Hw) as (token & Hg & E).
    rewrite E.
    split; [apply getToken_removeToken|].
    split; [unfold Api.isAuthenticated; now rewrite getToken_removeToken|].
    split; [exact Hk|]. split; [discriminate|].
    intros _. split; [reflexivity|]. now exists token.
Qed.

(** X12 (the token after logging in).  A login that throws, or that returns
    a response with an empty token, leaves the storage as it was, so a
    token stored earlier stays.  A login that returns a non-empty token in
    a browser stores it: [getToken] then gives it back, the other keys are
    untouched.  The request carries no [Authorization] header.  [register]
    leaves the storage in the same state as [login] does on the same
    answer. *)
Theorem X12_login_token :
  forall w username password f,
    let '(w', sent, r) := login API_BASE_URL w username password f in
    (forall e, r = Throws e -> w' = w)
    /\ (forall resp, r = Returns resp -> truthy (access_token resp) = false ->
        w' = w)
    /\ (forall resp st,
        r = Returns resp -> truthy (access_token resp) = true -> w = Some st ->
        getToken w' = Some (access_token resp)
        /\ Api.isAuthenticated w' = true
        /\ forall key, eqb key tokenKey = false ->
             exists st', w' = Some st' /\ getItem st' key = getItem st key)
    /\ map authorization sent = [None]
    /\ (forall email,
        fst (fst (register API_BASE_URL w username email password f)) = w').
Proof.
  intros w username password f. unfold login, register.
  destruct f as [e|status b|[e|resp]].
  - repeat split; intros; try discriminate; reflexivity.
  - repeat split; intros; try discriminate; reflexivity.
  - repeat split; intros; try discriminate; reflexivity.
  - split; [intros; discriminate|].
    split; [intros resp' H Ht; injection H as ->; now rewrite Ht|].
    split; [|split; [reflexivity | intros; reflexivity]].
    intros resp' st H Ht ->. injection H as ->. rewrite Ht.
    cbn [setToken getToken]. unfold Api.isAuthenticated. cbn [setToken getToken].
    rewrite getItem_setItem. repeat split.
    intros key Hk. eexists. split; [reflexivity|].
    now apply getItem_setItem_other.
Qed.

End ApiFacts.

Section ApiExamples.

Import Chat Api.

(** A first message without a token in the storage. *)
Lemma X9_chat_request_witness :
  fst (App.chatTurn (apiBaseUrl None) (Some []) initial (lit "hi") clock0
         (IsOk (None, None))) = []
  /\ error (snd (App.chatTurn (apiBaseUrl None) (Some []) initial (lit "hi") clock0
                   (IsOk (None, None)))) = Some (lit "Not authenticated").
Proof.
  pose proof (X9_chat_request (apiBaseUrl None) (Some []) initial (lit "hi") clock0
                (IsOk (None, None))) as H.
  destruct (App.chatTurn (apiBaseUrl None) (Some []) initial (lit "hi") clock0
              (IsOk (None, None))) as [requests s'].
  destruct H as (_ & H & _). destruct (H eq_refl eq_refl) as (H1 & H2 & _).
  split; [exact H1 | exact H2].
Defined.

Lemma X10_history_url_witness :
  map url
    (fst (App.loadConversationHistory (apiBaseUrl None) (fun v => v) None
            (lit "c1") (FetchRejects OtherValue) initial)) =
  [apiBaseUrl None ++ apiBaseUrl None
     ++ lit "/api/chat/history?conversation_id=" ++ lit "c1"].
Proof.
  pose proof (X10_history_url (fun v => v) None None (lit "c1")
                (FetchRejects OtherValue) (FetchRejects OtherValue) initial
                eq_refl) as H.
  cbv zeta in H. destruct H as (_ & H & _).
  exact (proj1 (H eq_refl)).
Defined.

(** A stored token with a line feed inside, and a server that would
    answer: the token is removed, the other key stays, no request is made
    and [logout] throws. *)
Lemma X11_logout_clears_token_witness :
  let w := Some [(lit "theme", lit "dark");
                 (tokenKey, lit "tok" ++ nl ++ lit "en")] in
  logout (apiBaseUrl None) (fun v => lit "Invalid header value") w (IsOk tt) =
  (Some [(lit "theme", lit "dark")], [],
   Throws (ErrorObj (lit "Invalid header value"))).
Proof.
  intros w.
  pose proof (X11_logout_clears_token (apiBaseUrl None)
                (fun v => lit "Invalid header value") w (IsOk tt)) as H.
  destruct (logout (apiBaseUrl None) (fun v => lit "Invalid header value") w
              (IsOk tt)) as [[w' sent] r] eqn:E.
  destruct H as (_ & _ & _ & _ & H).
  destruct (H eq_refl) as (Hs & token & Hg & Hr).
  rewrite Hs, Hr. unfold logout in E. cbn in E. now injection E as <- _ _.
Defined.

Lemma X12_login_token_witness :
  getToken
    (fst (fst (login (apiBaseUrl None) (Some [(tokenKey, lit "old")]) (lit "ann")
                 (lit "pw")
                 (IsOk (ParsedAs {| access_token := lit "new";
                                    token_type := lit "bearer";
                                    user := None |}))))) = Some (lit "new").
Proof.
  pose proof (X12_login_token (apiBaseUrl None) (Some [(tokenKey, lit "old")]) (lit "ann")
                (lit "pw")
                (IsOk (ParsedAs {| access_token := lit "new";
                                   token_type := lit "bearer";
                                   user := None |}))) as H.
  destruct (login (apiBaseUrl None) (Some [(tokenKey, lit "old")]) (lit "ann")
              (lit "pw") _) as [[w' sent] r] eqn:E.
  destruct H as (_ & _ & H & _).
  assert (Hr : r = Returns {| access_token := lit "new";
                              token_type := lit "bearer"; user := None |})
    by (unfold login in E; now injection E as _ _ <-).
  exact (proj1 (H _ _ Hr eq_refl eq_refl)).
Defined.

End ApiExamples.

(** * The authentication context *)

Section AuthFacts.

Import Chat Api Auth.

Variable API_BASE_URL : str.
Variable headersError : str -> str.

Lemma getCurrentUser_throws (w : Window) (me : Fetched (Parsed User)) :
  sendable w = false \/ (forall u, me <> IsOk (ParsedAs u)) ->
  exists win sent e,
    getCurrentUser API_BASE_URL headersError w me = (win, sent, Throws e)
    /\ (sendable w = false -> sent = []).
Proof.
  intros H. unfold getCurrentUser. destruct (sendable w) eqn:Hw.
  - rewrite (authenticatedFetch_sendable _ _ _ _ _ Hw).
    destruct H as [H|H]; [discriminate|].
    destruct me as [e|status b|[e|u]].
    + eexists _, _, _. split; [reflexivity | discriminate].
    + destruct (status =? 401); eexists _, _, _;
        (split; [reflexivity | discriminate]).
    + eexists _, _, _. split; [reflexivity | discriminate].
    + now destruct (H u).
  - destruct (authenticatedFetch_unsendable API_BASE_URL headersError w
                (lit "/api/auth/me") (lit "GET") Hw) as (token & _ & E).
    rewrite E. eexists _, _, _. now split.
Qed.

Lemma getCurrentUser_returns (w : Window) (u : User) :
  sendable w = true ->
  exists sent,
    getCurrentUser API_BASE_URL headersError w (IsOk (ParsedAs u)) =
    (w, sent, Returns u).
Proof.
  intros Hw. unfold getCurrentUser.
  rewrite (authenticatedFetch_sendable _ _ _ _ _ Hw). now eexists.
Qed.

(** X13 (the check on mount).  [checkAuth] always ends with [loading]
    false and pushes nothing.  Without a stored token it makes no request
    and keeps the user and the storage.  With a token that
    [authenticatedFetch] can send and an answer that parses, the user is
    the one answered and the storage is kept.  With a token and any other
    outcome, also when the token stops [authenticatedFetch] so that no
    request is made at all, the user is [null], the token is removed,
    and a protected route then renders nothing and redirects to the login
    page. *)
Theorem X13_check_on_mount :
  forall w me out,
    let w' := checkAuth API_BASE_URL headersError w me out in
    loading (auth w') = false
    /\ pushed w' = pushed w
    /\ (Api.isAuthenticated (window w) = false ->
        user (auth w') = user (auth w) /\ requests w' = requests w
        /\ window w' = window w)
    /\ (forall u,
        Api.isAuthenticated (window w) = true ->
        sendable (window w) = true -> me = IsOk (ParsedAs u) ->
        user (auth w') = Some u /\ window w' = window w)
    /\ (Api.isAuthenticated (window w) = true ->
        sendable (window w) = false \/ (forall u, me <> IsOk (ParsedAs u)) ->
        user (auth w') = None /\ getToken (window w') = None
        /\ protectedRoute (auth w') = ([lit "/login"], Nothing))
    /\ (sendable (window w) = false -> requests w' = requests w).
Proof.
  intros w me out w'. subst w'. unfold checkAuth.
  destruct (Api.isAuthenticated (window w)) eqn:Ha.
  - destruct (getCurrentUser API_BASE_URL headersError (window w) me)
      as [[win sent] [u|e]] eqn:Eg.
    + split; [reflexivity|]. split; [reflexivity|].
      split; [discriminate|]. split; [|split].
      * intros u' _ Hw ->.
        destruct (getCurrentUser_returns (window w) u' Hw) as [sent' E].
        rewrite E in Eg. injection Eg as <- _ <-. now split.
      * intros _ H. destruct (getCurrentUser_throws (window w) me H)
          as (win' & sent' & e & E & _). rewrite E in Eg. discriminate.
      * intros Hw. destruct (getCurrentUser_throws (window w) me (or_introl Hw))
          as (win' & sent' & e & E & _). rewrite E in Eg. discriminate.
    + destruct (logout API_BASE_URL headersError win out)
        as [[win' sent'] r] eqn:El.
      cbn [auth loading pushed user window requests].
      assert (Hg : getToken win' = None).
      { unfold logout in El.
        destruct (authenticatedFetch API_BASE_URL headersError win
                    (lit "/api/auth/logout") (lit "POST"));
          injection El as <- _ _; apply getToken_removeToken. }
      split; [reflexivity|]. split; [reflexivity|].
      split; [discriminate|]. split; [|split].
      * intros u _ Hw ->.
        destruct (getCurrentUser_returns (window w) u Hw) as [sent0 E].
        rewrite E in Eg. discriminate.
      * intros _ _. split; [reflexivity|]. split; [exact Hg | reflexivity].
      * intros Hw.
        destruct (authenticatedFetch_unsendable API_BASE_URL headersError
                    (window w) (lit "/api/auth/me") (lit "GET") Hw)
          as (token & _ & E).
        unfold getCurrentUser in Eg. rewrite E in Eg.
        injection Eg as <- <- _.
        destruct (authenticatedFetch_unsendable API_BASE_URL headersError
                    (window w) (lit "/api/auth/logout") (lit "POST") Hw)
          as (token' & _ & E').
        unfold logout in El. rewrite E' in El. injection El as _ <- _.
        now rewrite app_nil_r.
  - split; [reflexivity|]. split; [reflexivity|].
    split; [now repeat split|]. split; [intros; discriminate|].
    split; [intros; discriminate | reflexivity].
Qed.

(** X14 (logging out of the context).  [handleLogout] removes the stored
    token in every case.  When the logout request is made and fails on the
    network, or when the stored token stops [authenticatedFetch] so that
    no request is made, it throws, the context keeps its user and nothing
    is pushed; in every other case, also when the server answers with an
    error status, the user becomes [null] and the login page is pushed. *)
Theorem X14_logout_outcome :
  forall w f,
    let '(w', r) := handleLogout API_BASE_URL headersError w f in
    getToken (window w') = None
    /\ (forall e,
        sendable (window w) = true -> f = FetchRejects e ->
        r = Throws e /\ auth w' = auth w /\ pushed w' = pushed w)
    /\ (sendable (window w) = true -> (forall e, f <> FetchRejects e) ->
        r = Returns tt /\ user (auth w') = None
        /\ loading (auth w') = loading (auth w)
        /\ pushed w' = pushed w ++ [lit "/login"])
    /\ (sendable (window w) = false ->
        (exists token,
           getToken (window w) = Some token
           /\ r = Throws (ErrorObj (headersError (bearer token))))
        /\ auth w' = auth w /\ pushed w' = pushed w
        /\ requests w' = requests w).
Proof.
  intros w f. unfold handleLogout, logout.
  destruct (sendable (window w)) eqn:Hw.
  - rewrite (authenticatedFetch_sendable _ _ _ _ _ Hw).
    destruct f as [e|status b|[]]; cbn [window auth pushed user loading].
    + split; [apply getToken_removeToken|]. split; [|split].
      * intros e' _ H. injection H as ->. now repeat split.
      * intros _ H. now destruct (H e).
      * discriminate.
    + split; [apply getToken_removeToken|]. split; [intros; discriminate|].
      split; [|discriminate]. intros _ _. now repeat split.
    + split; [apply getToken_removeToken|]. split; [intros; discriminate|].
      split; [|discriminate]. intros _ _. now repeat split.
  - destruct (authenticatedFetch_unsendable API_BASE_URL headersError
                (window w) (lit "/api/auth/logout") (lit "POST") Hw)
      as (token & Hg & E).
    rewrite E. cbn [window auth pushed requests].
    split; [apply getToken_removeToken|]. split; [intros; discriminate|].
    split; [intros; discriminate|]. intros _.
    split; [now exists token|]. split; [reflexivity|].
    split; [reflexivity | apply app_nil_r].
Qed.

Lemma enter_outcome (w : World) (win : Window) (sent : list Request)
    (r : result AuthResponse) (me : Fetched (Parsed User)) :
  let '(w', r') := enter API_BASE_URL headersError w win sent r me in
  (r' = Returns tt ->
   Auth.isAuthenticated (auth w') = true
   /\ pushed w' = pushed w ++ [lit "/chat"])
  /\ (forall e, r' = Throws e -> auth w' = auth w /\ pushed w' = pushed w)
  /\ loading (auth w') = loading (auth w).
Proof.
  unfold enter. destruct r as [response|e].
  - destruct (Api.user response) as [u|].
    + split; [now split|]. split; [discriminate | reflexivity].
    + destruct (getCurrentUser API_BASE_URL headersError win me)
        as [[win' sent'] [u|e]].
      * split; [now split|]. split; [discriminate | reflexivity].
      * split; [discriminate|]. split; [now split | reflexivity].
  - split; [discriminate|]. split; [now split | reflexivity].
Qed.

(** X15 (logging in through the context).  [handleLogin] and
    [handleRegister] push the chat page exactly when they return, and the
    context then holds a user; when they throw, the user of the context
    and the pushed URLs are as before; [loading] is never changed.  A login
    that stored its token and whose response has no user throws, with the
    new token left in the storage, when the request for the current user
    fails on the network, and also when the new token stops
    [authenticatedFetch], in which case that request is not made. *)
Theorem X15_login_outcome :
  forall w username email password f me,
    (let '(w', r) :=
       handleLogin API_BASE_URL headersError w username password f me in
     (r = Returns tt ->
      Auth.isAuthenticated (auth w') = true
      /\ pushed w' = pushed w ++ [lit "/chat"])
     /\ (forall e, r = Throws e -> auth w' = auth w /\ pushed w' = pushed w)
     /\ loading (auth w') = loading (auth w)
     /\ (forall resp st e,
         f = IsOk (ParsedAs resp) -> Api.user resp = None ->
         truthy (access_token resp) = true -> window w = Some st ->
         headerValue (bearer (access_token resp)) = true ->
         me = FetchRejects e ->
         r = Throws e /\ getToken (window w') = Some (access_token resp)
         /\ List.length (requests w') = (List.length (requests w) + 2)%nat)
     /\ (forall resp st,
         f = IsOk (ParsedAs resp) -> Api.user resp = None ->
         truthy (access_token resp) = true -> window w = Some st ->
         headerValue (bearer (access_token resp)) = false ->
         r = Throws (ErrorObj (headersError (bearer (access_token resp))))
         /\ getToken (window w') = Some (access_token resp)
         /\ List.length (requests w') = (List.length (requests w) + 1)%nat))
    /\ (let '(w', r) :=
          handleRegister API_BASE_URL headersError w username email password
            f me in
        (r = Returns tt ->
         Auth.isAuthenticated (auth w') = true
         /\ pushed w' = pushed w ++ [lit "/chat"])
        /\ (forall e, r = Throws e -> auth w' = auth w /\ pushed w' = pushed w)
        /\ loading (auth w') = loading (auth w)).
Proof.
  intros w username email password f me. split.
  - unfold handleLogin.
    destruct (login API_BASE_URL (window w) username password f)
      as [[win sent] r0] eqn:El.
    pose proof (enter_outcome w win sent r0 me) as H.
    destruct (enter API_BASE_URL headersError w win sent r0 me)
      as [w' r] eqn:Ee.
    destruct H as (H1 & H2 & H3).
    split; [exact H1|]. split; [exact H2|]. split; [exact H3|].
    assert (Hst : forall resp st,
               f = IsOk (ParsedAs resp) ->
               truthy (access_token resp) = true -> window w = Some st ->
               win = Some (setItem st tokenKey (access_token resp))
               /\ r0 = Returns resp /\ List.length sent = 1%nat
               /\ getToken win = Some (access_token resp)).
    { intros resp st -> Ht Hw. unfold login in El. rewrite Ht, Hw in El.
      injection El as <- <- <-.
      split; [reflexivity|]. split; [reflexivity|]. split; [reflexivity|].
      cbn [setToken getToken]. apply getItem_setItem. }
    split.
    + intros resp st e Hf Hu Ht Hw Hv ->.
      destruct (Hst resp st Hf Ht Hw) as (Hwin & -> & Hl & Hg).
      unfold enter in Ee. rewrite Hu in Ee. unfold getCurrentUser in Ee.
      assert (Hs : sendable win = true)
        by (unfold sendable; now rewrite Hg, Ht).
      rewrite (authenticatedFetch_sendable _ _ _ _ _ Hs) in Ee.
      injection Ee as <- <-. cbn [window requests].
      split; [reflexivity|]. split; [exact Hg|].
      rewrite !length_app, Hl. cbn [List.length]. lia.
    + intros resp st Hf Hu Ht Hw Hv.
      destruct (Hst resp st Hf Ht Hw) as (Hwin & -> & Hl & Hg).
      unfold enter in Ee. rewrite Hu in Ee. unfold getCurrentUser in Ee.
      assert (Hs : sendable win = false)
        by (unfold sendable; now rewrite Hg, Ht).
      destruct (authenticatedFetch_unsendable API_BASE_URL headersError win
                  (lit "/api/auth/me") (lit "GET") Hs) as (token & Hg' & E).
      rewrite E in Ee. injection Ee as <- <-. cbn [window requests].
      rewrite Hg in Hg'. injection Hg' as <-.
      split; [reflexivity|]. split; [exact Hg|].
      rewrite !length_app, Hl. cbn [List.length]. lia.
  - unfold handleRegister.
    destruct (register API_BASE_URL (window w) username email password f)
      as [[win sent] r0].
    exact (enter_outcome w win sent r0 me).
Qed.

End AuthFacts.

Section AuthExamples.

Import Chat Api Auth.

(** A stored token that the server answers with 401. *)
Lemma X13_check_on_mount_witness :
  getToken
    (window
       (checkAuth (apiBaseUrl None) (fun v => v)
          {| window := Some [(tokenKey, lit "stale")]; auth := Auth.initial;
             pushed := []; requests := [] |}
          (NotOk 401 (BodyDetail Undefined)) (IsOk tt))) = None.
Proof.
  pose proof (X13_check_on_mount (apiBaseUrl None) (fun v => v)
                {| window := Some [(tokenKey, lit "stale")];
                   auth := Auth.initial; pushed := []; requests := [] |}
                (NotOk 401 (BodyDetail Undefined)) (IsOk tt)) as H.
  cbv zeta in H. destruct H as (_ & _ & _ & _ & H & _).
  refine (proj1 (proj2 (H eq_refl (or_intror _)))). intros u. discriminate.
Defined.

(** A user is logged in and the server answers the logout with an error
    status: the context forgets the user. *)
Lemma X14_logout_outcome_witness :
  let ann := {| user_id := lit "1"; username := lit "ann";
                email := lit "ann@example.org"; created_at := [] |} in
  let w := {| window := Some [(tokenKey, lit "t")];
              auth := {| user := Some ann; loading := false |};
              pushed := []; requests := [] |} in
  user (auth (fst (handleLogout (apiBaseUrl None) (fun v => v) w
                     (NotOk 500 (BodyDetail Undefined))))) = None
  /\ pushed (fst (handleLogout (apiBaseUrl None) (fun v => v) w
                    (NotOk 500 (BodyDetail Undefined)))) = [lit "/login"].
Proof.
  intros ann w.
  pose proof (X14_logout_outcome (apiBaseUrl None) (fun v => v) w
                (NotOk 500 (BodyDetail Undefined))) as H.
  destruct (handleLogout (apiBaseUrl None) (fun v => v) w
              (NotOk 500 (BodyDetail Undefined))) as [w' r].
  destruct H as (_ & _ & H & _).
  assert (Hf : forall e : thrown,
             NotOk (T:=unit) 500 (BodyDetail Undefined) <> FetchRejects e)
    by (intros e; discriminate).
  destruct (H eq_refl Hf) as (_ & H1 & _ & H2).
  split; [exact H1 | exact H2].
Defined.

Lemma X15_login_outcome_witness :
  pushed
    (fst (handleLogin (apiBaseUrl None) (fun v => v)
            {| window := Some []; auth := {| user := None; loading := false |};
               pushed := []; requests := [] |}
            (lit "ann") (lit "pw")
            (IsOk (ParsedAs {| access_token := lit "new";
                               token_type := lit "bearer"; Api.user := None |}))
            (FetchRejects OtherValue))) = [].
Proof.
  pose proof (X15_login_outcome (apiBaseUrl None) (fun v => v)
                {| window := Some []; auth := {| user := None; loading := false |};
                   pushed := []; requests := [] |}
                (lit "ann") [] (lit "pw")
                (IsOk (ParsedAs {| access_token := lit "new";
                                   token_type := lit "bearer"; Api.user := None |}))
                (FetchRejects OtherValue)) as [H _].
  destruct (handleLogin (apiBaseUrl None) (fun v => v) _ (lit "ann") (lit "pw")
              _ _) as [w' r].
  destruct H as (_ & H2 & _ & H4 & _).
  destruct (H4 _ _ OtherValue eq_refl eq_refl eq_refl eq_refl eq_refl eq_refl)
    as [Hr _].
  exact (proj2 (H2 _ Hr)).
Defined.

End AuthExamples.

(** * The document list *)

Section DocumentFacts.

Import Chat Api Documents.

Variable API_BASE_URL : str.
Variable headersError : str -> str.

(** X16 (deleting a document).  Without confirmation [handleDelete] makes
    no request and changes nothing.  With it, [deletingId] is [null] at
    the end and [loading] and [error] are not touched.  Unless the stored
    token stops [authenticatedFetch], one DELETE request for the document
    is made; when it is answered with a success status the list keeps
    exactly the documents with another id and the parent is notified.
    On any failure, also when the token stops the request from being
    made, the list is unchanged, one alert is shown and the parent is not
    notified. *)
Theorem X16_delete_document :
  forall w confirmed id f s,
    let '(sent, s', told) :=
      handleDelete API_BASE_URL headersError w confirmed id f s in
    (confirmed = false ->
     sent = [] /\ s' = s /\ told = {| alerts := []; notified := false |})
    /\ (confirmed = true ->
        deletingId s' = None
        /\ loading s' = loading s /\ error s' = error s)
    /\ (confirmed = true -> sendable w = true ->
        sent = [{| url := API_BASE_URL ++ lit "/api/documents/" ++ id;
                   method := lit "DELETE";
                   authorization := authorizationOf w;
                   fields := [] |}])
    /\ (confirmed = true -> sendable w = true -> (exists p, f = IsOk p) ->
        told = {| alerts := []; notified := true |}
        /\ forall d, In d (documents s') <->
                     In d (documents s) /\ eqb (doc_id d) id = false)
    /\ (confirmed = true ->
        sendable w = false \/ (forall p, f <> IsOk p) ->
        documents s' = documents s /\ notified told = false
        /\ List.length (alerts told) = 1%nat)
    /\ (confirmed = true -> sendable w = false ->
        sent = []
        /\ exists token,
             getToken w = Some token
             /\ alerts told = [headersError (bearer token)]).
Proof.
  intros w confirmed id f s. unfold handleDelete, deleteStart.
  destruct confirmed.
  - unfold deleteDocument. destruct (sendable w) eqn:Hw.
    + rewrite (authenticatedFetch_sendable _ _ _ _ _ Hw).
      destruct f as [e|status b|p].
      * cbn [deleteSettle]. destruct e as [m|];
          (split; [discriminate|]); (split; [now repeat split|]);
          (split; [reflexivity|]);
          (split; [intros _ _ [p Hp]; discriminate|]);
          (split; [intros _ _; now repeat split | discriminate]).
      * cbn [deleteSettle]. destruct (failWith b _) as [m|];
          (split; [discriminate|]); (split; [now repeat split|]);
          (split; [reflexivity|]);
          (split; [intros _ _ [p Hp]; discriminate|]);
          (split; [intros _ _; now repeat split | discriminate]).
      * cbn [deleteSettle documentId captured documents].
        split; [discriminate|]. split; [now repeat split|].
        split; [reflexivity|]. split; [|split; [|discriminate]].
        -- intros _ _ _. split; [reflexivity|]. intros d. rewrite filter_In.
           now rewrite negb_true_iff.
        -- intros _ [H|H]; [discriminate | now destruct (H p)].
    + destruct (authenticatedFetch_unsendable API_BASE_URL headersError w
                  (lit "/api/documents/" ++ id) (lit "DELETE") Hw)
        as (token & Hg & E).
      rewrite E. cbn [deleteSettle].
      split; [discriminate|]. split; [now repeat split|].
      split; [discriminate|]. split; [discriminate|].
      split; [intros _ _; now repeat split|].
      intros _ _. split; [reflexivity|]. now exists token.
  - split; [now repeat split|]. repeat split; discriminate.
Qed.

(** X17 (two deletions in flight).  Each call of [handleDelete] filters
    the list of the render it was called from.  When a second deletion is
    confirmed before the first is answered, both calls hold the same list:
    after the first answer the first document is gone from the list and
    [deletingId] is [null] although the second call still waits; after the
    second answer the list is the original one without the second
    document, so the first document, deleted on the server, is shown
    again. *)
Theorem X17_overlapping_deletes :
  forall s id1 id2 d,
    In d (documents s) -> doc_id d = id1 -> eqb id1 id2 = false ->
    let p1 := {| documentId := id1; captured := documents s |} in
    let p2 := {| documentId := id2; captured := documents s |} in
    let s1 := fst (deleteStart true id1 s) in
    let s2 := fst (deleteStart true id2 s1) in
    let s3 := fst (deleteSettle p1 (Returns tt) s2) in
    let s4 := fst (deleteSettle p2 (Returns tt) s3) in
    snd (deleteStart true id1 s) = Some p1
    /\ snd (deleteStart true id2 s1) = Some p2
    /\ deletingId s2 = Some id2
    /\ deletingId s3 = None
    /\ ~ In d (documents s3)
    /\ In d (documents s4)
    /\ documents s4 =
         filter (fun doc => negb (eqb (doc_id doc) id2)) (documents s).
Proof.
  intros s id1 id2 d Hin Hd Hne. cbv zeta.
  cbn [deleteStart deleteSettle fst snd documents deletingId documentId captured].
  split; [reflexivity|]. split; [reflexivity|]. split; [reflexivity|].
  split; [reflexivity|]. split; [|split; [|reflexivity]].
  - rewrite filter_In. intros [_ H]. rewrite Hd, eqb_refl in H. discriminate.
  - rewrite filter_In. split; [exact Hin|]. now rewrite Hd, Hne.
Qed.

Lemma X17_overlapping_deletes_witness :
  let a := {| doc_id := lit "a"; filename := lit "a.pdf"; file_type := lit "pdf";
              file_size := None; chunk_count := None; uploaded_at := [] |} in
  let b := {| doc_id := lit "b"; filename := lit "b.pdf"; file_type := lit "pdf";
              file_size := None; chunk_count := None; uploaded_at := [] |} in
  let s := {| documents := [a; b]; loading := false; error := [];
              deletingId := None |} in
  In a
    (documents
       (fst (deleteSettle {| documentId := lit "b"; captured := [a; b] |}
               (Returns tt)
               (fst (deleteSettle {| documentId := lit "a"; captured := [a; b] |}
                       (Returns tt)
                       (fst (deleteStart true (lit "b")
                               (fst (deleteStart true (lit "a") s))))))))).
Proof.
  intros a b s.
  exact (proj1 (proj2 (proj2 (proj2 (proj2 (proj2
           (X17_overlapping_deletes s (lit "a") (lit "b") a
              (or_introl eq_refl) eq_refl eq_refl))))))).
Defined.

End DocumentFacts.

Section DocumentExamples.

Import Chat Api Documents.

(** Two documents are listed and the deletion of the first is answered:
    the second stays, the first is gone. *)
Lemma X16_delete_document_witness :
  let a := {| doc_id := lit "a"; filename := lit "a.pdf"; file_type := lit "pdf";
              file_size := None; chunk_count := None; uploaded_at := [] |} in
  let b := {| doc_id := lit "b"; filename := lit "b.pdf"; file_type := lit "pdf";
              file_size := None; chunk_count := None; uploaded_at := [] |} in
  let s := {| documents := [a; b]; loading := false; error := [];
              deletingId := None |} in
  let w := Some [(tokenKey, lit "t")] in
  In b (documents
          (snd (fst (handleDelete (apiBaseUrl None) (fun v => v) w true
                       (lit "a") (IsOk tt) s))))
  /\ ~ In a (documents
               (snd (fst (handleDelete (apiBaseUrl None) (fun v => v) w true
                            (lit "a") (IsOk tt) s)))).
Proof.
  intros a b s w.
  pose proof (X16_delete_document (apiBaseUrl None) (fun v => v) w true
                (lit "a") (IsOk tt) s) as H.
  destruct (handleDelete (apiBaseUrl None) (fun v => v) w true (lit "a")
              (IsOk tt) s) as [[sent s'] told].
  destruct H as (_ & _ & _ & H & _).
  destruct (H eq_refl eq_refl (ex_intro _ tt eq_refl)) as [_ Hd].
  cbn [fst snd]. split.
  - apply Hd. split; [right; left; reflexivity | reflexivity].
  - intros Hin. apply Hd in Hin as [_ Hin]. discriminate.
Defined.

End DocumentExamples.

(** * Uploading *)

Section MoreUpload.

Import Chat Api.

Variable API_BASE_URL : str.
Variable requestHeaderError : str -> str.

Lemma fold_setProgress_file (ps : list N) (s : Upload.State) :
  Upload.file (fold_left (fun s p => Upload.setProgress p s) ps s) = Upload.file s
  /\ Upload.error (fold_left (fun s p => Upload.setProgress p s) ps s)
     = Upload.error s.
Proof.
  revert s. induction ps as [|p ps IH]; intros s; [now split|].
  cbn [fold_left]. destruct (IH (Upload.setProgress p s)) as [-> ->]. now split.
Qed.

(** X18 (one upload per selected file).  Without a file [handleUpload]
    does nothing.  With a file it ends with [uploading] false.  Without a
    usable token no request is sent, the file is kept and the error is
    "Not authenticated".  When the upload resolves, the component is back
    in its initial state, so that another click sends nothing.  When it is
    rejected, the file is kept with the message of the rejection as error,
    and another click sends the same file again. *)
Theorem X18_upload_once :
  forall w s progressValues x,
    let '(request, s') := App.upload API_BASE_URL requestHeaderError w s progressValues x in
    (Upload.file s = None -> request = None /\ s' = s)
    /\ (forall f, Upload.file s = Some f -> Upload.uploading s' = false)
    /\ (forall f,
        Upload.file s = Some f -> truthyOpt (getToken w) = false ->
        request = None /\ Upload.file s' = Some f
        /\ Upload.error s' = lit "Not authenticated")
    /\ (forall f,
        Upload.file s = Some f ->
        snd (uploadDocument API_BASE_URL requestHeaderError w f x) = Upload.Resolved ->
        option_map upload_file request = Some f
        /\ s' = Upload.initial
        /\ forall ps' x', App.upload API_BASE_URL requestHeaderError w s' ps' x' = (None, s'))
    /\ (forall f m,
        Upload.file s = Some f ->
        snd (uploadDocument API_BASE_URL requestHeaderError w f x)
          = Upload.RejectedWith (ErrorObj m) ->
        Upload.file s' = Some f /\ Upload.error s' = m
        /\ forall ps' x',
             fst (App.upload API_BASE_URL requestHeaderError w s' ps' x') = request).
Proof.
  intros w s ps x. unfold App.upload at 1.
  destruct (Upload.file s) as [f|] eqn:Ef.
  - destruct (uploadDocument API_BASE_URL requestHeaderError w f x) as [request r] eqn:Eu.
    unfold Upload.handleUpload, Upload.uploadStart. rewrite Ef. cbn [fst].
    set (ps0 := match request with Some _ => ps | None => [] end).
    set (s1 := Upload.setError [] (Upload.setProgress 0 (Upload.setUploading true s))).
    destruct (fold_setProgress_file ps0 s1) as [Hf He].
    split; [discriminate|]. split; [intros; now destruct r as [|[m|]]|].
    split; [|split].
    + intros f' Hf' Ht. injection Hf' as <-.
      assert (E : request = None
                  /\ r = Upload.RejectedWith (ErrorObj (lit "Not authenticated"))).
      { unfold uploadDocument in Eu.
        destruct (getToken w) as [token|]; cbn [truthyOpt] in Ht;
          [rewrite Ht in Eu|]; injection Eu as <- <-; now split. }
      destruct E as [-> ->]. split; [reflexivity|].
      cbn [Upload.uploadSettle Upload.setUploading Upload.setError
           Upload.file Upload.error].
      rewrite Hf. subst s1. cbn [Upload.setError Upload.setProgress
                                  Upload.setUploading Upload.file].
      now split.
    + intros f' Hf' Hr. injection Hf' as <-. rewrite Eu in Hr.
      cbn [snd] in Hr. subst r.
      assert (Hq : option_map upload_file request = Some f).
      { unfold uploadDocument in Eu. destruct (getToken w) as [token|];
          [destruct (truthy token);
           [destruct (negb (headerValue (bearer token)))|]|];
          injection Eu as <- E; try discriminate.
        reflexivity. }
      split; [exact Hq|].
      assert (Hs : Upload.uploadSettle Upload.Resolved
                     (fold_left (fun s p => Upload.setProgress p s) ps0 s1)
                   = Upload.initial).
      { unfold Upload.uploadSettle, Upload.initial.
        unfold Upload.setUploading at 1. unfold Upload.setProgress at 1.
        unfold Upload.setFile.
        cbn [Upload.file Upload.progress Upload.error Upload.uploading].
        rewrite He. subst s1. reflexivity. }
      rewrite Hs. split; [reflexivity|]. intros ps' x'. reflexivity.
    + intros f' m Hf' Hr. injection Hf' as <-. rewrite Eu in Hr.
      cbn [snd] in Hr. subst r.
      assert (Hs : Upload.file
                     (Upload.uploadSettle (Upload.RejectedWith (ErrorObj m))
                        (fold_left (fun s p => Upload.setProgress p s) ps0 s1))
                   = Some f).
      { cbn [Upload.uploadSettle Upload.setUploading Upload.setError
             Upload.file].
        rewrite Hf. subst s1. exact Ef. }
      split; [exact Hs|]. split; [reflexivity|].
      intros ps' x'. unfold App.upload. rewrite Hs.
      destruct (uploadDocument API_BASE_URL requestHeaderError w f x')
        as [request' r'] eqn:Eu'.
      cbn [fst]. unfold uploadDocument in Eu, Eu'.
      destruct (getToken w) as [token|];
        [destruct (truthy token);
         [destruct (negb (headerValue (bearer token)))|]|];
        injection Eu as <- _; injection Eu' as <- _; reflexivity.
  - split; [now split|]. repeat split; discriminate.
Qed.

Variable toLowerCase : str -> str.

(** X19 (a refused selection keeps the earlier file).  When a file is
    held and a file of an unsupported type is chosen or dropped, the
    component shows the error about the type but still holds the earlier
    file: the upload button then sends the earlier file and clears the
    error.  Choosing nothing changes nothing. *)
Theorem X19_refused_selection :
  forall s f g,
    Upload.file s = Some g ->
    includes Upload.allowedTypes (Upload.fileExtension toLowerCase f) = false ->
    let s' := Upload.handleFileChange toLowerCase s (Some f) in
    Upload.handleDrop toLowerCase s (Some f) = s'
    /\ Upload.error s' = Upload.unsupported
    /\ Upload.file s' = Some g
    /\ snd (Upload.uploadStart s') = Some g
    /\ Upload.error (fst (Upload.uploadStart s')) = []
    /\ Upload.handleFileChange toLowerCase s None = s
    /\ Upload.handleDrop toLowerCase s None = s.
Proof.
  intros s f g Hg Hf. cbv zeta.
  unfold Upload.handleFileChange, Upload.handleDrop, Upload.validateAndSetFile.
  rewrite Hf. cbn [negb]. unfold Upload.uploadStart.
  cbn [Upload.setError Upload.file Upload.error]. rewrite Hg.
  repeat split.
Qed.

End MoreUpload.

Section UploadExamples.

Import Chat Api.

(** A first attempt that fails on the network, with a token stored. *)
Lemma X18_upload_once_witness :
  let f := {| Upload.name := lit "a.pdf"; Upload.data := [] |} in
  let s := Upload.setFile (Some f) Upload.initial in
  let w := Some [(tokenKey, lit "t")] in
  Upload.file (snd (App.upload (apiBaseUrl None) (fun v => v) w s [50] XhrError)) = Some f.
Proof.
  intros f s w.
  pose proof (X18_upload_once (apiBaseUrl None) (fun v => v) w s [50] XhrError) as H.
  destruct (App.upload (apiBaseUrl None) (fun v => v) w s [50] XhrError) as [request s'].
  destruct H as (_ & _ & _ & _ & H).
  exact (proj1 (H f _ eq_refl eq_refl)).
Defined.

End UploadExamples.

(** A file without extension chosen while a PDF is held. *)
Lemma X19_refused_selection_witness :
  let g := {| Upload.name := lit "a.pdf"; Upload.data := [] |} in
  let f := {| Upload.name := lit "program"; Upload.data := [] |} in
  snd (Upload.uploadStart
         (Upload.handleFileChange Upload.asciiToLowerCase
            (Upload.setFile (Some g) Upload.initial) (Some f))) = Some g.
Proof.
  intros g f.
  exact (proj1 (proj2 (proj2 (proj2
           (X19_refused_selection Upload.asciiToLowerCase
              (Upload.setFile (Some g) Upload.initial) f g
              eq_refl eq_refl))))).
Defined.

(** * The conversation of the URL *)

Section MoreHistory.

Import Chat Api.

Variable API_BASE_URL : str.
Variable headersError : str -> str.

(** X20 (the conversation of the URL).  Without a [conversation]
    parameter, or with an empty one, the effect does nothing.  With one,
    the state takes it as conversation id whatever becomes of the history
    request, and nothing is pushed.  When the request is made, a history
    with messages replaces the list and leaves an earlier error in place,
    and a history without messages changes nothing else; a failed
    request, or a stored token that stops [authenticatedFetch] so that no
    request is made, keeps the messages and sets the error.  The next chat
    request then carries the id of the URL. *)
Theorem X20_conversation_from_url :
  forall w u f s,
    let '(sent, s') :=
      App.conversationEffect API_BASE_URL headersError w u f s in
    (truthyOpt u = false -> sent = [] /\ s' = s)
    /\ (forall c, u = Some c -> truthy c = true ->
        conversationId s' = Some c
        /\ isLoading s' = isLoading s
        /\ pushed s' = pushed s
        /\ (forall h msgs,
            sendable w = true ->
            f = IsOk (ParsedAs h) -> history_messages h = Some msgs ->
            messages s' = map stored msgs /\ error s' = error s)
        /\ (forall h,
            sendable w = true ->
            f = IsOk (ParsedAs h) -> history_messages h = None ->
            messages s' = messages s /\ error s' = error s)
        /\ (sendable w = false \/ (forall h, f <> IsOk (ParsedAs h)) ->
            messages s' = messages s
            /\ error s' = Some (lit "Failed to load conversation history"))
        /\ (sendable w = false -> sent = [])
        /\ (forall token content clock f',
            getToken w = Some token -> truthy token = true ->
            refused s' content = false ->
            map fields (fst (App.chatTurn API_BASE_URL w s' content clock f')) =
              [[(lit "message", Some content);
                (lit "conversation_id", Some c)]])).
Proof.
  intros w u f s. unfold App.conversationEffect.
  destruct u as [c|]; [destruct (truthy c) eqn:Hc|].
  - assert (Hturn : forall s' : State,
               conversationId s' = Some c ->
               forall token content clock f',
                 getToken w = Some token -> truthy token = true ->
                 refused s' content = false ->
                 map fields
                   (fst (App.chatTurn API_BASE_URL w s' content clock f')) =
                 [[(lit "message", Some content);
                   (lit "conversation_id", Some c)]]).
    { intros s' Hs' token content clock f' Hg Ht Hr. unfold App.chatTurn.
      rewrite Hr. unfold sendChatMessage. rewrite Hg, Ht, Hs'.
      cbn [truthyOpt]. rewrite Hc. reflexivity. }
    unfold App.loadConversationHistory, getChatHistory. rewrite Hc.
    destruct (sendable w) eqn:Hw.
    + rewrite (authenticatedFetch_sendable _ _ _ _ _ Hw).
      destruct f as [e|status b|[e|h]].
      * split; [intros H; cbn in H; congruence|].
        intros c' Hu _. injection Hu as <-. split; [reflexivity|].
        split; [reflexivity|]. split; [reflexivity|].
        split; [intros; discriminate|]. split; [intros; discriminate|].
        split; [now split|]. split; [discriminate|]. now apply Hturn.
      * split; [intros H; cbn in H; congruence|].
        intros c' Hu _. injection Hu as <-. split; [reflexivity|].
        split; [reflexivity|]. split; [reflexivity|].
        split; [intros; discriminate|]. split; [intros; discriminate|].
        split; [now split|]. split; [discriminate|]. now apply Hturn.
      * split; [intros H; cbn in H; congruence|].
        intros c' Hu _. injection Hu as <-. split; [reflexivity|].
        split; [reflexivity|]. split; [reflexivity|].
        split; [intros; discriminate|]. split; [intros; discriminate|].
        split; [now split|]. split; [discriminate|]. now apply Hturn.
      * split; [intros H; cbn in H; congruence|].
        intros c' Hu _. injection Hu as <-.
        destruct (history_messages h) as [msgs|] eqn:Eh.
        -- split; [reflexivity|]. split; [reflexivity|]. split; [reflexivity|].
           split; [intros h' msgs' _ H; injection H as <-; rewrite Eh;
                   intros H; injection H as <-; now split|].
           split; [intros h' _ H; injection H as <-; rewrite Eh; discriminate|].
           split; [intros [H|H]; [discriminate | now destruct (H h)]|].
           split; [discriminate|]. now apply Hturn.
        -- split; [reflexivity|]. split; [reflexivity|]. split; [reflexivity|].
           split; [intros h' msgs' _ H; injection H as <-; rewrite Eh;
                   discriminate|].
           split; [intros h' _ H; injection H as <-; now split|].
           split; [intros [H|H]; [discriminate | now destruct (H h)]|].
           split; [discriminate|]. now apply Hturn.
    + destruct (authenticatedFetch_unsendable API_BASE_URL headersError w
                  (API_BASE_URL ++ lit "/api/chat/history?conversation_id=" ++ c)
                  (lit "GET") Hw) as (token & _ & E).
      rewrite E.
      split; [intros H; cbn in H; congruence|].
      intros c' Hu _. injection Hu as <-. split; [reflexivity|].
      split; [reflexivity|]. split; [reflexivity|].
      split; [intros; discriminate|]. split; [intros; discriminate|].
      split; [now split|]. split; [reflexivity|]. now apply Hturn.
  - split; [now split|]. intros c' Hu Hc'. injection Hu as <-. congruence.
  - split; [now split|]. intros c' Hu. discriminate.
Qed.

End MoreHistory.

Section HistoryExamples.

Import Chat Api.

(** A URL with a conversation whose history arrives, in a chat that shows
    an error: the messages are replaced and the error stays. *)
Lemma X20_conversation_from_url_witness :
  let old := {| id := lit "m1"; role := Chat.user; content := lit "hello";
                timestamp := lit "t1"; isStreaming := Some false |} in
  let s := setError (Some (lit "Failed to send message")) initial in
  let s' :=
    snd (App.conversationEffect (apiBaseUrl None) (fun v => v) None
           (Some (lit "c1"))
           (IsOk (ParsedAs {| history_messages := Some [old] |})) s) in
  conversationId s' = Some (lit "c1")
  /\ messages s' = [stored old]
  /\ error s' = Some (lit "Failed to send message").
Proof.
  intros old s s'. subst s'.
  pose proof (X20_conversation_from_url (apiBaseUrl None) (fun v => v) None
                (Some (lit "c1"))
                (IsOk (ParsedAs {| history_messages := Some [old] |})) s) as H.
  destruct (App.conversationEffect (apiBaseUrl None) (fun v => v) None
              (Some (lit "c1"))
              (IsOk (ParsedAs {| history_messages := Some [old] |})) s)
    as [sent s'].
  destruct H as [_ H]. destruct (H _ eq_refl eq_refl) as (H1 & _ & _ & H4 & _).
  destruct (H4 _ _ eq_refl eq_refl eq_refl) as [H5 H6].
  cbn [snd]. split; [exact H1 | split; [exact H5 | exact H6]].
Defined.

End HistoryExamples.
